(** * LSH: a shallow embedding of the shell of main.c and shell_funcs.c

    The C program is embedded as Rocq functions in a small state monad over
    a [world]: the standard streams, the working directory, [errno], and the
    answers of the operating system (allocator, [chdir], [fork], [execvp],
    [waitpid]).  Arrays are lists of cells, a cell being [None] while its
    content is indeterminate; C [int]s are integers with their 32-bit
    wrap-around written out; the data model is LP64. *)

From Stdlib Require Import ZArith List Ascii String Bool Lia.
From stdpp Require Import base list.

Local Open Scope Z_scope.

(* ===================================================================== *)
(** * Machine integers and characters *)
(* ===================================================================== *)

Module C.

(** [int] is 32 bits wide, two's complement. *)
Definition wrap32 (z : Z) : Z := (z + 2 ^ 31) mod 2 ^ 32 - 2 ^ 31.

(** [size_t] is 64 bits wide; an [int] converts to it modulo [2^64]. *)
Definition SIZE_MOD : Z := 2 ^ 64.
Definition PTRDIFF_MAX : Z := 2 ^ 63 - 1.
Definition size_of_int (z : Z) : Z := z mod SIZE_MOD.
Definition size_mul (a b : Z) : Z := (a * b) mod SIZE_MOD.

(** [sizeof (char * )] *)
Definition SIZEOF_PTR : Z := 8.

(** stdlib.h *)
Definition EXIT_SUCCESS : Z := 0.
Definition EXIT_FAILURE : Z := 1.

(** stdio.h: [getchar] yields an [unsigned char] converted to [int], or
    [EOF]. *)
Definition EOF : Z := -1.
Definition NUL : ascii := "000"%char.
Definition int_of_char (c : ascii) : Z := Z.of_N (N_of_ascii c).
Definition char_of_int (c : Z) : ascii := ascii_of_N (Z.to_N (c mod 256)).

(** The content of a C string, terminator excluded. *)
Abbreviation cstring := (list ascii).
Definition lit (s : string) : cstring := list_ascii_of_string s.
Definition nl : cstring := ["010"%char].

(** string.h: [strcmp] compares as [unsigned char] and returns the
    difference at the first mismatch; the end of a string reads as the
    terminator. *)
Fixpoint strcmp (a b : cstring) : Z :=
  match a, b with
  | [], [] => 0
  | [], y :: _ => 0 - int_of_char y
  | x :: _, [] => int_of_char x
  | x :: a', y :: b' =>
      if int_of_char x =? int_of_char y then strcmp a' b'
      else int_of_char x - int_of_char y
  end.

(** A pointer into the line buffer, or the null pointer. *)
Inductive ptr : Type :=
| NULL
| At (off : Z).

End C.
Import C.

(* ===================================================================== *)
(** * The world and the monad of effects *)
(* ===================================================================== *)

(** What the kernel reports about a child through [waitpid]. *)
Inductive wait_event : Type :=
| ChildExited (code : Z)
| ChildSignaled (sig : Z) (core : bool)
| ChildStopped (sig : Z).

(** The fate of one [fork] call, as seen from the process the model follows.
    [ForkParent pid evs]: the call returned [pid] in the parent; [evs] are
    the state changes of the child, in order, after which the child changes
    state no more.  [ForkChild e]: the call returned 0, the model follows
    the child, in which [execvp] fails with errno [e], or succeeds when [e]
    is [None].  [ForkReaped pid]: the call returned [pid] in the parent, but
    the kernel reaps the child itself, as it does for a process that
    ignores [SIGCHLD]: [waitpid] on it fails with [ECHILD]. *)
Inductive fork_script : Type :=
| ForkFails (errno : Z)
| ForkChild (exec_errno : option Z)
| ForkParent (pid : positive) (evs : list wait_event)
| ForkReaped (pid : positive).

Inductive syscall : Type :=
| SysChdir (path : cstring)
| SysFork
| SysExecvp (file : cstring) (argv : list cstring)
| SysWaitpid (pid : Z) (options : Z).

(** The answers of the system the program cannot influence. *)
Record environment : Type := Environment {
  (** does the [k]-th allocation request of the run, for [n] bytes, succeed? *)
  env_grant : nat -> Z -> bool;
  (** [chdir path] from directory [cwd]: the new directory, or an errno *)
  env_chdir : cstring -> cstring -> cstring + Z;
  env_strerror : Z -> cstring
}.

Record world : Type := World {
  w_env : environment;
  (** unread input; end of file once empty *)
  w_stdin : list ascii;
  (** what was printed, one entry per call *)
  w_stdout : list cstring;
  w_stderr : list cstring;
  (** the working directory of the process *)
  w_cwd : cstring;
  w_errno : Z;
  (** allocation requests made so far *)
  w_nalloc : nat;
  (** the position saved inside [strtok] *)
  w_strtok : Z;
  (** the fates of the coming [fork] calls *)
  w_forks : list fork_script;
  (** the children not yet reaped, and what each will still do *)
  w_children : list (Z * list wait_event);
  (** [Some e] in a forked child, [e] being the fate of its [execvp] *)
  w_child : option (option Z);
  (** system calls made, oldest first *)
  w_calls : list syscall;
  (** array stores made, oldest first: the index and the capacity then *)
  w_writes : list (Z * Z)
}.

Definition set_stdin (v : list ascii) (w : world) : world :=
  World (w_env w) v (w_stdout w) (w_stderr w) (w_cwd w) (w_errno w)
        (w_nalloc w) (w_strtok w) (w_forks w) (w_children w) (w_child w)
        (w_calls w) (w_writes w).
Definition set_stdout (v : list cstring) (w : world) : world :=
  World (w_env w) (w_stdin w) v (w_stderr w) (w_cwd w) (w_errno w)
        (w_nalloc w) (w_strtok w) (w_forks w) (w_children w) (w_child w)
        (w_calls w) (w_writes w).
Definition set_stderr (v : list cstring) (w : world) : world :=
  World (w_env w) (w_stdin w) (w_stdout w) v (w_cwd w) (w_errno w)
        (w_nalloc w) (w_strtok w) (w_forks w) (w_children w) (w_child w)
        (w_calls w) (w_writes w).
Definition set_cwd (v : cstring) (w : world) : world :=
  World (w_env w) (w_stdin w) (w_stdout w) (w_stderr w) v (w_errno w)
        (w_nalloc w) (w_strtok w) (w_forks w) (w_children w) (w_child w)
        (w_calls w) (w_writes w).
Definition set_errno (v : Z) (w : world) : world :=
  World (w_env w) (w_stdin w) (w_stdout w) (w_stderr w) (w_cwd w) v
        (w_nalloc w) (w_strtok w) (w_forks w) (w_children w) (w_child w)
        (w_calls w) (w_writes w).
Definition set_nalloc (v : nat) (w : world) : world :=
  World (w_env w) (w_stdin w) (w_stdout w) (w_stderr w) (w_cwd w)
        (w_errno w) v (w_strtok w) (w_forks w) (w_children w) (w_child w)
        (w_calls w) (w_writes w).
Definition set_strtok (v : Z) (w : world) : world :=
  World (w_env w) (w_stdin w) (w_stdout w) (w_stderr w) (w_cwd w)
        (w_errno w) (w_nalloc w) v (w_forks w) (w_children w) (w_child w)
        (w_calls w) (w_writes w).
Definition set_forks (v : list fork_script) (w : world) : world :=
  World (w_env w) (w_stdin w) (w_stdout w) (w_stderr w) (w_cwd w)
        (w_errno w) (w_nalloc w) (w_strtok w) v (w_children w) (w_child w)
        (w_calls w) (w_writes w).
Definition set_children (v : list (Z * list wait_event)) (w : world) : world :=
  World (w_env w) (w_stdin w) (w_stdout w) (w_stderr w) (w_cwd w)
        (w_errno w) (w_nalloc w) (w_strtok w) (w_forks w) v (w_child w)
        (w_calls w) (w_writes w).
Definition set_child (v : option (option Z)) (w : world) : world :=
  World (w_env w) (w_stdin w) (w_stdout w) (w_stderr w) (w_cwd w)
        (w_errno w) (w_nalloc w) (w_strtok w) (w_forks w) (w_children w) v
        (w_calls w) (w_writes w).
Definition set_calls (v : list syscall) (w : world) : world :=
  World (w_env w) (w_stdin w) (w_stdout w) (w_stderr w) (w_cwd w)
        (w_errno w) (w_nalloc w) (w_strtok w) (w_forks w) (w_children w)
        (w_child w) v (w_writes w).
Definition set_writes (v : list (Z * Z)) (w : world) : world :=
  World (w_env w) (w_stdin w) (w_stdout w) (w_stderr w) (w_cwd w)
        (w_errno w) (w_nalloc w) (w_strtok w) (w_forks w) (w_children w)
        (w_child w) (w_calls w) v.

(** How a computation can end other than by returning. *)
Inductive stop : Type :=
| Exit (status : Z)      (* [exit(status)]: the process is gone *)
| Replaced               (* [execvp] succeeded: the image is another program *)
| Blocked                (* suspended in [waitpid] for ever *)
| Fault                  (* access outside an object or to an indeterminate cell *)
| OutOfFuel.             (* the iteration bound of the model was reached *)

Inductive result (A : Type) : Type :=
| Ret (a : A)
| Stop (s : stop).
Arguments Ret {A} a.
Arguments Stop {A} s.

Definition M (A : Type) : Type := world -> world * result A.

Definition ret {A} (a : A) : M A := fun w => (w, Ret a).
Definition halt {A} (s : stop) : M A := fun w => (w, Stop s).
Definition bind {A B} (m : M A) (k : A -> M B) : M B :=
  fun w => match m w with
           | (w', Ret a) => k a w'
           | (w', Stop s) => (w', Stop s)
           end.

Declare Scope lsh_scope.
Delimit Scope lsh_scope with lsh.
Notation "x <- m ;; k" := (bind m (fun x => k))
  (at level 62, m at next level, right associativity, only parsing) : lsh_scope.
Notation "m ;;; k" := (bind m (fun _ => k))
  (at level 62, right associativity, only parsing) : lsh_scope.
Local Open Scope lsh_scope.

(* ===================================================================== *)
(** * The C library and the system calls *)
(* ===================================================================== *)

Module Libc.

(** An array of [A]: one cell per element, [None] while indeterminate. *)
Abbreviation array A := (list (option A)).

Definition capacity {A} (a : array A) : Z := Z.of_nat (length a).

(** [a[i] = v].  The store is logged; outside the object it is a fault. *)
Definition store {A} (a : array A) (i : Z) (v : A) : M (array A) :=
  fun w =>
    let w' := set_writes (w_writes w ++ [(i, capacity a)]) w in
    if (0 <=? i) && (i <? capacity a)
    then (w', Ret (<[Z.to_nat i := Some v]> a))
    else (w', Stop Fault).

(** [a[i]] as an rvalue. *)
Definition load {A} (a : array A) (i : Z) : M A :=
  fun w =>
    if 0 <=? i then
      match a !! Z.to_nat i with
      | Some (Some v) => (w, Ret v)
      | _ => (w, Stop Fault)
      end
    else (w, Stop Fault).

(** Is the next request, for [n] bytes, served?  A request above
    [PTRDIFF_MAX] never is: no object of an LP64 process is that large. *)
Definition served (n : Z) (w : world) : bool :=
  (n <=? PTRDIFF_MAX) && env_grant (w_env w) (w_nalloc w) n.

(** [malloc(n)] for elements of [elt] bytes: fresh indeterminate cells, or
    [None] for the null pointer. *)
Definition malloc {A} (elt : Z) (n : Z) : M (option (array A)) :=
  fun w =>
    let w' := set_nalloc (S (w_nalloc w)) w in
    if served n w
    then (w', Ret (Some (replicate (Z.to_nat (n / elt)) None)))
    else (w', Ret None).

(** [free(a)].  The model keeps no heap beside the arrays in hand, so there
    is nothing for it to do. *)
Definition free {A} (a : array A) : M unit := ret tt.

(** [realloc(a, n)]: the old cells are kept, up to the new size. *)
Definition realloc {A} (elt : Z) (a : array A) (n : Z) : M (option (array A)) :=
  fun w =>
    let w' := set_nalloc (S (w_nalloc w)) w in
    let cells := Z.to_nat (n / elt) in
    if served n w
    then (w', Ret (Some (take cells a
                           ++ replicate (cells - length a)%nat None)))
    else (w', Ret None).

Definition getchar : M Z :=
  fun w =>
    match w_stdin w with
    | [] => (w, Ret EOF)
    | c :: rest => (set_stdin rest w, Ret (int_of_char c))
    end.

Definition print_out (s : cstring) : M unit :=
  fun w => (set_stdout (w_stdout w ++ [s]) w, Ret tt).

Definition print_err (s : cstring) : M unit :=
  fun w => (set_stderr (w_stderr w ++ [s]) w, Ret tt).

(** [perror(s)]: [s], a colon and a space, the text of [errno], a newline. *)
Definition perror (s : cstring) : M unit :=
  fun w => print_err (s ++ lit ": " ++ env_strerror (w_env w) (w_errno w) ++ nl) w.

Definition exit {A} (status : Z) : M A := halt (Exit status).

(** ** string.h on a character array *)

Definition in_set (c : ascii) (set : cstring) : bool :=
  existsb (Ascii.eqb c) set.

(** The number of cells before the first one whose character satisfies
    [stop_at]; [None] when the scan leaves the object or meets an
    indeterminate cell first. *)
Fixpoint span (stop_at : ascii -> bool) (cells : array ascii) : option Z :=
  match cells with
  | [] => None
  | None :: _ => None
  | Some c :: rest =>
      if stop_at c then Some 0 else option_map Z.succ (span stop_at rest)
  end.

Definition scan (stop_at : ascii -> bool) (mem : array ascii) (s : Z) : M Z :=
  fun w =>
    if 0 <=? s then
      match span stop_at (drop (Z.to_nat s) mem) with
      | Some n => (w, Ret n)
      | None => (w, Stop Fault)
      end
    else (w, Stop Fault).

(** [strspn(s, accept)]: the terminator is in no set. *)
Definition strspn (mem : array ascii) (s : Z) (accept : cstring) : M Z :=
  scan (fun c => Ascii.eqb c NUL || negb (in_set c accept)) mem s.

(** [strcspn(s, reject)] *)
Definition strcspn (mem : array ascii) (s : Z) (reject : cstring) : M Z :=
  scan (fun c => Ascii.eqb c NUL || in_set c reject) mem s.

(** The string a [char *] points to. *)
Fixpoint read_cstr (cells : array ascii) : option cstring :=
  match cells with
  | [] => None
  | None :: _ => None
  | Some c :: rest =>
      if Ascii.eqb c NUL then Some [] else option_map (cons c) (read_cstr rest)
  end.

Definition cstr_at (mem : array ascii) (s : Z) : option cstring :=
  if 0 <=? s then read_cstr (drop (Z.to_nat s) mem) else None.

Definition string_at (mem : array ascii) (s : Z) : M cstring :=
  fun w =>
    match cstr_at mem s with
    | Some str => (w, Ret str)
    | None => (w, Stop Fault)
    end.

Definition save (s : Z) : M unit := fun w => (set_strtok s w, Ret tt).

(** [strtok(s, delim)]: skip the delimiters, return the start of the token
    found, end it in place with a terminator and remember where to resume;
    the null pointer when only delimiters are left. *)
Definition strtok (mem : array ascii) (s : ptr) (delim : cstring)
    : M (array ascii * ptr) :=
  fun w =>
    (let s := match s with NULL => w_strtok w | At off => off end in
     n <- strspn mem s delim ;;
     let s := s + n in
     c <- load mem s ;;
     if Ascii.eqb c NUL
     then save s ;;; ret (mem, NULL)
     else
       n <- strcspn mem s delim ;;
       let e := s + n in
       c <- load mem e ;;
       if Ascii.eqb c NUL
       then save e ;;; ret (mem, At s)
       else
         mem <- store mem e NUL ;;
         save (e + 1) ;;;
         ret (mem, At s)) w.

(** ** unistd.h and sys/wait.h *)

Definition chdir (path : cstring) : M Z :=
  fun w =>
    let w := set_calls (w_calls w ++ [SysChdir path]) w in
    match env_chdir (w_env w) (w_cwd w) path with
    | inl dir => (set_cwd dir w, Ret 0)
    | inr e => (set_errno e w, Ret (-1))
    end.

Definition EAGAIN : Z := 11.
Definition ECHILD : Z := 10.

(** The children left when [pid] is none of them: a process id that [fork]
    returns belongs to no other child. *)
Definition not_child (pid : Z) (tbl : list (Z * list wait_event))
    : list (Z * list wait_event) :=
  List.filter (fun c => negb (fst c =? pid)) tbl.

Definition fork : M Z :=
  fun w =>
    let w := set_calls (w_calls w ++ [SysFork]) w in
    match w_forks w with
    | [] => (set_errno EAGAIN w, Ret (-1))
    | ForkFails e :: rest => (set_errno e (set_forks rest w), Ret (-1))
    | ForkChild e :: rest =>
        (set_child (Some e) (set_children [] (set_forks rest w)), Ret 0)
    | ForkParent pid evs :: rest =>
        (set_children ((Z.pos pid, evs) :: w_children w) (set_forks rest w),
         Ret (Z.pos pid))
    | ForkReaped pid :: rest =>
        (set_children (not_child (Z.pos pid) (w_children w)) (set_forks rest w),
         Ret (Z.pos pid))
    end.

(** The strings of a null-terminated vector. *)
Fixpoint argv_strings (mem : array ascii) (cells : array ptr)
    : option (list cstring) :=
  match cells with
  | [] => None
  | None :: _ => None
  | Some NULL :: _ => Some []
  | Some (At p) :: rest =>
      match cstr_at mem p, argv_strings mem rest with
      | Some str, Some strs => Some (str :: strs)
      | _, _ => None
      end
  end.

(** [execvp(file, argv)] returns only when it fails. *)
Definition execvp (mem : array ascii) (file : ptr) (argv : array ptr) : M Z :=
  fun w =>
    match file, argv_strings mem argv with
    | At p, Some strs =>
        match cstr_at mem p with
        | Some name =>
            let w := set_calls (w_calls w ++ [SysExecvp name strs]) w in
            match w_child w with
            | Some (Some e) => (set_errno e w, Ret (-1))
            | _ => (w, Stop Replaced)
            end
        | None => (w, Stop Fault)
        end
    | _, _ => (w, Stop Fault)
    end.

(** The wait status of glibc on Linux. *)
Definition WUNTRACED : Z := 2.

Definition wstatus (ev : wait_event) : Z :=
  match ev with
  | ChildExited code => Z.shiftl (Z.land code 255) 8
  | ChildSignaled sig core =>
      Z.lor (Z.land sig 127) (if core then 128 else 0)
  | ChildStopped sig => Z.lor (Z.shiftl (Z.land sig 255) 8) 127
  end.

Definition signed_char (z : Z) : Z := (z + 128) mod 256 - 128.

Definition WTERMSIG (status : Z) : Z := Z.land status 127.
Definition WIFEXITED (status : Z) : bool := WTERMSIG status =? 0.
Definition WIFSIGNALED (status : Z) : bool :=
  0 <? Z.shiftr (signed_char (Z.land status 127 + 1)) 1.
Definition WIFSTOPPED (status : Z) : bool := Z.land status 255 =? 127.

Definition is_stop (ev : wait_event) : bool :=
  match ev with ChildStopped _ => true | _ => false end.

(** The state changes of child [pid] left to report, and the other
    children. *)
Fixpoint find_child (pid : Z) (tbl : list (Z * list wait_event))
    : option (list wait_event * list (Z * list wait_event)) :=
  match tbl with
  | [] => None
  | (p, evs) :: rest =>
      if p =? pid then Some (evs, rest)
      else match find_child pid rest with
           | Some (evs', rest') => Some (evs', (p, evs) :: rest')
           | None => None
           end
  end.

(** [waitpid(pid, &status, options)] for [pid > 0]: blocks until the child
    changes state, stores the status and returns [pid]; a stop is reported
    only under [WUNTRACED]; a child that ended is reaped.  [status] is the
    content of the variable before the call, the result carries it after. *)
Definition waitpid (pid : Z) (status : option Z) (options : Z)
    : M (Z * option Z) :=
  fun w =>
    let w := set_calls (w_calls w ++ [SysWaitpid pid options]) w in
    match find_child pid (w_children w) with
    | None => (set_errno ECHILD w, Ret (-1, status))
    | Some (evs, others) =>
        let evs := if Z.land options WUNTRACED =? 0
                   then List.filter (fun ev => negb (is_stop ev)) evs
                   else evs in
        match evs with
        | [] => (w, Stop Blocked)
        | ev :: evs' =>
            (set_children (if is_stop ev then (pid, evs') :: others
                           else others) w,
             Ret (pid, Some (wstatus ev)))
        end
    end.

End Libc.
Import Libc.

(* ===================================================================== *)
(** * main.c *)
(* ===================================================================== *)

Definition LSH_RL_BUFSIZE : Z := 1024.
Definition LSH_TOK_BUFSIZE : Z := 64.
Definition LSH_TOK_DELIM : cstring := [" "; "009"; "013"; "010"; "007"]%char.

Definition allocation_error : cstring := lit "lsh: allocation error" ++ nl.

(** The [while (1)] loop of [lsh_read_line]; [fuel] bounds its iterations. *)
Fixpoint read_line_loop (fuel : nat) (bufsize position : Z)
    (buffer : array ascii) : M (array ascii) :=
  match fuel with
  | O => halt OutOfFuel
  | S fuel =>
      c <- getchar ;;
      if (c =? EOF) || (c =? int_of_char "010")
      then
        buffer <- store buffer position NUL ;;
        ret buffer
      else
        buffer <- store buffer position (char_of_int c) ;;
        let position := wrap32 (position + 1) in
        if position >=? bufsize
        then
          let bufsize := wrap32 (bufsize + LSH_RL_BUFSIZE) in
          tmp <- realloc 1 buffer (size_of_int bufsize) ;;
          match tmp with
          | None =>
              free buffer ;;;
              print_err allocation_error ;;;
              exit EXIT_FAILURE
          | Some tmp => read_line_loop fuel bufsize position tmp
          end
        else read_line_loop fuel bufsize position buffer
  end.

(** [lsh_read_line]: every iteration but the last consumes a character, so
    one more than the length of the unread input is fuel enough. *)
Definition lsh_read_line : M (array ascii) :=
  fun w =>
    (let bufsize := LSH_RL_BUFSIZE in
     let position := 0 in
     buffer <- malloc 1 (size_of_int bufsize) ;;
     match buffer with
     | None =>
         print_err allocation_error ;;;
         exit EXIT_FAILURE
     | Some buffer =>
         read_line_loop (S (length (w_stdin w))) bufsize position buffer
     end) w.

(** The [if (position >= bufsize)] block of [lsh_split_line]: the capacity
    and the array after it. *)
Definition grow_tokens (bufsize position : Z) (tokens : array ptr)
    : M (Z * array ptr) :=
  if position >=? bufsize
  then
    let bufsize := wrap32 (bufsize + LSH_TOK_BUFSIZE) in
    tmp <- realloc SIZEOF_PTR tokens
             (size_mul (size_of_int bufsize) SIZEOF_PTR) ;;
    match tmp with
    | None =>
        free tokens ;;;
        print_err allocation_error ;;;
        exit EXIT_FAILURE
    | Some tmp => ret (bufsize, tmp)
    end
  else ret (bufsize, tokens).

(** The [while (token != NULL)] loop of [lsh_split_line], with the store of
    the sentinel that follows it. *)
Fixpoint split_line_loop (fuel : nat) (line : array ascii)
    (bufsize position : Z) (tokens : array ptr) (token : ptr)
    : M (array ascii * array ptr) :=
  match fuel with
  | O => halt OutOfFuel
  | S fuel =>
      match token with
      | NULL =>
          tokens <- store tokens position NULL ;;
          ret (line, tokens)
      | At _ =>
          tokens <- store tokens position token ;;
          let position := wrap32 (position + 1) in
          grown <- grow_tokens bufsize position tokens ;;
          let '(bufsize, tokens) := grown in
          next <- strtok line NULL LSH_TOK_DELIM ;;
          let '(line, token) := next in
          split_line_loop fuel line bufsize position tokens token
      end
  end.

(** [lsh_split_line(line)], [line] pointing to the first cell of the array
    [line].  Every token takes at least one cell, so two more than the size
    of the array is fuel enough. *)
Definition lsh_split_line (line : array ascii) : M (array ascii * array ptr) :=
  let bufsize := LSH_TOK_BUFSIZE in
  let position := 0 in
  tokens <- malloc SIZEOF_PTR (size_mul (size_of_int bufsize) SIZEOF_PTR) ;;
  match tokens with
  | None =>
      print_err allocation_error ;;;
      exit EXIT_FAILURE
  | Some tokens =>
      first <- strtok line (At 0) LSH_TOK_DELIM ;;
      let '(line, token) := first in
      split_line_loop (S (S (length line))) line bufsize position tokens token
  end.

(* ===================================================================== *)
(** * shell_funcs.c *)
(* ===================================================================== *)

Definition builtin_str : list cstring := [lit "cd"; lit "help"; lit "exit"].

Definition cd_usage : cstring :=
  lit "lsh: expected argument to " ++ ["034"%char] ++ lit "cd"
    ++ ["034"%char] ++ nl.

Definition lsh_cd (mem : array ascii) (args : array ptr) : M Z :=
  arg1 <- load args 1 ;;
  match arg1 with
  | NULL => print_err cd_usage
  | At p =>
      path <- string_at mem p ;;
      r <- chdir path ;;
      if negb (r =? 0) then perror (lit "lsh") else ret tt
  end ;;;
  ret 1.

(** The [do ... while] of the parent branch of [lsh_launch]. *)
Fixpoint wait_loop (fuel : nat) (pid : Z) (status : option Z) : M unit :=
  match fuel with
  | O => halt OutOfFuel
  | S fuel =>
      r <- waitpid pid status WUNTRACED ;;
      let status := snd r in
      match status with
      | None => halt Fault
      | Some st =>
          if negb (WIFEXITED st) && negb (WIFSIGNALED st)
          then wait_loop fuel pid status
          else ret tt
      end
  end.

(** The state changes that child [pid] has left. *)
Definition pending (pid : Z) (w : world) : list wait_event :=
  match find_child pid (w_children w) with
  | Some (evs, _) => evs
  | None => []
  end.

Definition lsh_launch (mem : array ascii) (args : array ptr) : M Z :=
  pid <- fork ;;
  (if pid =? 0
   then
     arg0 <- load args 0 ;;
     r <- execvp mem arg0 args ;;
     (if r =? -1 then perror (lit "lsh") else ret tt) ;;;
     exit EXIT_FAILURE
   else if pid <? 0
   then perror (lit "lsh")
   else
     fun w => wait_loop (S (length (pending pid w))) pid None w) ;;;
  ret 1.

Definition lsh_help (mem : array ascii) (args : array ptr) : M Z :=
  print_out (lit "Omer Hayat's LSH" ++ nl) ;;;
  print_out (lit "Type program names and arguments, and hit enter." ++ nl) ;;;
  print_out (lit "The following are built-in:" ++ nl) ;;;
  fold_right (fun name k => print_out (lit " " ++ name ++ nl) ;;; k)
             (ret tt) builtin_str ;;;
  print_out (lit "Use the man command for information on other programs." ++ nl) ;;;
  ret 1.

Definition lsh_exit (mem : array ascii) (args : array ptr) : M Z :=
  ret 0.

Definition builtin_func : list (array ascii -> array ptr -> M Z) :=
  [lsh_cd; lsh_help; lsh_exit].

Definition lsh_num_builtins : Z := Z.of_nat (length builtin_str).

(** [lsh_execute] over any table of names and handlers and any launcher; the
    shell's own is the instance below. *)
Section Dispatcher.

Variable count : Z.
Variable names : list cstring.
Variable handlers : list (array ascii -> array ptr -> M Z).
Variable launch : array ascii -> array ptr -> M Z.

(** The [for] loop from index [i] on, [n] indices being left, and the call
    of the launcher after it. *)
Fixpoint execute_from (n : nat) (i : nat) (mem : array ascii)
    (args : array ptr) : M Z :=
  match n with
  | O => launch mem args
  | S n =>
      arg0 <- load args 0 ;;
      match arg0, names !! i, handlers !! i with
      | At p, Some name, Some handler =>
          str <- string_at mem p ;;
          if strcmp str name =? 0
          then handler mem args
          else execute_from n (S i) mem args
      | _, _, _ => halt Fault
      end
  end.

Definition execute (mem : array ascii) (args : array ptr) : M Z :=
  arg0 <- load args 0 ;;
  match arg0 with
  | NULL => ret 1
  | At _ => execute_from (Z.to_nat count) 0 mem args
  end.

End Dispatcher.

Definition lsh_execute : array ascii -> array ptr -> M Z :=
  execute lsh_num_builtins builtin_str builtin_func lsh_launch.

(* ===================================================================== *)
(** * main.c: the loop *)
(* ===================================================================== *)

(** The body of the [do ... while] of [lsh_loop]: its value is [status]. *)
Definition loop_body : M Z :=
  print_out (lit "> ") ;;;
  line <- lsh_read_line ;;
  split <- lsh_split_line line ;;
  let '(line, args) := split in
  status <- lsh_execute line args ;;
  free line ;;;
  free args ;;;
  ret status.

(** [lsh_loop], [fuel] bounding the number of prompts. *)
Fixpoint lsh_loop (fuel : nat) : M unit :=
  match fuel with
  | O => halt OutOfFuel
  | S fuel =>
      status <- loop_body ;;
      if negb (status =? 0) then lsh_loop fuel else ret tt
  end.

Definition main (fuel : nat) : M Z :=
  lsh_loop fuel ;;;
  ret EXIT_SUCCESS.

(* ===================================================================== *)
(** * The vocabulary of the properties *)
(* ===================================================================== *)

(** A logged store [(index, capacity)] that stays inside its array. *)
Definition in_bounds (wr : Z * Z) : Prop := 0 <= fst wr < snd wr.

(** Between [w] and [w'] stores were only added, all of them in bounds. *)
Definition stores_in_bounds (w w' : world) : Prop :=
  exists new, w_writes w' = w_writes w ++ new /\ Forall in_bounds new.

(** The allocator of [w] refuses some request. *)
Definition allocation_refused (w : world) : Prop :=
  exists w0 n, w_env w0 = w_env w /\ served n w0 = false.

(** The fatal end of the reader and of the tokenizer: the message on the
    error stream, after a refused request. *)
Definition fatal (w w' : world) (status : Z) : Prop :=
  status = EXIT_FAILURE /\
  w_stderr w' = w_stderr w ++ [allocation_error] /\
  allocation_refused w.

(** The characters before the first newline, and the input after it. *)
Fixpoint first_line (input : list ascii) : cstring * list ascii :=
  match input with
  | [] => ([], [])
  | c :: rest =>
      if Ascii.eqb c "010" then ([], rest)
      else let '(l, r) := first_line rest in (c :: l, r)
  end.

(** The fields of the world a function leaves alone. *)
Definition same_process (w w' : world) : Prop :=
  w_env w' = w_env w /\ w_child w' = w_child w /\ w_forks w' = w_forks w /\
  w_children w' = w_children w /\ w_cwd w' = w_cwd w /\
  w_stdout w' = w_stdout w /\ w_calls w' = w_calls w.

(** The C string an array of characters holds: what comes before the first
    terminator. *)
Fixpoint c_str (chars : list ascii) : cstring :=
  match chars with
  | [] => []
  | c :: rest => if Ascii.eqb c NUL then [] else c :: c_str rest
  end.

(** ** Tokens *)

Definition is_delim (c : ascii) : bool := in_set c LSH_TOK_DELIM.

(** The words of a string: its maximal runs of characters that are not
    delimiters, in order. *)
Fixpoint tokens_of (s : cstring) : list cstring :=
  match s with
  | [] => []
  | c :: s' =>
      if is_delim c then tokens_of s'
      else
        match s' with
        | [] => [[c]]
        | c' :: _ =>
            if is_delim c' then [c] :: tokens_of s'
            else match tokens_of s' with
                 | t :: ts => (c :: t) :: ts
                 | [] => [[c]]
                 end
        end
  end.

(** What stands right after a word: the end of the string or a delimiter. *)
Definition word_end (s : cstring) : Prop :=
  match s with
  | [] => True
  | c :: _ => is_delim c = true
  end.

(** A word is not empty and holds no delimiter; a gap holds nothing else. *)
Definition is_word (wd : cstring) : Prop :=
  wd <> [] /\ Forall (fun c => is_delim c = false) wd.

Definition is_gap (gap : cstring) : Prop :=
  Forall (fun c => is_delim c = true) gap.

(** Every word followed by its gap. *)
Fixpoint words_and_gaps (items : list (cstring * cstring)) : cstring :=
  match items with
  | [] => []
  | (wd, gap) :: rest => wd ++ gap ++ words_and_gaps rest
  end.

(** Words apart: the gap after every word but the last is not empty. *)
Fixpoint well_spaced (items : list (cstring * cstring)) : Prop :=
  match items with
  | [] => True
  | (wd, gap) :: rest =>
      is_word wd /\ is_gap gap /\ (rest <> [] -> gap <> []) /\ well_spaced rest
  end.

(** The words joined with [sep] between them. *)
Fixpoint join (sep : cstring) (wds : list cstring) : cstring :=
  match wds with
  | [] => []
  | [wd] => wd
  | wd :: rest => wd ++ sep ++ join sep rest
  end.

(** [args] begins with pointers to the strings [toks], in order, and the
    null pointer right after them. *)
Definition argv_wf (mem : array ascii) (args : array ptr)
    (toks : list cstring) : Prop :=
  exists ptrs,
    Forall2 (fun q t => cstr_at mem q = Some t) ptrs toks /\
    take (S (length toks)) args = map (fun q => Some (At q)) ptrs ++ [Some NULL].

(** ** The state of the tokenizer's loop *)

(** The token in hand is a string of the line, lying before the position
    [strtok] saved, and [todo] are the tokens still to store. *)
Definition token_state (mem : array ascii) (pre : array ascii) (rest : cstring)
    (token : ptr) (todo : list cstring) : Prop :=
  match token with
  | NULL => todo = []
  | At q =>
      exists t, todo = t :: tokens_of rest /\ cstr_at mem q = Some t /\
                q + Z.of_nat (length t) <= Z.of_nat (length pre)
  end.

Definition token_fuel (rest : cstring) (token : ptr) : nat :=
  match token with
  | NULL => 0
  | At _ => S (length rest)
  end.

(** ** The launcher and the kernel *)

(** A signal that ends a child is one the kernel has, 1 to 64. *)
Definition valid_event (ev : wait_event) : Prop :=
  match ev with
  | ChildSignaled sig _ => 1 <= sig <= 64
  | _ => True
  end.

(** The stops a child makes before anything else. *)
Fixpoint leading_stops (evs : list wait_event) : nat :=
  match evs with
  | ChildStopped _ :: evs' => S (leading_stops evs')
  | _ => 0
  end.

(** Does the child ever end? *)
Definition ends (evs : list wait_event) : bool :=
  existsb (fun ev => negb (is_stop ev)) evs.

(** Nothing a user of the shell can see has changed. *)
Definition quiet (w w' : world) : Prop :=
  w_stdout w' = w_stdout w /\ w_stderr w' = w_stderr w /\ w_cwd w' = w_cwd w /\
  w_child w' = w_child w /\ w_env w' = w_env w /\ w_forks w' = w_forks w.

(** The kernel reports only what [valid_event] allows. *)
Definition valid_fork (f : fork_script) : Prop :=
  match f with
  | ForkParent _ evs => Forall valid_event evs
  | _ => True
  end.

Definition kernel_ok (w : world) : Prop := Forall valid_fork (w_forks w).

Definition is_name (name : string) (t : cstring) : bool :=
  strcmp t (lit name) =? 0.

(** How the dispatch of the command [toks] ends when the next [fork] has the
    fate at the head of [forks]. *)
Definition expected_status (toks : list cstring) (forks : list fork_script)
    : result Z :=
  match toks with
  | [] => Ret 1
  | t :: _ =>
      if is_name "exit" t then Ret 0
      else if is_name "cd" t || is_name "help" t then Ret 1
      else
        match forks with
        | [] | ForkFails _ :: _ => Ret 1
        | ForkChild None :: _ => Stop Replaced
        | ForkChild (Some _) :: _ => Stop (Exit EXIT_FAILURE)
        | ForkParent _ evs :: _ => if ends evs then Ret 1 else Stop Blocked
        | ForkReaped _ :: _ => Stop Fault
        end
  end.

(** The condition that ends the wait loop of [lsh_launch]. *)
Definition ends_wait (status : Z) : bool := WIFEXITED status || WIFSIGNALED status.

(** What [perror("lsh")] prints for errno [e]. *)
Definition perror_line (w : world) (e : Z) : cstring :=
  lit "lsh: " ++ env_strerror (w_env w) e ++ nl.

(** ** The process *)


(** ** Systems to run the shell on *)

Definition ENOENT : Z := 2.

(** Every request up to [limit] bytes is served; [/tmp] is the only
    directory there is to change to. *)
Definition demo_env (limit : Z) : environment :=
  Environment
    (fun _ n => n <=? limit)
    (fun _ path => if strcmp path (lit "/tmp") =? 0 then inl (lit "/tmp")
                   else inr ENOENT)
    (fun e => if e =? ENOENT then lit "No such file or directory"
              else lit "Unknown error").

(** The shell just started in [/home], with [input] to read. *)
Definition demo_world (limit : Z) (input : cstring) (forks : list fork_script)
    : world :=
  World (demo_env limit) input [] [] (lit "/home") 0 0%nat 0 forks [] None [] [].

(** A character array holding the string [s] and its terminator. *)
Definition line_of (s : cstring) : array ascii := map Some s ++ [Some NUL].

(** ** Memory and the line in place *)

(** Every request of at most [bound] bytes is served. *)
Definition plenty (bound : Z) (w : world) : Prop :=
  forall k n, 0 <= n <= bound -> env_grant (w_env w) k n = true.

(** [mem] is [line] but for delimiters overwritten with terminators. *)
Definition cut_at_delimiters (line mem : array ascii) : Prop :=
  Forall2 (fun a b => b = a \/
                      b = Some NUL /\ exists c, a = Some c /\ is_delim c = true)
          line mem.

(* ===================================================================== *)
(** * Integers and characters *)
(* ===================================================================== *)

Lemma wrap32_small z : - 2 ^ 31 <= z < 2 ^ 31 -> wrap32 z = z.
Proof.
  intros H. unfold wrap32.
  rewrite Z.mod_small by lia. lia.
Qed.

Lemma int_of_char_range c : 0 <= int_of_char c < 256.
Proof.
  unfold int_of_char. pose proof (N_ascii_bounded c). lia.
Qed.

Lemma char_of_int_of_char c : char_of_int (int_of_char c) = c.
Proof.
  unfold char_of_int.
  rewrite Z.mod_small by apply int_of_char_range.
  unfold int_of_char. rewrite N2Z.id. apply ascii_N_embedding.
Qed.

Lemma int_of_char_inj a b : int_of_char a = int_of_char b -> a = b.
Proof.
  intros H. rewrite <- (char_of_int_of_char a), <- (char_of_int_of_char b).
  now rewrite H.
Qed.

Lemma int_of_char_eqb a b : (int_of_char a =? int_of_char b) = Ascii.eqb a b.
Proof.
  destruct (Ascii.eqb_spec a b) as [->|Hne].
  - apply Z.eqb_refl.
  - apply Z.eqb_neq. intros H. apply Hne, int_of_char_inj, H.
Qed.

Lemma int_of_char_not_EOF c : (int_of_char c =? EOF) = false.
Proof.
  apply Z.eqb_neq. pose proof (int_of_char_range c). unfold EOF. lia.
Qed.

(* ===================================================================== *)
(** * The line reader *)
(* ===================================================================== *)

(** Projections of updated worlds are reduced where they stand; updates are
    never unfolded ahead of them. *)
Ltac world_simpl :=
  cbn [w_env w_stdin w_stdout w_stderr w_cwd w_errno w_nalloc w_strtok w_forks
       w_children w_child w_calls w_writes fst snd
       set_stdin set_stdout set_stderr set_cwd set_errno set_nalloc set_strtok
       set_forks set_children set_child set_calls set_writes] in *.

Lemma stores_in_bounds_refl w : stores_in_bounds w w.
Proof. exists []. split; [now rewrite app_nil_r | constructor]. Qed.

Lemma stores_in_bounds_trans w1 w2 w3 :
  stores_in_bounds w1 w2 -> stores_in_bounds w2 w3 -> stores_in_bounds w1 w3.
Proof.
  intros (n1 & E1 & F1) (n2 & E2 & F2). exists (n1 ++ n2). split.
  - rewrite E2, E1. now rewrite app_assoc.
  - apply Forall_app. split; assumption.
Qed.

Lemma stores_in_bounds_same w w' :
  w_writes w' = w_writes w -> stores_in_bounds w w'.
Proof. intros E. exists []. split; [now rewrite app_nil_r | constructor]. Qed.

Lemma stores_in_bounds_one w w' i cap :
  w_writes w' = w_writes w ++ [(i, cap)] -> 0 <= i < cap -> stores_in_bounds w w'.
Proof.
  intros E H. exists [(i, cap)]. split; [assumption|].
  constructor; [exact H | constructor].
Qed.

Lemma same_process_refl w : same_process w w.
Proof. unfold same_process. tauto. Qed.

Lemma same_process_trans w1 w2 w3 :
  same_process w1 w2 -> same_process w2 w3 -> same_process w1 w3.
Proof. unfold same_process. intuition congruence. Qed.

Lemma store_ok {A} (a : array A) i v w :
  0 <= i < capacity a ->
  store a i v w = (set_writes (w_writes w ++ [(i, capacity a)]) w,
                   Ret (<[Z.to_nat i := Some v]> a)).
Proof.
  intros H. unfold store.
  replace ((0 <=? i) && (i <? capacity a)) with true; [reflexivity|].
  symmetry. apply andb_true_iff. split; [apply Z.leb_le | apply Z.ltb_lt]; lia.
Qed.

Lemma served_bound n w : served n w = true -> n <= PTRDIFF_MAX.
Proof.
  unfold served. intros H. apply andb_true_iff in H as [H _].
  now apply Z.leb_le in H.
Qed.

Lemma realloc_inv {A} elt (a : array A) n w w' r :
  realloc elt a n w = (w', r) ->
  w' = set_nalloc (S (w_nalloc w)) w /\
  (r = Ret None /\ served n w = false \/
   served n w = true /\
   r = Ret (Some (take (Z.to_nat (n / elt)) a
                    ++ replicate (Z.to_nat (n / elt) - length a)%nat None))).
Proof.
  unfold realloc. destruct (served n w); intros [= <- <-]; auto.
Qed.

Lemma fatal_weaken w0 w w' status :
  w_env w = w_env w0 -> w_stderr w = w_stderr w0 ->
  fatal w w' status -> fatal w0 w' status.
Proof.
  intros He Hs (-> & Herr & w1 & n & Hw1 & Hn).
  split; [reflexivity|]. split; [congruence|].
  exists w1, n. split; [congruence | exact Hn].
Qed.

Lemma read_line_loop_spec fuel :
  forall bufsize position buffer w w' r,
    read_line_loop fuel bufsize position buffer w = (w', r) ->
    (length (w_stdin w) < fuel)%nat ->
    capacity buffer = bufsize ->
    0 <= position ->
    bufsize = 1024 * (position / 1024 + 1) ->
    bufsize < 2 ^ 31 ->
    stores_in_bounds w w' /\ same_process w w' /\
    match r with
    | Ret buf =>
        let line := fst (first_line (w_stdin w)) in
        let n := (Z.to_nat position + length line)%nat in
        w_stdin w' = snd (first_line (w_stdin w)) /\
        w_stderr w' = w_stderr w /\
        take (S n) buf
          = take (Z.to_nat position) buffer ++ map Some line ++ [Some NUL] /\
        capacity buf = 1024 * (Z.of_nat n / 1024 + 1)
    | Stop (Exit status) => fatal w w' status
    | Stop _ => False
    end.
Proof.
  induction fuel as [|fuel IH]; intros bufsize position buffer w w' r Hrun Hfuel Hcap Hpos Hbuf Hmax.
  { lia. }
  assert (Hlt : position < bufsize).
  { pose proof (Z.mod_pos_bound position 1024 ltac:(lia)).
    pose proof (Z.div_mod position 1024 ltac:(lia)). lia. }
  simpl in Hrun. unfold bind at 1 in Hrun. unfold getchar at 1 in Hrun.
  destruct (w_stdin w) as [|c rest] eqn:Hin.
  - (* end of file *)
    simpl in Hrun. unfold bind, ret in Hrun.
    rewrite store_ok in Hrun by lia. injection Hrun as <- <-.
    split; [|split].
    + eapply stores_in_bounds_one; [reflexivity|]. simpl. lia.
    + unfold same_process. world_simpl. tauto.
    + world_simpl. rewrite Hin. simpl. repeat split.
      rewrite Nat.add_0_r.
      erewrite take_S_r.
      2:{ apply list_lookup_insert_eq. unfold capacity in *. lia. }
      rewrite take_insert_ge by lia. reflexivity.
      unfold capacity in *. rewrite length_insert, Nat.add_0_r, Z2Nat.id by lia.
      lia.
  - replace (w_stdin w) with (c :: rest) in *.
    rewrite int_of_char_not_EOF, int_of_char_eqb in Hrun.
    cbn [orb] in Hrun. cbn [first_line].
    destruct (Ascii.eqb c "010") eqn:Hnl.
    + (* newline *)
      unfold bind, ret in Hrun.
      rewrite store_ok in Hrun by lia. injection Hrun as <- <-.
      split; [|split].
      * eapply stores_in_bounds_one; [reflexivity|]. simpl. lia.
      * unfold same_process. world_simpl. tauto.
      * world_simpl. repeat split.
        rewrite Nat.add_0_r.
        erewrite take_S_r.
        2:{ apply list_lookup_insert_eq. unfold capacity in *. lia. }
        rewrite take_insert_ge by lia. reflexivity.
        unfold capacity in *. rewrite length_insert, Nat.add_0_r, Z2Nat.id by lia.
        lia.
    + (* an ordinary character *)
      unfold bind at 1 in Hrun.
      rewrite store_ok in Hrun by lia.
      rewrite char_of_int_of_char in Hrun.
      rewrite (wrap32_small (position + 1)) in Hrun by lia.
      set (w1 := set_writes _ _) in Hrun.
      set (buffer1 := <[Z.to_nat position := Some c]> buffer) in Hrun.
      assert (Hw1 : stores_in_bounds w w1).
      { eapply stores_in_bounds_one; [reflexivity|]. simpl. lia. }
      assert (Hp1 : same_process w w1).
      { unfold same_process, w1. world_simpl. tauto. }
      assert (Hlen1 : length buffer1 = length buffer) by apply length_insert.
      assert (Htake1 : take (S (Z.to_nat position)) buffer1
                       = take (Z.to_nat position) buffer ++ [Some c]).
      { subst buffer1. erewrite take_S_r.
        2:{ apply list_lookup_insert_eq. unfold capacity in *. lia. }
        rewrite take_insert_ge by lia. reflexivity. }
      destruct (first_line rest) as [l rst] eqn:Hfl. cbn [fst snd].
      destruct (position + 1 >=? bufsize) eqn:Hfull.
      * (* the buffer is full: grow *)
        apply Z.geb_le in Hfull.
        assert (Hpb : position + 1 = bufsize) by lia.
        unfold bind at 1 in Hrun.
        destruct (realloc 1 buffer1 _ w1) as [w2 r2] eqn:Hre.
        apply realloc_inv in Hre as [-> Hre]. rewrite Z.div_1_r in Hre.
        assert (Hp2 : same_process w (set_nalloc (S (w_nalloc w1)) w1)).
        { unfold same_process, w1. world_simpl. tauto. }
        assert (Hw2 : stores_in_bounds w (set_nalloc (S (w_nalloc w1)) w1)).
        { eapply stores_in_bounds_trans; [exact Hw1|].
          apply stores_in_bounds_same. reflexivity. }
        destruct Hre as [[-> Hno]|[Hyes ->]].
        -- (* refused *)
           unfold bind, free, ret, print_err, exit, halt in Hrun.
           injection Hrun as <- <-.
           split; [|split].
           ++ destruct Hw2 as (new & E & F). exists new. split; [exact E|exact F].
           ++ unfold same_process, w1. world_simpl. tauto.
           ++ split; [reflexivity|]. split; [reflexivity|].
              eexists w1, _. split; [reflexivity | exact Hno].
        -- (* served *)
           assert (Hsz : bufsize + LSH_RL_BUFSIZE < 2 ^ 31).
           { unfold LSH_RL_BUFSIZE in *.
             destruct (Z.eq_dec (bufsize + 1024) (2 ^ 31)) as [Heq|Hne].
             - exfalso. rewrite Heq in Hyes. apply served_bound in Hyes.
               revert Hyes. vm_compute. intros Hc. apply Hc. reflexivity.
             - assert (bufsize + 1024 <= 2 ^ 31); [|lia].
               rewrite Hbuf. 
               assert (position / 1024 + 1 < 2 ^ 21); [|lia].
               assert (position / 1024 < 2 ^ 21); [|lia].
               apply Z.div_lt_upper_bound; lia. }
           unfold LSH_RL_BUFSIZE in *.
           rewrite (wrap32_small (bufsize + 1024)) in Hrun, Hyes by lia.
           unfold size_of_int, SIZE_MOD in Hrun, Hyes.
           rewrite (Z.mod_small (bufsize + 1024)) in Hrun, Hyes by lia.
           set (tmp := take _ buffer1 ++ _) in Hrun.
           assert (Htmp : tmp = buffer1 ++ replicate 1024 None).
           { subst tmp. rewrite take_ge by (unfold capacity in *; lia).
             f_equal. f_equal. unfold capacity in *. lia. }
           clearbody tmp. subst tmp.
           apply IH in Hrun.
           ++ destruct Hrun as (Hs & Hp & Hr).
              split; [eapply stores_in_bounds_trans; eassumption|].
              split; [eapply same_process_trans; eassumption|].
              destruct r as [buf|[status| | | |]]; try exact Hr.
              ** unfold w1 in Hr. world_simpl. rewrite Hfl in Hr. cbn [fst snd] in Hr.
                 destruct Hr as (Hr1 & Hr2 & Hr3 & Hr4).
                 split; [exact Hr1|]. split; [exact Hr2|].
                 replace (Z.to_nat (position + 1)) with (S (Z.to_nat position)) in * by lia.
                 cbn [length]. 
                 replace (Z.to_nat position + S (length l))%nat
                   with (S (Z.to_nat position) + length l)%nat by lia.
                 split; [|exact Hr4].
                 rewrite Hr3. rewrite take_app_le by (unfold capacity in *; lia). rewrite Htake1.
                 rewrite <- app_assoc. reflexivity.
           ++ unfold w1. world_simpl. simpl in Hfuel. lia.
           ++ unfold capacity in *. rewrite length_app, length_replicate. lia.
           ++ lia.
           ++ assert (Hd : (position + 1) / 1024 = position / 1024 + 1).
              { symmetry. apply Z.div_unique with (r := 0); lia. }
              lia.
           ++ lia.
      * (* room is left *)
        assert (Hroom : position + 1 < bufsize).
        { destruct (Z.geb_spec (position + 1) bufsize); [discriminate | lia]. }
        apply IH in Hrun.
        -- destruct Hrun as (Hs & Hp & Hr).
           split; [eapply stores_in_bounds_trans; eassumption|].
           split; [eapply same_process_trans; eassumption|].
           destruct r as [buf|[status| | | |]]; try exact Hr.
           unfold w1 in Hr. world_simpl. rewrite Hfl in Hr. cbn [fst snd] in Hr.
           destruct Hr as (Hr1 & Hr2 & Hr3 & Hr4).
           split; [exact Hr1|]. split; [exact Hr2|].
           replace (Z.to_nat (position + 1)) with (S (Z.to_nat position)) in * by lia.
           cbn [length].
           replace (Z.to_nat position + S (length l))%nat
             with (S (Z.to_nat position) + length l)%nat by lia.
           split; [|exact Hr4].
           rewrite Hr3, Htake1, <- app_assoc. reflexivity.
        -- unfold w1. world_simpl. simpl in Hfuel. lia.
        -- unfold capacity in *. lia.
        -- lia.
        -- assert (Hd : (position + 1) / 1024 = position / 1024).
           { symmetry. apply Z.div_unique with (r := (position + 1) mod 1024 ).
             - left. apply Z.mod_pos_bound. lia.
             - pose proof (Z.div_mod position 1024 ltac:(lia)).
               pose proof (Z.mod_pos_bound position 1024 ltac:(lia)).
               assert ((position + 1) mod 1024 = position mod 1024 + 1); [|lia].
               symmetry. apply Z.mod_unique with (q := position / 1024); lia. }
           lia.
        -- lia.
Qed.

Lemma malloc_inv {A} elt n w w' (r : result (option (array A))) :
  malloc elt n w = (w', r) ->
  w' = set_nalloc (S (w_nalloc w)) w /\
  (r = Ret None /\ served n w = false \/
   served n w = true /\
   r = Ret (Some (replicate (Z.to_nat (n / elt)) None))).
Proof.
  unfold malloc. destruct (served n w); intros [= <- <-]; auto.
Qed.

Lemma lsh_read_line_spec w w' r :
  lsh_read_line w = (w', r) ->
  stores_in_bounds w w' /\ same_process w w' /\
  match r with
  | Ret buf =>
      let line := fst (first_line (w_stdin w)) in
      w_stdin w' = snd (first_line (w_stdin w)) /\
      w_stderr w' = w_stderr w /\
      take (S (length line)) buf = map Some line ++ [Some NUL] /\
      capacity buf = 1024 * (Z.of_nat (length line) / 1024 + 1)
  | Stop (Exit status) => fatal w w' status
  | Stop _ => False
  end.
Proof.
  unfold lsh_read_line. unfold bind at 1.
  destruct (malloc 1 _ w) as [w1 r1] eqn:Hm.
  apply malloc_inv in Hm as [-> Hm].
  destruct Hm as [[-> Hno]|[Hyes ->]].
  - unfold bind, print_err, exit, halt. intros [= <- <-].
    split; [apply stores_in_bounds_same; reflexivity|].
    split; [unfold same_process; world_simpl; tauto|].
    split; [reflexivity|]. split; [reflexivity|].
    eexists w, _. split; [reflexivity | exact Hno].
  - intros Hrun. apply read_line_loop_spec in Hrun.
    + destruct Hrun as (Hs & Hp & Hr).
      split; [eapply stores_in_bounds_trans; [|exact Hs];
              apply stores_in_bounds_same; reflexivity|].
      split; [eapply same_process_trans; [|exact Hp];
              unfold same_process; world_simpl; tauto|].
      destruct r as [buf|[status| | | |]]; exact Hr.
    + world_simpl. lia.
    + unfold capacity. rewrite length_replicate. reflexivity.
    + lia.
    + reflexivity.
    + reflexivity.
Qed.

(* ===================================================================== *)
(** * Words and gaps *)
(* ===================================================================== *)

Lemma tokens_of_delim c s : is_delim c = true -> tokens_of (c :: s) = tokens_of s.
Proof. intros H. simpl. now rewrite H. Qed.

Lemma tokens_of_gap gap s : is_gap gap -> tokens_of (gap ++ s) = tokens_of s.
Proof.
  induction 1 as [|c gap Hc _ IH]; [reflexivity|].
  rewrite <- app_comm_cons, tokens_of_delim by assumption. exact IH.
Qed.

Lemma tokens_of_word wd s :
  is_word wd -> word_end s -> tokens_of (wd ++ s) = wd :: tokens_of s.
Proof.
  intros [Hne Hwd] Hs. induction Hwd as [|c wd Hc Hwd IH]; [congruence|].
  destruct wd as [|c2 wd].
  - cbn [app tokens_of]. rewrite Hc.
    destruct s as [|d s]; [reflexivity|]. simpl in Hs. rewrite Hs. reflexivity.
  - pose proof (Forall_inv Hwd) as Hc2.
    change ((c :: c2 :: wd) ++ s) with (c :: (c2 :: wd) ++ s).
    remember ((c2 :: wd) ++ s) as u eqn:Hu.
    cbn [tokens_of]. rewrite Hc. rewrite Hu at 1. cbn [app]. rewrite Hc2.
    rewrite IH by discriminate. reflexivity.
Qed.

Lemma tokens_of_layout items :
  well_spaced items -> tokens_of (words_and_gaps items) = map fst items.
Proof.
  induction items as [|[wd gap] rest IH]; [reflexivity|].
  intros (Hwd & Hgap & Hne & Hrest). cbn [words_and_gaps map fst].
  rewrite tokens_of_word; [| exact Hwd |].
  - rewrite tokens_of_gap by exact Hgap. now rewrite IH.
  - destruct gap as [|d gap].
    + destruct rest as [|it rest]; [exact I|]. exfalso. now apply Hne.
    + simpl. now inversion Hgap.
Qed.

Lemma tokens_of_spaced lead items :
  is_gap lead -> well_spaced items ->
  tokens_of (lead ++ words_and_gaps items) = map fst items.
Proof.
  intros Hl Hi. rewrite tokens_of_gap by exact Hl. now apply tokens_of_layout.
Qed.

(** Every string is a gap followed by words apart. *)
Lemma layout_exists s :
  exists lead items,
    s = lead ++ words_and_gaps items /\ is_gap lead /\ well_spaced items.
Proof.
  induction s as [|c s (lead & items & -> & Hl & Hi)].
  - exists [], []. split; [reflexivity|]. split; [constructor|exact I].
  - destruct (is_delim c) eqn:Hc.
    + exists (c :: lead), items. split; [reflexivity|].
      split; [constructor; assumption|exact Hi].
    + destruct lead as [|d lead].
      * destruct items as [|[wd gap] rest].
        -- exists [], [([c], [])]. split; [reflexivity|].
           split; [constructor|]. 
           split; [split; [discriminate|constructor; [exact Hc|constructor]]|].
           split; [constructor|]. split; [congruence|exact I].
        -- exists [], ((c :: wd, gap) :: rest).
           destruct Hi as ([Hne Hwd] & Hg & Hn & Hr).
           split; [reflexivity|]. split; [constructor|].
           split; [split; [discriminate|constructor; assumption]|].
           split; [exact Hg|]. split; assumption.
      * exists [], (([c], d :: lead) :: items).
        split; [reflexivity|]. split; [constructor|].
        split; [split; [discriminate|constructor; [exact Hc|constructor]]|].
        split; [exact Hl|]. split; [discriminate|exact Hi].
Qed.

(* ===================================================================== *)
(** * The tokenizer *)
(* ===================================================================== *)

(** The longest prefix on which [p] holds. *)
Lemma run_split (p : ascii -> bool) (s : cstring) :
  exists a b, s = a ++ b /\ Forall (fun c => p c = true) a /\
              match b with [] => True | c :: _ => p c = false end.
Proof.
  induction s as [|c s (a & b & -> & Ha & Hb)].
  - exists [], []. repeat split. constructor.
  - destruct (p c) eqn:Hc.
    + exists (c :: a), b. repeat split; [constructor; assumption | exact Hb].
    + exists [], (c :: a ++ b). repeat split; [constructor | exact Hc].
Qed.

Lemma span_stop stop cs c tl :
  Forall (fun x => stop x = false) cs -> stop c = true ->
  span stop (map Some cs ++ Some c :: tl) = Some (Z.of_nat (length cs)).
Proof.
  intros Hcs Hc. induction Hcs as [|x cs Hx _ IH]; simpl.
  - now rewrite Hc.
  - rewrite Hx, IH. simpl. f_equal. lia.
Qed.

Lemma scan_at stop (pre : array ascii) cs c tl s w :
  s = Z.of_nat (length pre) ->
  Forall (fun x => stop x = false) cs -> stop c = true ->
  scan stop (pre ++ map Some cs ++ Some c :: tl) s w
  = (w, Ret (Z.of_nat (length cs))).
Proof.
  intros -> Hcs Hc. unfold scan.
  destruct (Z.leb_spec 0 (Z.of_nat (length pre))); [|lia].
  rewrite Nat2Z.id, drop_app_length, span_stop by assumption. reflexivity.
Qed.

Lemma load_at {A} (pre : array A) (v : A) tl s w :
  s = Z.of_nat (length pre) ->
  load (pre ++ Some v :: tl) s w = (w, Ret v).
Proof.
  intros ->. unfold load.
  destruct (Z.leb_spec 0 (Z.of_nat (length pre))); [|lia].
  rewrite Nat2Z.id, list_lookup_middle by reflexivity. reflexivity.
Qed.

Lemma store_at {A} (pre : array A) (old : option A) (v : A) tl s w :
  s = Z.of_nat (length pre) ->
  store (pre ++ old :: tl) s v w
  = (set_writes (w_writes w ++ [(s, capacity (pre ++ old :: tl))]) w,
     Ret (pre ++ Some v :: tl)).
Proof.
  intros ->. rewrite store_ok.
  - rewrite Nat2Z.id.
    replace (length pre) with (length pre + 0)%nat at 2 by lia.
    rewrite insert_app_r. reflexivity.
  - unfold capacity. rewrite length_app. simpl. lia.
Qed.

Lemma read_cstr_app t tl :
  ~ In NUL t -> read_cstr (map Some t ++ Some NUL :: tl) = Some t.
Proof.
  induction t as [|c t IH]; intros Hn; simpl.
  - reflexivity.
  - destruct (Ascii.eqb_spec c NUL) as [->|Hc].
    + exfalso. apply Hn. now left.
    + rewrite IH; [reflexivity|]. intros Hin. apply Hn. now right.
Qed.

Lemma cstr_at_app (pre : array ascii) t tl q :
  q = Z.of_nat (length pre) -> ~ In NUL t ->
  cstr_at (pre ++ map Some t ++ Some NUL :: tl) q = Some t.
Proof.
  intros -> Hn. unfold cstr_at.
  destruct (Z.leb_spec 0 (Z.of_nat (length pre))); [|lia].
  rewrite Nat2Z.id, drop_app_length. now apply read_cstr_app.
Qed.

Lemma read_cstr_inv cells t :
  read_cstr cells = Some t ->
  exists tl, cells = map Some t ++ Some NUL :: tl /\ ~ In NUL t.
Proof.
  revert t. induction cells as [|[c|] cells IH]; intros t; simpl; try discriminate.
  destruct (Ascii.eqb_spec c NUL) as [->|Hc].
  - intros [= <-]. exists cells. split; [reflexivity | intros []].
  - destruct (read_cstr cells) as [t'|]; [|discriminate].
    intros [= <-]. destruct (IH t' eq_refl) as (tl & -> & Hn).
    exists tl. split; [reflexivity|]. intros [H|H]; [congruence | auto].
Qed.

Lemma cstr_at_inv mem q t :
  cstr_at mem q = Some t ->
  exists pre tl, mem = pre ++ map Some t ++ Some NUL :: tl /\
                 q = Z.of_nat (length pre) /\ ~ In NUL t.
Proof.
  unfold cstr_at. destruct (Z.leb_spec 0 q) as [Hq|]; [|discriminate].
  intros H. apply read_cstr_inv in H as (tl & H & Hn).
  exists (take (Z.to_nat q) mem), tl. split; [|split; [|exact Hn]].
  - rewrite <- H. symmetry. apply take_drop.
  - assert (Z.to_nat q <= length mem)%nat.
    { destruct (Nat.le_gt_cases (Z.to_nat q) (length mem)) as [|Hgt]; [assumption|].
      rewrite drop_ge in H by lia. destruct t; discriminate. }
    rewrite length_take. lia.
Qed.

(** A store beyond the terminator of a string leaves the string alone. *)
Lemma cstr_at_insert mem q t e v :
  cstr_at mem q = Some t -> q + Z.of_nat (length t) < Z.of_nat e ->
  cstr_at (<[e := v]> mem) q = Some t.
Proof.
  intros H He. apply cstr_at_inv in H as (pre & tl & -> & -> & Hn).
  replace e with (length pre + (length (map Some t ++ [Some NUL])
            + (e - length pre - S (length t))))%nat.
  2:{ rewrite length_app, length_map. simpl. lia. }
  rewrite insert_app_r.
  replace (map Some t ++ Some NUL :: tl) with ((map Some t ++ [Some NUL]) ++ tl)
    by now rewrite <- app_assoc.
  rewrite insert_app_r, <- app_assoc. simpl.
  now apply cstr_at_app.
Qed.

Lemma not_NUL_eqb c (s : cstring) : ~ In NUL s -> In c s -> Ascii.eqb c NUL = false.
Proof.
  intros Hn Hc. destruct (Ascii.eqb_spec c NUL) as [->|]; [contradiction|reflexivity].
Qed.

(** What one call of [strtok] does to a string with [rest] left to scan:
    [pre] is the part of the array before it. *)
Lemma strtok_spec (pre : array ascii) rest tail s w :
  ~ In NUL rest ->
  match s with NULL => w_strtok w | At off => off end = Z.of_nat (length pre) ->
  exists mem' token (pre' : array ascii) rest' w',
    strtok (pre ++ map Some rest ++ Some NUL :: tail) s LSH_TOK_DELIM w
      = (w', Ret (mem', token)) /\
    stores_in_bounds w w' /\ same_process w w' /\
    w_stderr w' = w_stderr w /\ w_nalloc w' = w_nalloc w /\
    w_strtok w' = Z.of_nat (length pre') /\
    mem' = pre' ++ map Some rest' ++ Some NUL :: tail /\
    ~ In NUL rest' /\
    (length pre <= length pre')%nat /\
    (mem' = pre ++ map Some rest ++ Some NUL :: tail \/
     exists e, (length pre < e)%nat /\
               mem' = <[e := Some NUL]> (pre ++ map Some rest ++ Some NUL :: tail)) /\
    match token with
    | NULL => tokens_of rest = [] /\ rest' = []
    | At q =>
        exists t, tokens_of rest = t :: tokens_of rest' /\
                  cstr_at mem' q = Some t /\
                  q + Z.of_nat (length t) <= Z.of_nat (length pre') /\
                  (length rest' < length rest)%nat
    end.
Proof.
  intros Hnul Hs.
  destruct (run_split is_delim rest) as (lead & r1 & -> & Hlead & Hr1).
  set (start := match s with NULL => w_strtok w | At off => off end) in *.
  assert (Hlead1 : Forall (fun x => Ascii.eqb x NUL || negb (in_set x LSH_TOK_DELIM) = false) lead).
  { apply Forall_forall. intros x Hx.
    rewrite Forall_forall in Hlead. specialize (Hlead x Hx). unfold is_delim in Hlead.
    rewrite Hlead. rewrite (not_NUL_eqb x (lead ++ r1)); [reflexivity|exact Hnul|].
    apply in_or_app. left. now apply list_elem_of_In. }
  unfold strtok. fold start. unfold bind at 1. unfold strspn.
  destruct r1 as [|c r].
  - (* only delimiters are left *)
    rewrite app_nil_r in *.
    rewrite (scan_at _ pre lead NUL tail) by (assumption || reflexivity).
    unfold bind at 1.
    rewrite app_assoc.
    rewrite load_at by (rewrite length_app, length_map; lia).
    cbn [Ascii.eqb NUL Bool.eqb andb]. unfold bind, save, ret.
    eexists _, NULL, (pre ++ map Some lead), [], _.
    split; [reflexivity|].
    split; [apply stores_in_bounds_same; reflexivity|].
    split; [unfold same_process; world_simpl; tauto|].
    split; [reflexivity|]. split; [reflexivity|].
    split; [world_simpl; rewrite length_app, length_map; lia|].
    split; [reflexivity|]. split; [intros []|].
    split; [rewrite length_app; lia|].
    split; [left; now rewrite <- app_assoc|].
    split; [|reflexivity].
    rewrite <- (app_nil_r lead). now rewrite tokens_of_gap.
  - (* a token starts at [c] *)
    assert (Hc1 : Ascii.eqb c NUL = false).
    { apply (not_NUL_eqb c (lead ++ c :: r)); [exact Hnul|].
      apply in_or_app. right. now left. }
    rewrite map_app, <- app_assoc. cbn [map app].
    rewrite (scan_at _ pre lead c) by
      (try assumption; try reflexivity; unfold is_delim in Hr1; rewrite Hr1, Hc1; reflexivity).
    unfold bind at 1.
    rewrite (app_assoc pre).
    rewrite load_at by (rewrite length_app, length_map; lia).
    rewrite Hc1. unfold bind at 1. unfold strcspn.
    destruct (run_split (fun x => negb (is_delim x)) (c :: r)) as (wd & r2 & Hsplit & Hwd & Hr2).
    assert (Hwd' : Forall (fun c => is_delim c = false) wd).
    { eapply Forall_impl; [exact Hwd|]. intros x Hx. now apply negb_true_iff in Hx. }
    assert (Hne : wd <> []).
    { intros ->. simpl in Hsplit. subst r2. simpl in Hr2. rewrite Hr1 in Hr2. discriminate. }
    assert (Hnul2 : ~ In NUL (wd ++ r2)).
    { rewrite <- Hsplit. intros Hin. apply Hnul. apply in_or_app. now right. }
    assert (Hwd2 : Forall (fun x => Ascii.eqb x NUL || in_set x LSH_TOK_DELIM = false) wd).
    { apply Forall_forall. intros x Hx.
      rewrite Forall_forall in Hwd'. specialize (Hwd' x Hx). unfold is_delim in Hwd'.
      rewrite Hwd'. rewrite (not_NUL_eqb x (wd ++ r2)); [reflexivity|exact Hnul2|].
      apply in_or_app. left. now apply list_elem_of_In. }
    change (Some c :: map Some r ++ Some NUL :: tail)
      with (map Some (c :: r) ++ Some NUL :: tail).
    rewrite Hsplit. clear Hsplit.
    rewrite map_app, <- (app_assoc (map Some wd)).
    assert (Hlen : start + Z.of_nat (length lead)
                   = Z.of_nat (length (pre ++ map Some lead))).
    { rewrite length_app, length_map. lia. }
    destruct r2 as [|d r3].
    + (* the token runs to the end of the string *)
      cbn [map app].
      rewrite (scan_at _ (pre ++ map Some lead) wd NUL tail)
        by (assumption || reflexivity).
      unfold bind at 1.
      rewrite (app_assoc (pre ++ map Some lead)).
      rewrite load_at by (rewrite !length_app, !length_map; lia).
      cbn [Ascii.eqb NUL Bool.eqb andb]. unfold bind, save, ret.
      eexists _, (At _), ((pre ++ map Some lead) ++ map Some wd), [], _.
      split; [reflexivity|].
      split; [apply stores_in_bounds_same; reflexivity|].
      split; [unfold same_process; world_simpl; tauto|].
      split; [reflexivity|]. split; [reflexivity|].
      split; [world_simpl; rewrite !length_app, !length_map; lia|].
      split; [reflexivity|]. split; [intros []|].
      split; [rewrite !length_app; lia|].
      split; [left; reflexivity|].
      exists wd. rewrite app_nil_r in *.
      split; [|split; [|split]].
      * rewrite tokens_of_gap by exact Hlead.
        rewrite <- (app_nil_r wd) at 1.
        rewrite tokens_of_word; [reflexivity|split; assumption|exact I].
      * rewrite <- app_assoc. apply cstr_at_app; [exact Hlen|exact Hnul2].
      * rewrite !length_app, !length_map. lia.
      * rewrite length_app. simpl. destruct wd; [congruence|]. simpl. lia.
    + (* the token ends at the delimiter [d] *)
      assert (Hd : is_delim d = true).
      { simpl in Hr2. now apply negb_false_iff in Hr2. }
      assert (Hd1 : Ascii.eqb d NUL = false).
      { apply (not_NUL_eqb d (wd ++ d :: r3)); [exact Hnul2|].
        apply in_or_app. right. now left. }
      cbn [map app].
      rewrite (scan_at _ (pre ++ map Some lead) wd d)
        by (try assumption; unfold is_delim in Hd; rewrite Hd; apply orb_true_r).
      unfold bind at 1.
      rewrite (app_assoc (pre ++ map Some lead)).
      rewrite load_at by (rewrite !length_app, !length_map; lia).
      rewrite Hd1. unfold bind at 1.
      rewrite store_at by (rewrite !length_app, !length_map; lia).
      unfold bind, save, ret.
      eexists _, (At _), (((pre ++ map Some lead) ++ map Some wd) ++ [Some NUL]), r3, _.
      split; [reflexivity|].
      split.
      { eapply stores_in_bounds_one; [reflexivity|].
        unfold capacity. rewrite !length_app, !length_map. simpl. 
        rewrite length_app, length_map. simpl. lia. }
      split; [unfold same_process; world_simpl; tauto|].
      split; [reflexivity|]. split; [reflexivity|].
      split; [world_simpl; rewrite !length_app, !length_map; simpl; lia|].
      split; [rewrite <- (app_assoc _ [Some NUL]); reflexivity|].
      split; [intros Hin; apply Hnul2; apply in_or_app; right; now right|].
      split; [rewrite !length_app; lia|].
      split.
      { right. exists (length ((pre ++ map Some lead) ++ map Some wd)).
        split.
        - rewrite !length_app, !length_map. destruct wd; [congruence|]. simpl. lia.
        - rewrite insert_app_r_alt by lia. rewrite Nat.sub_diag. reflexivity. }
      exists wd. split; [|split; [|split]].
      * rewrite tokens_of_gap by exact Hlead.
        rewrite tokens_of_word; [|split; assumption|exact Hd].
        now rewrite tokens_of_delim.
      * rewrite <- app_assoc. apply cstr_at_app; [exact Hlen|].
        intros Hin. apply Hnul2. apply in_or_app. now left.
      * rewrite !length_app, !length_map. simpl. lia.
      * rewrite length_app. simpl. destruct wd; [congruence|]. simpl. 
        rewrite length_app. simpl. lia.
Qed.

Lemma size_of_tokens b :
  0 <= b < 2 ^ 31 -> size_mul (size_of_int b) SIZEOF_PTR = b * 8.
Proof.
  intros H. unfold size_mul, size_of_int, SIZE_MOD, SIZEOF_PTR.
  rewrite (Z.mod_small b) by lia. apply Z.mod_small. lia.
Qed.

Lemma div64_succ_full p : 0 <= p -> p + 1 = 64 * (p / 64 + 1) -> (p + 1) / 64 = p / 64 + 1.
Proof. intros Hp H. symmetry. apply Z.div_unique with (r := 0); lia. Qed.

Lemma div64_succ_room p : 0 <= p -> p + 1 < 64 * (p / 64 + 1) -> (p + 1) / 64 = p / 64.
Proof.
  intros Hp H. symmetry.
  pose proof (Z.div_mod p 64 ltac:(lia)).
  pose proof (Z.mod_pos_bound p 64 ltac:(lia)).
  apply Z.div_unique with (r := p mod 64 + 1); lia.
Qed.

(** The block that grows the token array, entered with [position] stores
    done into an array of [bufsize] cells. *)
Lemma grow_tokens_spec bufsize position (tokens : array ptr) w w' r :
  grow_tokens bufsize (position + 1) tokens w = (w', r) ->
  capacity tokens = bufsize ->
  0 <= position ->
  bufsize = 64 * (position / 64 + 1) ->
  bufsize < 2 ^ 31 ->
  w_writes w' = w_writes w /\ same_process w w' /\ w_strtok w' = w_strtok w /\
  match r with
  | Ret (bufsize', tokens') =>
      w_stderr w' = w_stderr w /\
      capacity tokens' = bufsize' /\
      bufsize' = 64 * ((position + 1) / 64 + 1) /\
      bufsize' < 2 ^ 31 /\
      exists extra, tokens' = tokens ++ extra
  | Stop (Exit status) => fatal w w' status
  | Stop _ => False
  end.
Proof.
  intros Hrun Hcap Hpos Hbuf Hmax. unfold grow_tokens in Hrun.
  assert (Hlt : position < bufsize).
  { pose proof (Z.mod_pos_bound position 64 ltac:(lia)).
    pose proof (Z.div_mod position 64 ltac:(lia)). lia. }
  destruct (position + 1 >=? bufsize) eqn:Hfull.
  - apply Z.geb_le in Hfull.
    assert (Hpb : position + 1 = bufsize) by lia.
    unfold bind at 1 in Hrun.
    destruct (realloc _ tokens _ w) as [w1 r1] eqn:Hre.
    apply realloc_inv in Hre as [-> Hre].
    destruct Hre as [[-> Hno]|[Hyes ->]].
    + unfold bind, free, ret, print_err, exit, halt in Hrun.
      injection Hrun as <- <-.
      split; [reflexivity|]. split; [unfold same_process; world_simpl; tauto|].
      split; [reflexivity|]. split; [reflexivity|]. split; [reflexivity|].
      eexists w, _. split; [reflexivity | exact Hno].
    + unfold ret in Hrun. injection Hrun as <- <-.
      split; [reflexivity|]. split; [unfold same_process; world_simpl; tauto|].
      split; [reflexivity|]. split; [reflexivity|].
      assert (Hsz : bufsize + LSH_TOK_BUFSIZE < 2 ^ 31).
      { unfold LSH_TOK_BUFSIZE in *.
        destruct (Z.eq_dec (bufsize + 64) (2 ^ 31)) as [Heq|Hne].
        - exfalso. rewrite Heq in Hyes. apply served_bound in Hyes.
          revert Hyes. vm_compute. intros Hc. apply Hc. reflexivity.
        - assert (bufsize + 64 <= 2 ^ 31); [|lia].
          rewrite Hbuf.
          assert (position / 64 < 2 ^ 25); [|lia].
          apply Z.div_lt_upper_bound; lia. }
      unfold LSH_TOK_BUFSIZE in *.
      rewrite (wrap32_small (bufsize + 64)) in * by lia.
      rewrite size_of_tokens in * by lia.
      unfold SIZEOF_PTR in *.
      rewrite Z.div_mul by lia.
      rewrite take_ge by (unfold capacity in *; lia).
      split; [unfold capacity in *; rewrite length_app, length_replicate; lia|].
      split; [rewrite div64_succ_full by lia; lia|].
      split; [lia|]. eexists. reflexivity.
  - unfold ret in Hrun. injection Hrun as <- <-.
    assert (Hroom : position + 1 < bufsize).
    { destruct (Z.geb_spec (position + 1) bufsize); [discriminate | lia]. }
    split; [reflexivity|]. split; [apply same_process_refl|].
    split; [reflexivity|]. split; [reflexivity|].
    split; [exact Hcap|].
    split; [rewrite div64_succ_room by lia; lia|].
    split; [lia|]. exists []. now rewrite app_nil_r.
Qed.

(** A string that ends within the first [n] cells outlives a store made
    after them. *)
Lemma cstr_stable (mem mem' : array ascii) (n n' : nat) q (t : cstring) :
  (n <= n')%nat ->
  (mem' = mem \/ exists e, (n < e)%nat /\ mem' = <[e := Some NUL]> mem) ->
  cstr_at mem q = Some t /\ q + Z.of_nat (length t) <= Z.of_nat n ->
  cstr_at mem' q = Some t /\ q + Z.of_nat (length t) <= Z.of_nat n'.
Proof.
  intros Hn Hmem [Hc Hb]. split; [|lia].
  destruct Hmem as [->|(e & He & ->)]; [exact Hc|].
  apply cstr_at_insert; [exact Hc | lia].
Qed.

Lemma split_line_loop_spec fuel :
  forall (pre : array ascii) rest tail bufsize position tokens token w w' r
         ptrs done todo,
    split_line_loop fuel (pre ++ map Some rest ++ Some NUL :: tail)
      bufsize position tokens token w = (w', r) ->
    ~ In NUL rest ->
    w_strtok w = Z.of_nat (length pre) ->
    token_state (pre ++ map Some rest ++ Some NUL :: tail) pre rest token todo ->
    Forall2 (fun q t => cstr_at (pre ++ map Some rest ++ Some NUL :: tail) q = Some t
                        /\ q + Z.of_nat (length t) <= Z.of_nat (length pre))
            ptrs done ->
    take (Z.to_nat position) tokens = map (fun q => Some (At q)) ptrs ->
    Z.of_nat (length ptrs) = position ->
    capacity tokens = bufsize ->
    bufsize = 64 * (position / 64 + 1) ->
    bufsize < 2 ^ 31 ->
    (token_fuel rest token < fuel)%nat ->
    stores_in_bounds w w' /\ same_process w w' /\
    match r with
    | Ret (mem', args) =>
        w_stderr w' = w_stderr w /\
        argv_wf mem' args (done ++ todo) /\
        capacity args = 64 * (Z.of_nat (length (done ++ todo)) / 64 + 1) /\
        length mem' = length (pre ++ map Some rest ++ Some NUL :: tail)
    | Stop (Exit status) => fatal w w' status
    | Stop _ => False
    end.
Proof.
  induction fuel as [|fuel IH];
    intros pre rest tail bufsize position tokens token w w' r ptrs done todo
           Hrun Hnul Hsave Htok Hdone Htake Hlen Hcap Hbuf Hmax Hfuel.
  { lia. }
  assert (Hpos : 0 <= position) by lia.
  assert (Hlt : position < bufsize).
  { pose proof (Z.mod_pos_bound position 64 ltac:(lia)).
    pose proof (Z.div_mod position 64 ltac:(lia)). lia. }
  cbn [split_line_loop] in Hrun.
  destruct token as [|q].
  - (* no token is left: the sentinel *)
    unfold bind, ret in Hrun. rewrite store_ok in Hrun by lia.
    injection Hrun as <- <-. simpl in Htok. subst todo. rewrite app_nil_r.
    split; [eapply stores_in_bounds_one; [reflexivity | simpl; lia]|].
    split; [unfold same_process; world_simpl; tauto|].
    split; [reflexivity|].
    assert (Hd : length done = length ptrs).
    { symmetry. eapply Forall2_length. exact Hdone. }
    split; [|split; [|reflexivity]].
    + exists ptrs. split.
      * eapply Forall2_impl; [exact Hdone|]. intros ? ? [? _]. assumption.
      * rewrite Hd. replace (length ptrs) with (Z.to_nat position) by lia.
        erewrite take_S_r.
        2:{ apply list_lookup_insert_eq. unfold capacity in *. lia. }
        rewrite take_insert_ge by lia. now rewrite Htake.
    + unfold capacity in *. rewrite length_insert, Hd, Hlen. lia.
  - (* a token: store it, grow if the array is full, and look for the next *)
    destruct Htok as (t & -> & Hq & Hqb).
    unfold bind at 1 in Hrun. rewrite store_ok in Hrun by lia.
    rewrite (wrap32_small (position + 1)) in Hrun by lia.
    set (w1 := set_writes _ w) in Hrun.
    set (tokens1 := <[Z.to_nat position := Some (At q)]> tokens) in Hrun.
    assert (Hw1 : stores_in_bounds w w1).
    { eapply stores_in_bounds_one; [reflexivity | simpl; lia]. }
    assert (Herr1 : w_stderr w1 = w_stderr w) by reflexivity.
    assert (Hst1 : w_strtok w1 = w_strtok w) by reflexivity.
    assert (Hlen1 : length tokens1 = length tokens) by apply length_insert.
    assert (Htake1 : take (S (Z.to_nat position)) tokens1
                     = map (fun q => Some (At q)) (ptrs ++ [q])).
    { subst tokens1. erewrite take_S_r.
      2:{ apply list_lookup_insert_eq. unfold capacity in *. lia. }
      rewrite take_insert_ge by lia. rewrite Htake, map_app. reflexivity. }
    unfold bind at 1 in Hrun.
    destruct (grow_tokens bufsize (position + 1) tokens1 w1) as [w2 r2] eqn:Hgrow.
    apply grow_tokens_spec in Hgrow; [| | lia | assumption | assumption].
    2:{ subst tokens1. unfold capacity in *. now rewrite length_insert. }
    destruct Hgrow as (Hwr2 & Hp2 & Hst2 & Hr2).
    assert (Hw2 : stores_in_bounds w w2).
    { eapply stores_in_bounds_trans; [exact Hw1|]. now apply stores_in_bounds_same. }
    assert (Hp12 : same_process w w2).
    { eapply same_process_trans; [|exact Hp2]. unfold same_process, w1; world_simpl; tauto. }
    destruct r2 as [[bufsize' tokens']|[status| | | |]]; try contradiction.
    2:{ injection Hrun as <- <-. split; [exact Hw2|]. split; [exact Hp12|].
        eapply fatal_weaken; [| |exact Hr2]; reflexivity. }
    destruct Hr2 as (Herr2 & Hcap' & Hbuf' & Hmax' & extra & ->).
    unfold bind at 1 in Hrun.
    destruct (strtok_spec pre rest tail NULL w2 Hnul) as
      (mem' & token' & pre' & rest' & w3 & Hstk & Hw3 & Hp3 & Herr3 & _ & Hsave3
         & -> & Hnul' & Hpre' & Hmem' & Htok').
    { simpl. rewrite Hst2, Hst1. exact Hsave. }
    rewrite Hstk in Hrun.
    eapply (IH _ _ _ _ _ _ _ _ _ _ (ptrs ++ [q]) (done ++ [t])
              (match token' with NULL => [] | At _ => tokens_of rest end)) in Hrun.
    + destruct Hrun as (Hs & Hp & Hr).
      split; [eapply stores_in_bounds_trans; [exact Hw2|];
              eapply stores_in_bounds_trans; eassumption|].
      split; [eapply same_process_trans; [exact Hp12|];
              eapply same_process_trans; eassumption|].
      destruct r as [[mem'' args]|[status| | | |]]; try exact Hr.
      * assert (Htodo : (done ++ [t]) ++ match token' with NULL => [] | At _ => tokens_of rest end
                        = done ++ t :: tokens_of rest).
        { rewrite <- app_assoc. simpl. destruct token'; [|reflexivity].
          destruct Htok' as [-> _]. reflexivity. }
        rewrite Htodo in Hr. destruct Hr as (Hr1 & Hr2 & Hr3 & Hr4).
        split; [congruence|]. split; [exact Hr2|]. split; [exact Hr3|].
        rewrite Hr4. destruct Hmem' as [E|(e & _ & E)]; rewrite E; [reflexivity|].
        apply length_insert.
      * eapply fatal_weaken; [| |exact Hr].
        -- destruct Hp12 as (E1 & _), Hp3 as (E2 & _). congruence.
        -- congruence.
    + exact Hnul'.
    + exact Hsave3.
    + destruct token' as [|q']; [reflexivity|].
      destruct Htok' as (t' & E & Hc' & Hb' & _). rewrite E.
      exists t'. repeat split; assumption.
    + apply Forall2_app.
      * eapply Forall2_impl; [exact Hdone|]. intros q0 t0.
        apply cstr_stable; assumption.
      * constructor; [|constructor].
        apply (cstr_stable _ _ _ _ q t Hpre' Hmem'). split; assumption.
    + replace (Z.to_nat (position + 1)) with (S (Z.to_nat position)) by lia.
      rewrite take_app_le by (unfold capacity in *; lia). exact Htake1.
    + rewrite length_app. simpl. lia.
    + exact Hcap'.
    + exact Hbuf'.
    + exact Hmax'.
    + destruct token' as [|q']; simpl in *; [lia|].
      destruct Htok' as (t' & _ & _ & _ & Hshort). lia.
Qed.

Lemma lsh_split_line_spec line s w w' r :
  cstr_at line 0 = Some s ->
  lsh_split_line line w = (w', r) ->
  stores_in_bounds w w' /\ same_process w w' /\
  match r with
  | Ret (mem', args) =>
      w_stderr w' = w_stderr w /\
      argv_wf mem' args (tokens_of s) /\
      capacity args = 64 * (Z.of_nat (length (tokens_of s)) / 64 + 1) /\
      length mem' = length line
  | Stop (Exit status) => fatal w w' status
  | Stop _ => False
  end.
Proof.
  intros Hline Hrun.
  apply cstr_at_inv in Hline as (pre & tail & -> & Hpre & Hnul).
  destruct pre; [|discriminate]. clear Hpre. cbn [app] in *.
  unfold lsh_split_line in Hrun. unfold bind at 1 in Hrun.
  destruct (malloc _ _ w) as [w1 r1] eqn:Hm.
  apply malloc_inv in Hm as [-> Hm].
  destruct Hm as [[-> Hno]|[Hyes ->]].
  - unfold bind, print_err, exit, halt in Hrun. injection Hrun as <- <-.
    split; [apply stores_in_bounds_same; reflexivity|].
    split; [unfold same_process; world_simpl; tauto|].
    split; [reflexivity|]. split; [reflexivity|].
    eexists w, _. split; [reflexivity | exact Hno].
  - set (w1 := set_nalloc _ w) in Hrun.
    unfold bind at 1 in Hrun.
    destruct (strtok_spec [] s tail (At 0) w1 Hnul eq_refl) as
      (mem' & token' & pre' & rest' & w2 & Hstk & Hw2 & Hp2 & Herr2 & _ & Hsave2
         & -> & Hnul' & _ & Hmem' & Htok').
    cbn [app] in Hstk. rewrite Hstk in Hrun.
    eapply (split_line_loop_spec _ _ _ _ _ _ _ _ _ _ _ [] []
              (match token' with NULL => [] | At _ => tokens_of s end)) in Hrun.
    + destruct Hrun as (Hs & Hp & Hr).
      split; [eapply stores_in_bounds_trans; [|exact Hs];
              eapply stores_in_bounds_trans; [|exact Hw2];
              apply stores_in_bounds_same; reflexivity|].
      split; [eapply same_process_trans; [|exact Hp];
              eapply same_process_trans; [|exact Hp2];
              unfold same_process, w1; world_simpl; tauto|].
      assert (Htodo : match token' with NULL => [] | At _ => tokens_of s end
                      = tokens_of s).
      { destruct token'; [|reflexivity]. destruct Htok' as [-> _]. reflexivity. }
      cbn [app] in Hr. rewrite Htodo in Hr.
      destruct r as [[mem'' args]|[status| | | |]]; try exact Hr.
      * destruct Hr as (Hr1 & Hr2 & Hr3 & Hr4).
        split; [rewrite Hr1, Herr2; reflexivity|].
        split; [exact Hr2|]. split; [exact Hr3|].
        rewrite Hr4. destruct Hmem' as [E|(e & _ & E)]; cbn [app] in E; rewrite E;
          [reflexivity|]. apply length_insert.
      * eapply fatal_weaken; [| |exact Hr].
        -- destruct Hp2 as (E2 & _). rewrite E2. reflexivity.
        -- rewrite Herr2. reflexivity.
    + exact Hnul'.
    + exact Hsave2.
    + destruct token' as [|q']; [reflexivity|].
      destruct Htok' as (t' & E & Hc' & Hb' & _). rewrite E.
      exists t'. repeat split; assumption.
    + constructor.
    + reflexivity.
    + reflexivity.
    + unfold capacity. rewrite length_replicate. reflexivity.
    + reflexivity.
    + reflexivity.
    + destruct token' as [|q']; simpl; [lia|].
      rewrite !length_app, length_map. simpl. lia.
Qed.

(* ===================================================================== *)
(** * The reader and the tokenizer with memory enough *)
(* ===================================================================== *)

Lemma plenty_env bound w w' :
  w_env w' = w_env w -> plenty bound w -> plenty bound w'.
Proof. unfold plenty. intros -> H. exact H. Qed.

Lemma plenty_served bound n w :
  plenty bound w -> 0 <= n <= bound -> bound < 2 ^ 31 -> served n w = true.
Proof.
  intros Hp Hn Hb. unfold served. rewrite (Hp _ n Hn), andb_true_r.
  apply Z.leb_le. unfold PTRDIFF_MAX. lia.
Qed.

Lemma scan_inv stop_at mem s w w' (r : result Z) :
  scan stop_at mem s w = (w', r) ->
  w' = w /\ (r = Stop Fault \/ exists n, r = Ret n).
Proof.
  unfold scan. destruct (0 <=? s); [|intros [= <- <-]; split; [reflexivity|now left]].
  destruct (span stop_at (drop (Z.to_nat s) mem));
    intros [= <- <-]; (split; [reflexivity|]); [right; eexists; reflexivity|now left].
Qed.

Lemma load_inv {A} (a : array A) i w w' (r : result A) :
  load a i w = (w', r) ->
  w' = w /\ (r = Stop Fault \/ exists v, r = Ret v).
Proof.
  unfold load. destruct (0 <=? i); [|intros [= <- <-]; split; [reflexivity|now left]].
  destruct (a !! Z.to_nat i) as [[v|]|];
    intros [= <- <-]; (split; [reflexivity|]);
    [right; eexists; reflexivity|now left|now left].
Qed.

Lemma store_frame {A} (a : array A) i v w w' (r : result (array A)) :
  store a i v w = (w', r) ->
  w_env w' = w_env w /\ w_stdin w' = w_stdin w /\
  (r = Stop Fault \/ exists a', r = Ret a' /\ length a' = length a).
Proof.
  unfold store. destruct ((0 <=? i) && (i <? capacity a)); intros [= <- <-];
    (split; [reflexivity|]; split; [reflexivity|]); [right|now left].
  eexists. split; [reflexivity | apply length_insert].
Qed.

Lemma cut_refl line : cut_at_delimiters line line.
Proof. apply Forall2_same_length_lookup_2; [reflexivity|]. intros i a b Ha Hb. left. congruence. Qed.

Lemma cut_trans l1 l2 l3 :
  cut_at_delimiters l1 l2 -> cut_at_delimiters l2 l3 -> cut_at_delimiters l1 l3.
Proof.
  unfold cut_at_delimiters. intros H12. revert l3.
  induction H12 as [|a b l1 l2 Hab _ IH]; intros l3 H23; inversion H23; subst;
    constructor; [|now apply IH].
  match goal with H : _ \/ _ |- _ => destruct H as [->|(-> & c & -> & Hc)] end;
    [exact Hab|].
  destruct Hab as [<-|(_ & c' & -> & Hc')]; right; (split; [reflexivity|]);
    eexists; split; reflexivity || eassumption.
Qed.

Lemma cut_insert (mem : array ascii) e c :
  mem !! e = Some (Some c) -> is_delim c = true ->
  cut_at_delimiters mem (<[e := Some NUL]> mem).
Proof.
  intros He Hc. apply Forall2_same_length_lookup_2; [now rewrite length_insert|].
  intros i a b Ha Hb. destruct (decide (i = e)) as [->|Hne].
  - rewrite list_lookup_insert_eq in Hb by (eapply lookup_lt_Some, He).
    injection Hb as <-. right. split; [reflexivity|]. exists c. split; congruence.
  - rewrite list_lookup_insert_ne in Hb by congruence. left. congruence.
Qed.

Lemma span_stops stop_at (cells : array ascii) n :
  span stop_at cells = Some n ->
  0 <= n /\ exists c, cells !! Z.to_nat n = Some (Some c) /\ stop_at c = true.
Proof.
  revert n. induction cells as [|[c|] cells IH]; intros n; cbn [span];
    try discriminate.
  destruct (stop_at c) eqn:Hc.
  - intros [= <-]. split; [lia|]. exists c. split; [reflexivity | exact Hc].
  - destruct (span stop_at cells) as [m|]; [|discriminate].
    intros [= <-]. destruct (IH m eq_refl) as (Hm & c' & Hl & Hs).
    split; [lia|]. exists c'. split; [|exact Hs].
    rewrite Z2Nat.inj_succ by lia. exact Hl.
Qed.

Lemma scan_ret stop_at mem s w w' n :
  scan stop_at mem s w = (w', Ret n) ->
  0 <= s /\ 0 <= n /\
  exists c, mem !! Z.to_nat (s + n) = Some (Some c) /\ stop_at c = true.
Proof.
  unfold scan. destruct (Z.leb_spec 0 s) as [Hs|]; [|discriminate].
  destruct (span stop_at (drop (Z.to_nat s) mem)) as [m|] eqn:E; [|discriminate].
  intros [= _ <-]. apply span_stops in E as (Hm & c & Hl & Hc).
  split; [exact Hs|]. split; [exact Hm|]. exists c. split; [|exact Hc].
  rewrite lookup_drop in Hl. rewrite Z2Nat.inj_add by lia. exact Hl.
Qed.

Lemma load_ret {A} (a : array A) i w w' v :
  load a i w = (w', Ret v) -> a !! Z.to_nat i = Some (Some v).
Proof.
  unfold load. destruct (0 <=? i); [|discriminate].
  destruct (a !! Z.to_nat i) as [[x|]|]; intros [= _ <-] || discriminate.
  reflexivity.
Qed.

(** [strtok] stores into the line only, a terminator over a delimiter: it
    reads no input, asks for no memory and never ends the process. *)
Lemma strtok_frame mem s w w' r :
  strtok mem s LSH_TOK_DELIM w = (w', r) ->
  w_env w' = w_env w /\ w_stdin w' = w_stdin w /\
  (r = Stop Fault \/
   exists mem' token, r = Ret (mem', token) /\ cut_at_delimiters mem mem').
Proof.
  unfold strtok. set (s0 := match s with NULL => w_strtok w | At off => off end).
  unfold bind at 1. unfold strspn.
  destruct (scan _ mem s0 w) as [w1 [n|st]] eqn:E1;
    apply scan_inv in E1 as [-> [[=]|(? & [= <-])]]; subst.
  2:{ intros [= <- <-]. repeat split. now left. }
  unfold bind at 1.
  destruct (load mem (s0 + n) w) as [w1 [c|st]] eqn:E2;
    apply load_inv in E2 as [-> [[=]|(? & [= <-])]]; subst.
  2:{ intros [= <- <-]. repeat split. now left. }
  destruct (Ascii.eqb _ NUL).
  { unfold bind, save, ret. intros [= <- <-]. repeat split.
    right. eexists _, _. split; [reflexivity | apply cut_refl]. }
  unfold bind at 1. unfold strcspn.
  destruct (scan _ mem (s0 + n) w) as [w1 [m|st]] eqn:E3;
    pose proof E3 as E3';
    apply scan_inv in E3 as [-> [[=]|(? & [= <-])]]; subst.
  2:{ intros [= <- <-]. repeat split. now left. }
  apply scan_ret in E3' as (_ & _ & c3 & Hc3 & Hstop).
  unfold bind at 1.
  destruct (load mem (s0 + n + m) w) as [w1 [c2|st]] eqn:E4;
    pose proof E4 as E4';
    apply load_inv in E4 as [-> [[=]|(? & [= <-])]]; subst.
  2:{ intros [= <- <-]. repeat split. now left. }
  apply load_ret in E4'. rewrite Hc3 in E4'. injection E4' as ->.
  destruct (Ascii.eqb c2 NUL) eqn:Hnul.
  { unfold bind, save, ret. intros [= <- <-]. repeat split.
    right. eexists _, _. split; [reflexivity | apply cut_refl]. }
  cbn [orb] in Hstop.
  unfold bind at 1. unfold store.
  destruct ((0 <=? s0 + n + m) && (s0 + n + m <? capacity mem)).
  2:{ intros [= <- <-]. repeat split. now left. }
  unfold bind, save, ret. intros [= <- <-]. repeat split.
  right. eexists _, _. split; [reflexivity|].
  eapply cut_insert; [exact Hc3 | exact Hstop].
Qed.

Lemma div_succ_full m p :
  0 < m -> 0 <= p -> p + 1 = m * (p / m + 1) -> (p + 1) / m = p / m + 1.
Proof. intros Hm Hp H. symmetry. apply Z.div_unique with (r := 0); lia. Qed.

Lemma div_succ_room m p :
  0 < m -> 0 <= p -> p + 1 < m * (p / m + 1) -> (p + 1) / m = p / m.
Proof.
  intros Hm Hp H. symmetry.
  pose proof (Z.div_mod p m ltac:(lia)).
  pose proof (Z.mod_pos_bound p m ltac:(lia)).
  apply Z.div_unique with (r := p mod m + 1); lia.
Qed.

Lemma below_block m p : 0 < m -> 0 <= p -> p < m * (p / m + 1).
Proof.
  intros Hm Hp.
  pose proof (Z.div_mod p m ltac:(lia)).
  pose proof (Z.mod_pos_bound p m ltac:(lia)). lia.
Qed.

(** The block that grows the token array: it asks for memory only when the
    array is full. *)
Lemma grow_tokens_frame bound bufsize position (tokens : array ptr) w w' r :
  grow_tokens bufsize position tokens w = (w', r) ->
  w_env w' = w_env w /\ w_stdin w' = w_stdin w /\ w_strtok w' = w_strtok w /\
  (plenty bound w -> 0 <= bufsize -> bound < 2 ^ 31 ->
   (bufsize <= position -> 8 * (bufsize + 64) <= bound) ->
   exists tokens',
     r = Ret (if position >=? bufsize then bufsize + 64 else bufsize, tokens')).
Proof.
  unfold grow_tokens. destruct (position >=? bufsize) eqn:Hfull.
  2:{ intros [= <- <-]. repeat split. intros _ _ _ _. eexists. reflexivity. }
  apply Z.geb_le in Hfull.
  unfold bind at 1.
  destruct (realloc _ tokens _ w) as [w1 r1] eqn:Hre.
  apply realloc_inv in Hre as [-> Hre].
  destruct Hre as [[-> Hno]|[Hyes ->]].
  - unfold bind, free, ret, print_err, exit, halt. intros [= <- <-].
    repeat split. intros Hp H0 Hmax Hb. exfalso. specialize (Hb Hfull).
    unfold LSH_TOK_BUFSIZE in Hno.
    rewrite (wrap32_small (bufsize + 64)) in Hno by lia.
    rewrite size_of_tokens in Hno by lia.
    rewrite (plenty_served bound) in Hno; [discriminate|exact Hp|lia|exact Hmax].
  - unfold ret. intros [= <- <-]. repeat split.
    intros Hp H0 Hmax Hb. specialize (Hb Hfull). eexists.
    unfold LSH_TOK_BUFSIZE. rewrite (wrap32_small (bufsize + 64)) by lia. reflexivity.
Qed.

(** The tokenizer's loop reads no input, leaves the system as it is and
    writes into the line nothing but terminators over delimiters. *)
Lemma split_line_loop_frame fuel :
  forall line bufsize position tokens token w w' r,
    split_line_loop fuel line bufsize position tokens token w = (w', r) ->
    w_env w' = w_env w /\ w_stdin w' = w_stdin w /\
    forall mem args, r = Ret (mem, args) -> cut_at_delimiters line mem.
Proof.
  induction fuel as [|fuel IH]; intros line bufsize position tokens token w w' r Hrun.
  { injection Hrun as <- <-. repeat split. discriminate. }
  cbn [split_line_loop] in Hrun. destruct token as [|q].
  - unfold bind, ret in Hrun.
    destruct (store tokens position NULL w) as [w1 r1] eqn:E.
    apply store_frame in E as (He & Hi & [->|(a & -> & _)]); injection Hrun as <- <-;
      (split; [assumption|]; split; [assumption|]); try discriminate.
    intros mem args [= <- _]. apply cut_refl.
  - unfold bind at 1 in Hrun.
    destruct (store tokens position (At q) w) as [w1 r1] eqn:E.
    apply store_frame in E as (He1 & Hi1 & [->|(a & -> & _)]).
    { injection Hrun as <- <-. repeat split; try assumption. discriminate. }
    unfold bind at 1 in Hrun.
    destruct (grow_tokens bufsize (wrap32 (position + 1)) a w1) as [w2 r2] eqn:G.
    apply (grow_tokens_frame 0) in G as (He2 & Hi2 & _).
    destruct r2 as [[bufsize' tokens']|st].
    2:{ injection Hrun as <- <-. repeat split; congruence. }
    unfold bind at 1 in Hrun.
    destruct (strtok line NULL LSH_TOK_DELIM w2) as [w3 r3] eqn:T.
    apply strtok_frame in T as (He3 & Hi3 & [->|(mem' & token' & -> & Hcut)]).
    { injection Hrun as <- <-. repeat split; congruence. }
    apply IH in Hrun as (He4 & Hi4 & Hcut4). repeat split; try congruence.
    intros mem args Hr. eapply cut_trans; [exact Hcut | eapply Hcut4, Hr].
Qed.

Lemma lsh_split_line_frame line w w' r :
  lsh_split_line line w = (w', r) ->
  w_env w' = w_env w /\ w_stdin w' = w_stdin w /\
  forall mem args, r = Ret (mem, args) -> cut_at_delimiters line mem.
Proof.
  intros Hrun. unfold lsh_split_line in Hrun. unfold bind at 1 in Hrun.
  destruct (malloc _ _ w) as [w1 r1] eqn:Hm.
  apply malloc_inv in Hm as [-> Hm].
  destruct Hm as [[-> Hno]|[Hyes ->]].
  - unfold bind, print_err, exit, halt in Hrun. injection Hrun as <- <-.
    repeat split. discriminate.
  - unfold bind at 1 in Hrun.
    match type of Hrun with
    | context [strtok line (At 0) LSH_TOK_DELIM ?w1] =>
        destruct (strtok line (At 0) LSH_TOK_DELIM w1) as [w2 r2] eqn:T
    end.
    apply strtok_frame in T as (He2 & Hi2 & [->|(mem' & token' & -> & Hcut)]).
    { injection Hrun as <- <-. repeat split; try assumption. discriminate. }
    apply split_line_loop_frame in Hrun as (He3 & Hi3 & Hcut3).
    world_simpl. repeat split; try congruence.
    intros mem args Hr. eapply cut_trans; [exact Hcut | eapply Hcut3, Hr].
Qed.

(** The tokenizer's loop asks for no more memory than the vector it ends
    with takes. *)
Lemma split_line_loop_no_exit bound fuel :
  forall (pre : array ascii) rest tail bufsize position tokens token w w' r todo,
    split_line_loop fuel (pre ++ map Some rest ++ Some NUL :: tail)
      bufsize position tokens token w = (w', r) ->
    ~ In NUL rest ->
    w_strtok w = Z.of_nat (length pre) ->
    token_state (pre ++ map Some rest ++ Some NUL :: tail) pre rest token todo ->
    0 <= position ->
    bufsize = 64 * (position / 64 + 1) ->
    plenty bound w ->
    512 * ((position + Z.of_nat (length todo)) / 64 + 1) <= bound ->
    bound < 2 ^ 31 ->
    forall status, r <> Stop (Exit status).
Proof.
  induction fuel as [|fuel IH];
    intros pre rest tail bufsize position tokens token w w' r todo
           Hrun Hnul Hsave Htok Hpos Hbuf Hp Hb Hmax.
  { injection Hrun as <- <-. discriminate. }
  pose proof (below_block 64 position ltac:(lia) Hpos) as Hlt.
  cbn [split_line_loop] in Hrun. destruct token as [|q].
  - unfold bind, ret in Hrun.
    destruct (store tokens position NULL w) as [w1 r1] eqn:E.
    apply store_frame in E as (_ & _ & [->|(a & -> & _)]); injection Hrun as <- <-;
      discriminate.
  - destruct Htok as (t & -> & Hq & Hqb). cbn [length] in Hb.
    rewrite Nat2Z.inj_succ in Hb.
    assert (Hdiv0 : position / 64
                    <= (position + Z.succ (Z.of_nat (length (tokens_of rest)))) / 64)
      by (apply Z.div_le_mono; lia).
    unfold bind at 1 in Hrun.
    destruct (store tokens position (At q) w) as [w1 r1] eqn:E.
    pose proof E as E'. apply store_frame in E as (He1 & Hi1 & [->|(a & -> & _)]).
    { injection Hrun as <- <-. discriminate. }
    assert (Hs1 : w_strtok w1 = w_strtok w).
    { unfold store in E'. destruct ((0 <=? position) && (position <? capacity tokens));
        injection E' as <- _; reflexivity. }
    rewrite (wrap32_small (position + 1)) in Hrun by lia.
    unfold bind at 1 in Hrun.
    destruct (grow_tokens bufsize (position + 1) a w1) as [w2 r2] eqn:G.
    apply (grow_tokens_frame bound) in G as (He2 & Hi2 & Hs2 & Hg).
    assert (Hdiv : (position + 1) / 64 <= (position + Z.succ (Z.of_nat (length (tokens_of rest)))) / 64).
    { apply Z.div_le_mono; lia. }
    destruct Hg as (tokens' & ->);
      [eapply plenty_env; eassumption|lia|exact Hmax| |].
    { intros Hfull.
      assert (Hpb : position + 1 = 64 * (position / 64 + 1)) by lia.
      rewrite <- (div_succ_full 64 position) in Hbuf by lia. lia. }
    unfold bind at 1 in Hrun.
    destruct (strtok_spec pre rest tail NULL w2 Hnul) as
      (mem' & token' & pre' & rest' & w3 & Hstk & _ & Hp3 & _ & _ & Hsave3
         & -> & Hnul' & Hpre' & Hmem' & Htok').
    { simpl. rewrite Hs2, Hs1. exact Hsave. }
    rewrite Hstk in Hrun.
    eapply (IH _ _ _ _ _ _ _ _ _ _
              (match token' with NULL => [] | At _ => tokens_of rest end) Hrun).
    + exact Hnul'.
    + exact Hsave3.
    + destruct token' as [|q']; [reflexivity|].
      destruct Htok' as (t' & E & Hc' & Hb' & _). rewrite E.
      exists t'. repeat split; assumption.
    + lia.
    + destruct (Z.geb_spec (position + 1) bufsize) as [Hfull|Hroom].
      * rewrite (div_succ_full 64 position) by lia. lia.
      * rewrite (div_succ_room 64 position) by lia. exact Hbuf.
    + eapply plenty_env; [|exact Hp]. destruct Hp3 as (E3 & _). congruence.
    + destruct token' as [|q'].
      * cbn [length]. 
        assert ((position + 1 + Z.of_nat 0) / 64 <= (position + Z.succ (Z.of_nat (length (tokens_of rest)))) / 64)
          by (apply Z.div_le_mono; lia). lia.
      * replace (position + 1 + Z.of_nat (length (tokens_of rest)))
          with (position + Z.succ (Z.of_nat (length (tokens_of rest)))) by lia.
        exact Hb.
    + exact Hmax.
Qed.

(** With memory for the vector it ends with, the tokenizer returns. *)
Lemma lsh_split_line_returns bound line s w :
  cstr_at line 0 = Some s ->
  plenty bound w ->
  512 * (Z.of_nat (length (tokens_of s)) / 64 + 1) <= bound ->
  bound < 2 ^ 31 ->
  exists w' mem' args, lsh_split_line line w = (w', Ret (mem', args)).
Proof.
  intros Hline Hp Hb Hmax.
  destruct (lsh_split_line line w) as [w' r] eqn:Hrun.
  pose proof (lsh_split_line_spec line s w w' r Hline Hrun) as (_ & _ & Hr).
  destruct r as [[mem' args]|[status| | | |]]; try contradiction.
  { eexists _, _, _. reflexivity. }
  exfalso. clear Hr.
  apply cstr_at_inv in Hline as (pre & tail & -> & Hpre & Hnul).
  destruct pre; [|discriminate]. clear Hpre. cbn [app] in *.
  assert (Hlen : 0 <= Z.of_nat (length (tokens_of s)) / 64)
    by (apply Z.div_pos; lia).
  unfold lsh_split_line in Hrun. unfold bind at 1 in Hrun.
  destruct (malloc _ _ w) as [w1 r1] eqn:Hm.
  apply malloc_inv in Hm as [-> Hm].
  destruct Hm as [[-> Hno]|[Hyes ->]].
  - unfold LSH_TOK_BUFSIZE in Hno. rewrite size_of_tokens in Hno by lia.
    rewrite (plenty_served bound) in Hno; [discriminate|exact Hp|lia|exact Hmax].
  - set (w1 := set_nalloc _ w) in Hrun.
    unfold bind at 1 in Hrun.
    destruct (strtok_spec [] s tail (At 0) w1 Hnul eq_refl) as
      (mem' & token' & pre' & rest' & w2 & Hstk & _ & Hp2 & _ & _ & Hsave2
         & -> & Hnul' & _ & _ & Htok').
    cbn [app] in Hstk. rewrite Hstk in Hrun.
    eapply (split_line_loop_no_exit bound _ _ _ _ _ _ _ _ _ _ _
              (match token' with NULL => [] | At _ => tokens_of s end) Hrun);
      try eassumption.
    + destruct token' as [|q']; [reflexivity|].
      destruct Htok' as (t' & E & Hc' & Hb' & _). rewrite E.
      exists t'. repeat split; assumption.
    + lia.
    + reflexivity.
    + eapply plenty_env; [|exact Hp]. destruct Hp2 as (E2 & _). rewrite E2. reflexivity.
    + destruct token'; [|exact Hb]. cbn [length]. change (0 + Z.of_nat 0) with 0.
      change (0 / 64) with 0. lia.
    + reflexivity.
Qed.

(** The reader's loop asks for no more memory than the buffer it ends with
    takes. *)
Lemma read_line_loop_no_exit bound fuel :
  forall bufsize position buffer w w' r,
    read_line_loop fuel bufsize position buffer w = (w', r) ->
    0 <= position ->
    bufsize = 1024 * (position / 1024 + 1) ->
    plenty bound w ->
    1024 * ((position + Z.of_nat (length (fst (first_line (w_stdin w))))) / 1024 + 1)
      <= bound ->
    bound < 2 ^ 31 ->
    forall status, r <> Stop (Exit status).
Proof.
  induction fuel as [|fuel IH];
    intros bufsize position buffer w w' r Hrun Hpos Hbuf Hp Hb Hmax status.
  { injection Hrun as <- <-. discriminate. }
  pose proof (below_block 1024 position ltac:(lia) Hpos) as Hlt.
  cbn [read_line_loop] in Hrun. unfold bind at 1 in Hrun. unfold getchar at 1 in Hrun.
  destruct (w_stdin w) as [|c rest] eqn:Hin.
  - rewrite Z.eqb_refl in Hrun. cbn [orb] in Hrun. unfold bind, ret in Hrun.
    destruct (store buffer position NUL w) as [w1 r1] eqn:E.
    apply store_frame in E as (_ & _ & [->|(a & -> & _)]); injection Hrun as <- <-;
      discriminate.
  - rewrite int_of_char_not_EOF, int_of_char_eqb in Hrun. cbn [orb] in Hrun.
    cbn [first_line] in Hb.
    destruct (Ascii.eqb c "010") eqn:Hc.
    + unfold bind, ret in Hrun.
      destruct (store buffer position NUL _) as [w1 r1] eqn:E.
      apply store_frame in E as (_ & _ & [->|(a & -> & _)]); injection Hrun as <- <-;
        discriminate.
    + destruct (first_line rest) as [l rst] eqn:Hfl. cbn [fst length] in Hb.
      rewrite Nat2Z.inj_succ in Hb.
      assert (Hdiv : (position + 1) / 1024 <= (position + Z.succ (Z.of_nat (length l))) / 1024)
        by (apply Z.div_le_mono; lia).
      assert (Hdiv0 : position / 1024 <= (position + 1) / 1024)
        by (apply Z.div_le_mono; lia).
      unfold bind at 1 in Hrun.
      destruct (store buffer position _ _) as [w1 r1] eqn:E.
      apply store_frame in E as (He1 & Hi1 & [->|(a & -> & _)]).
      { injection Hrun as <- <-. discriminate. }
      world_simpl.
      rewrite (wrap32_small (position + 1)) in Hrun by lia.
      assert (Hp1 : plenty bound w1) by (eapply plenty_env; eassumption).
      destruct (Z.geb_spec (position + 1) bufsize) as [Hfull|Hroom].
      * assert (Hdf := div_succ_full 1024 position ltac:(lia) Hpos ltac:(lia)).
        unfold LSH_RL_BUFSIZE in Hrun.
        rewrite (wrap32_small (bufsize + 1024)) in Hrun by lia.
        unfold bind at 1 in Hrun.
        destruct (realloc 1 a _ w1) as [w2 r2] eqn:Hre.
        apply realloc_inv in Hre as [-> Hre].
        unfold size_of_int, SIZE_MOD in Hre. rewrite Z.mod_small in Hre by lia.
        destruct Hre as [[-> Hno]|[Hyes ->]].
        { rewrite (plenty_served bound) in Hno;
            [discriminate|exact Hp1|lia|exact Hmax]. }
        eapply (IH _ _ _ _ _ _ Hrun); world_simpl.
        -- lia.
        -- lia.
        -- eapply plenty_env; [|exact Hp1]. reflexivity.
        -- rewrite Hi1, Hfl. cbn [fst].
           replace (position + 1 + Z.of_nat (length l))
             with (position + Z.succ (Z.of_nat (length l))) by lia. exact Hb.
        -- exact Hmax.
      * assert (Hdf := div_succ_room 1024 position ltac:(lia) Hpos ltac:(lia)).
        eapply (IH _ _ _ _ _ _ Hrun).
        -- lia.
        -- lia.
        -- exact Hp1.
        -- rewrite Hi1. world_simpl. rewrite Hfl. cbn [fst].
           replace (position + 1 + Z.of_nat (length l))
             with (position + Z.succ (Z.of_nat (length l))) by lia. exact Hb.
        -- exact Hmax.
Qed.

(** With memory for the buffer it ends with, the reader returns. *)
Lemma lsh_read_line_returns bound w :
  plenty bound w ->
  1024 * (Z.of_nat (length (fst (first_line (w_stdin w)))) / 1024 + 1) <= bound ->
  bound < 2 ^ 31 ->
  exists w' buf, lsh_read_line w = (w', Ret buf).
Proof.
  intros Hp Hb Hmax.
  destruct (lsh_read_line w) as [w' r] eqn:Hrun.
  pose proof (lsh_read_line_spec w w' r Hrun) as (_ & _ & Hr).
  destruct r as [buf|[status| | | |]]; try contradiction.
  { eexists _, _. reflexivity. }
  exfalso. clear Hr.
  assert (Hlen : 0 <= Z.of_nat (length (fst (first_line (w_stdin w)))) / 1024)
    by (apply Z.div_pos; lia).
  unfold lsh_read_line in Hrun. unfold bind at 1 in Hrun.
  destruct (malloc 1 _ w) as [w1 r1] eqn:Hm.
  apply malloc_inv in Hm as [-> Hm].
  unfold LSH_RL_BUFSIZE, size_of_int, SIZE_MOD in Hm.
  rewrite Z.mod_small in Hm by lia.
  destruct Hm as [[-> Hno]|[Hyes ->]].
  - rewrite (plenty_served bound) in Hno; [discriminate|exact Hp|lia|exact Hmax].
  - eapply (read_line_loop_no_exit bound _ _ _ _ _ _ _ Hrun); world_simpl.
    + lia.
    + reflexivity.
    + eapply plenty_env; [|exact Hp]. reflexivity.
    + exact Hb.
    + exact Hmax.
    + reflexivity.
Qed.

(* ===================================================================== *)
(** * The builtins, the launcher and the dispatcher *)
(* ===================================================================== *)


Lemma strcmp_eq a b :
  ~ In NUL a -> ~ In NUL b -> strcmp a b = 0 <-> a = b.
Proof.
  revert b. induction a as [|x a IH]; intros [|y b] Ha Hb; simpl.
  - tauto.
  - split; [|discriminate]. intros H. exfalso. apply Hb. left.
    apply int_of_char_inj. change (int_of_char NUL) with 0. lia.
  - split; [|discriminate]. intros H. exfalso. apply Ha. left.
    apply int_of_char_inj. change (int_of_char NUL) with 0. lia.
  - rewrite int_of_char_eqb. destruct (Ascii.eqb_spec x y) as [->|Hne].
    + rewrite IH by (intros H; first [apply Ha; now right | apply Hb; now right]).
      split; [now intros -> | now intros [= ->]].
    + split; [|now intros [= -> _]].
      intros H. exfalso. apply Hne, int_of_char_inj. lia.
Qed.

Lemma cstr_at_no_NUL mem q t : cstr_at mem q = Some t -> ~ In NUL t.
Proof. intros H. apply cstr_at_inv in H as (_ & _ & _ & _ & Hn). exact Hn. Qed.

(** A load does not look at the world. *)
Lemma load_frame {A} (a : array A) i w w2 r :
  load a i w = (w, r) -> load a i w2 = (w2, r).
Proof.
  unfold load. destruct (0 <=? i); [|intros [= <-]; reflexivity].
  destruct (a !! Z.to_nat i) as [[v|]|]; intros [= <-]; reflexivity.
Qed.

(** ** The vector the tokenizer returns *)

Lemma argv_wf_cells mem (args : array ptr) toks :
  argv_wf mem args toks ->
  exists ptrs rest,
    args = map (fun q => Some (At q)) ptrs ++ Some NULL :: rest /\
    Forall2 (fun q t => cstr_at mem q = Some t) ptrs toks.
Proof.
  intros (ptrs & HF & Htake). exists ptrs, (drop (S (length toks)) args).
  split; [|exact HF].
  rewrite <- (take_drop (S (length toks)) args) at 1.
  rewrite Htake, <- app_assoc. reflexivity.
Qed.

Lemma argv_wf_strings mem args toks :
  argv_wf mem args toks -> argv_strings mem args = Some toks.
Proof.
  intros H. apply argv_wf_cells in H as (ptrs & rest & -> & HF).
  induction HF as [|q t ptrs toks Hq _ IH]; [reflexivity|].
  cbn [map app argv_strings]. now rewrite Hq, IH.
Qed.

Lemma argv_wf_sentinel mem args toks w :
  argv_wf mem args toks ->
  load args (Z.of_nat (length toks)) w = (w, Ret NULL).
Proof.
  intros H. apply argv_wf_cells in H as (ptrs & rest & -> & HF).
  apply load_at. rewrite length_map. f_equal. symmetry. eapply Forall2_length, HF.
Qed.

Lemma argv_wf_entry mem args toks i t w :
  argv_wf mem args toks -> toks !! i = Some t ->
  exists q, load args (Z.of_nat i) w = (w, Ret (At q)) /\ cstr_at mem q = Some t.
Proof.
  intros H Ht. apply argv_wf_cells in H as (ptrs & rest & -> & HF).
  destruct (Forall2_lookup_r _ _ _ _ _ HF Ht) as (q & Hq & Hc).
  exists q. split; [|exact Hc].
  unfold load. destruct (Z.leb_spec 0 (Z.of_nat i)); [|lia].
  rewrite Nat2Z.id, lookup_app_l by (rewrite length_map; eapply lookup_lt_Some, Hq).
  rewrite list_lookup_fmap, Hq. reflexivity.
Qed.

(** ** The dispatcher *)

Lemma execute_no_command count names handlers launch mem args w :
  load args 0 w = (w, Ret NULL) ->
  execute count names handlers launch mem args w = (w, Ret 1).
Proof. intros H. unfold execute, bind. rewrite H. reflexivity. Qed.

Lemma execute_command h_cd h_help h_exit launch mem args q t w :
  load args 0 w = (w, Ret (At q)) -> cstr_at mem q = Some t ->
  execute lsh_num_builtins builtin_str [h_cd; h_help; h_exit] launch mem args w
  = if strcmp t (lit "cd") =? 0 then h_cd mem args w
    else if strcmp t (lit "help") =? 0 then h_help mem args w
    else if strcmp t (lit "exit") =? 0 then h_exit mem args w
    else launch mem args w.
Proof.
  intros Hload Hstr. unfold execute. unfold bind at 1. rewrite Hload.
  change (Z.to_nat lsh_num_builtins) with 3%nat.
  cbn [execute_from]. unfold bind at 1. rewrite Hload.
  cbn [lookup list_lookup builtin_str].
  unfold bind at 1. unfold string_at at 1. rewrite Hstr.
  destruct (strcmp t (lit "cd") =? 0); [reflexivity|].
  unfold bind at 1. rewrite Hload. 
  unfold bind at 1. unfold string_at at 1. rewrite Hstr.
  destruct (strcmp t (lit "help") =? 0); [reflexivity|].
  unfold bind at 1. rewrite Hload.
  unfold bind at 1. unfold string_at at 1. rewrite Hstr.
  destruct (strcmp t (lit "exit") =? 0); reflexivity.
Qed.

(** ** [cd] *)

Lemma lsh_cd_no_argument mem args w :
  load args 1 w = (w, Ret NULL) ->
  lsh_cd mem args w = (set_stderr (w_stderr w ++ [cd_usage]) w, Ret 1).
Proof.
  intros H. unfold lsh_cd. unfold bind at 1. unfold bind at 1. rewrite H.
  reflexivity.
Qed.

Lemma lsh_cd_refused mem args w p path e :
  load args 1 w = (w, Ret (At p)) -> cstr_at mem p = Some path ->
  env_chdir (w_env w) (w_cwd w) path = inr e ->
  lsh_cd mem args w
  = (set_stderr (w_stderr w ++ [lit "lsh: " ++ env_strerror (w_env w) e ++ nl])
       (set_errno e (set_calls (w_calls w ++ [SysChdir path]) w)),
     Ret 1).
Proof.
  intros H Hp He. unfold lsh_cd. unfold bind at 1. unfold bind at 1. rewrite H.
  unfold bind at 1. unfold string_at. rewrite Hp.
  unfold bind at 1. unfold chdir. cbn [w_env w_cwd set_calls]. rewrite He.
  reflexivity.
Qed.

Lemma lsh_cd_changes mem args w p path dir :
  load args 1 w = (w, Ret (At p)) -> cstr_at mem p = Some path ->
  env_chdir (w_env w) (w_cwd w) path = inl dir ->
  lsh_cd mem args w
  = (set_cwd dir (set_calls (w_calls w ++ [SysChdir path]) w), Ret 1).
Proof.
  intros H Hp He. unfold lsh_cd. unfold bind at 1. unfold bind at 1. rewrite H.
  unfold bind at 1. unfold string_at. rewrite Hp.
  unfold bind at 1. unfold chdir. cbn [w_env w_cwd set_calls]. rewrite He.
  reflexivity.
Qed.

(** ** The wait status *)

Lemma land_lor_same a m : Z.land (Z.lor a m) m = m.
Proof.
  apply Z.bits_inj'. intros n _. rewrite Z.land_spec, Z.lor_spec.
  destruct (Z.testbit m n), (Z.testbit a n); reflexivity.
Qed.

Lemma stopped_goes_on sig : ends_wait (wstatus (ChildStopped sig)) = false.
Proof.
  unfold ends_wait, WIFEXITED, WIFSIGNALED, WTERMSIG, wstatus.
  rewrite land_lor_same. reflexivity.
Qed.

Lemma stopped_is_stopped sig : WIFSTOPPED (wstatus (ChildStopped sig)) = true.
Proof.
  unfold WIFSTOPPED, wstatus.
  replace (Z.land (Z.lor (Z.shiftl (Z.land sig 255) 8) 127) 255) with 127;
    [reflexivity|].
  symmetry. change 255 with (Z.ones 8) at 2. rewrite Z.land_ones by lia.
  apply Z.bits_inj'. intros n Hn.
  destruct (Z.ltb_spec n 8) as [Hlt|Hge].
  - rewrite Z.mod_pow2_bits_low by lia. rewrite Z.lor_spec.
    rewrite Z.shiftl_spec_low by lia. reflexivity.
  - rewrite Z.mod_pow2_bits_high by lia.
    change 127 with (Z.ones 7). symmetry. apply Z.ones_spec_high. lia.
Qed.

Lemma exited_ends code : ends_wait (wstatus (ChildExited code)) = true.
Proof.
  unfold ends_wait, WIFEXITED, WTERMSIG, wstatus.
  change 127 with (Z.ones 7). rewrite Z.land_ones by lia.
  rewrite Z.shiftl_mul_pow2 by lia.
  replace (Z.land code 255 * 2 ^ 8) with (Z.land code 255 * 2 * 2 ^ 7) by lia.
  rewrite Z_mod_mult. reflexivity.
Qed.

Lemma signaled_ends sig core :
  1 <= sig <= 64 -> ends_wait (wstatus (ChildSignaled sig core)) = true.
Proof.
  intros H.
  assert (Hall : forallb (fun s => ends_wait (wstatus (ChildSignaled (Z.of_nat s) true))
                              && ends_wait (wstatus (ChildSignaled (Z.of_nat s) false)))
                   (seq 1 64) = true) by (vm_compute; reflexivity).
  rewrite forallb_forall in Hall.
  specialize (Hall (Z.to_nat sig)). rewrite Z2Nat.id in Hall by lia.
  apply andb_true_iff in Hall; [|apply in_seq; lia].
  destruct core; tauto.
Qed.

Lemma valid_event_ends ev :
  valid_event ev -> ends_wait (wstatus ev) = negb (is_stop ev).
Proof.
  destruct ev as [code|sig core|sig]; simpl; intros H.
  - apply exited_ends.
  - now apply signaled_ends.
  - apply stopped_goes_on.
Qed.

(** ** The launcher *)

Lemma find_child_front pid evs others :
  find_child pid ((pid, evs) :: others) = Some (evs, others).
Proof. simpl. now rewrite Z.eqb_refl. Qed.

Lemma wait_loop_spec evs :
  forall fuel pid status w others,
    find_child pid (w_children w) = Some (evs, others) ->
    Forall valid_event evs ->
    (length evs < fuel)%nat ->
    exists w',
      wait_loop fuel pid status w
        = (w', if ends evs then Ret tt else Stop Blocked) /\
      quiet w w' /\
      w_calls w' = w_calls w
                     ++ replicate (S (leading_stops evs)) (SysWaitpid pid WUNTRACED).
Proof.
  induction evs as [|ev evs IH]; intros fuel pid status w others Hfind Hvalid Hfuel;
    (destruct fuel as [|fuel]; [simpl in Hfuel; lia|]);
    cbn [wait_loop]; unfold bind at 1; unfold waitpid;
    cbn [w_children set_calls]; rewrite Hfind;
    change (Z.land WUNTRACED WUNTRACED =? 0) with false; cbv iota.
  - eexists. split; [reflexivity|]. split; [unfold quiet; world_simpl; tauto|].
    reflexivity.
  - cbn [snd]. fold (ends_wait (wstatus ev)).
    assert (Hgo : negb (WIFEXITED (wstatus ev)) && negb (WIFSIGNALED (wstatus ev))
                  = is_stop ev).
    { rewrite <- negb_orb. fold (ends_wait (wstatus ev)).
      rewrite valid_event_ends by (now inversion Hvalid). apply negb_involutive. }
    rewrite Hgo. destruct (is_stop ev) eqn:Hstop.
    + destruct ev as [| |sig]; try discriminate.
      match goal with
      | |- context [wait_loop fuel pid ?st ?w1] =>
          destruct (IH fuel pid st w1 others) as (w' & Hrun & Hq & Hc)
      end.
      * cbn [w_children set_children]. apply find_child_front.
      * now inversion Hvalid.
      * simpl in Hfuel. lia.
      * exists w'. split; [exact Hrun|]. split.
        -- unfold quiet in *. world_simpl. exact Hq.
        -- rewrite Hc. world_simpl. cbn [leading_stops].
           rewrite <- app_assoc. reflexivity.
    + eexists. split.
      * unfold ret. cbn [ends existsb]. rewrite Hstop. reflexivity.
      * split; [unfold quiet; world_simpl; tauto|].
        world_simpl. destruct ev; try discriminate; reflexivity.
Qed.

(** [fork] fails: the error is reported and the loop goes on. *)
Lemma lsh_launch_no_fork mem args w e :
  w_forks w = [] /\ e = EAGAIN \/ (exists rest, w_forks w = ForkFails e :: rest) ->
  exists w',
    lsh_launch mem args w = (w', Ret 1) /\
    w_stderr w' = w_stderr w ++ [perror_line w e] /\
    w_stdout w' = w_stdout w /\ w_cwd w' = w_cwd w /\
    w_child w' = w_child w /\ w_env w' = w_env w /\
    w_calls w' = w_calls w ++ [SysFork].
Proof.
  intros H. unfold lsh_launch. unfold bind at 1. unfold fork.
  cbn [w_forks set_calls].
  destruct H as [[-> ->]|(rest & ->)];
    (eexists; split; [reflexivity|]; world_simpl; repeat split).
Qed.

(** In the child: the image is replaced, or the failed child exits. *)
Lemma lsh_launch_child mem args t toks w e rest :
  argv_wf mem args (t :: toks) ->
  w_forks w = ForkChild e :: rest ->
  exists w',
    lsh_launch mem args w
      = (w', Stop (match e with None => Replaced | Some _ => Exit EXIT_FAILURE end)) /\
    w_child w' = Some e /\ w_env w' = w_env w /\
    w_calls w' = w_calls w ++ [SysFork; SysExecvp t (t :: toks)] /\
    w_stderr w' = w_stderr w
                    ++ match e with None => [] | Some e => [perror_line w e] end.
Proof.
  intros Hwf Hf. unfold lsh_launch. unfold bind at 1. unfold fork.
  cbn [w_forks set_calls]. rewrite Hf. cbn [Z.eqb].
  unfold bind.
  destruct (argv_wf_entry mem args (t :: toks) 0 t w Hwf eq_refl)
    as (q & Hload & Hq).
  change (Z.of_nat 0) with 0 in Hload. rewrite (load_frame _ _ _ _ _ Hload).
  unfold execvp.
  rewrite (argv_wf_strings _ _ _ Hwf), Hq. cbn [w_child set_child set_calls].
  destruct e as [e|].
  - eexists. split; [reflexivity|]. world_simpl.
    rewrite <- app_assoc. repeat split.
  - eexists. split; [reflexivity|]. world_simpl.
    rewrite <- app_assoc, app_nil_r. repeat split.
Qed.

(** In the parent: the launcher waits through every stop of the child. *)
Lemma lsh_launch_parent mem args w pid evs rest :
  w_forks w = ForkParent pid evs :: rest ->
  Forall valid_event evs ->
  exists w',
    lsh_launch mem args w = (w', if ends evs then Ret 1 else Stop Blocked) /\
    w_stdout w' = w_stdout w /\ w_stderr w' = w_stderr w /\ w_cwd w' = w_cwd w /\
    w_child w' = w_child w /\ w_env w' = w_env w /\
    w_calls w' = w_calls w
                   ++ SysFork :: replicate (S (leading_stops evs))
                                   (SysWaitpid (Z.pos pid) WUNTRACED).
Proof.
  intros Hf Hvalid. unfold lsh_launch. unfold bind at 1. unfold fork.
  cbn [w_forks set_calls]. rewrite Hf. cbn [Z.eqb Z.ltb Z.compare].
  unfold bind.
  match goal with
  | |- context [wait_loop ?f ?p ?st ?w1] =>
      destruct (wait_loop_spec evs f p st w1 (w_children w)) as (w' & Hrun & Hq & Hc)
  end.
  - cbn [w_children set_children]. apply find_child_front.
  - exact Hvalid.
  - unfold pending. cbn [w_children set_children]. rewrite find_child_front. lia.
  - rewrite Hrun. destruct Hq as (Q1 & Q2 & Q3 & Q4 & Q5 & Q6).
    exists w'. split; [destruct (ends evs); reflexivity|].
    world_simpl. rewrite Hc, <- app_assoc. repeat split; assumption.
Qed.

(** Without any assumption on what the kernel reports. *)
Lemma wait_loop_outcome fuel :
  forall pid status w w' r,
    wait_loop fuel pid status w = (w', r) ->
    status <> None \/ find_child pid (w_children w) <> None ->
    (w_child w' = w_child w /\ w_env w' = w_env w) /\
    (r = Ret tt \/ r = Stop Blocked \/ r = Stop OutOfFuel).
Proof.
  induction fuel as [|fuel IH]; intros pid status w w' r Hrun Hst.
  { injection Hrun as <- <-. split; [split; reflexivity | tauto]. }
  cbn [wait_loop] in Hrun. unfold bind at 1 in Hrun. unfold waitpid in Hrun.
  cbn [w_children set_calls] in Hrun.
  destruct (find_child pid (w_children w)) as [[evs others]|].
  - change (Z.land WUNTRACED WUNTRACED =? 0) with false in Hrun. cbv iota in Hrun.
    destruct evs as [|ev evs].
    + injection Hrun as <- <-. split; [split; reflexivity | tauto].
    + cbn [snd] in Hrun.
      destruct (negb (WIFEXITED (wstatus ev)) && negb (WIFSIGNALED (wstatus ev))).
      * apply IH in Hrun; [|left; discriminate].
        destruct Hrun as [[H1 H2] H3]. split; [split|]; assumption.
      * injection Hrun as <- <-. split; [split; reflexivity | tauto].
  - cbn [snd] in Hrun. destruct status as [st|]; [|destruct Hst; congruence].
    destruct (negb (WIFEXITED st) && negb (WIFSIGNALED st)).
    + apply IH in Hrun; [|left; discriminate].
      destruct Hrun as [[H1 H2] H3]. split; [split|]; assumption.
    + injection Hrun as <- <-. split; [split; reflexivity | tauto].
Qed.

(** The first [waitpid] fails: nothing has written [status] when the
    condition of the loop reads it. *)
Lemma find_child_not_child pid tbl : find_child pid (not_child pid tbl) = None.
Proof.
  induction tbl as [|[p evs] tbl IH]; [reflexivity|].
  unfold not_child in *. cbn [List.filter fst].
  destruct (p =? pid) eqn:E; cbn [negb]; [exact IH|].
  cbn [find_child]. rewrite E, IH. reflexivity.
Qed.

Lemma lsh_launch_reaped mem args w pid rest :
  w_forks w = ForkReaped pid :: rest ->
  exists w',
    lsh_launch mem args w = (w', Stop Fault) /\
    w_calls w' = w_calls w ++ [SysFork; SysWaitpid (Z.pos pid) WUNTRACED] /\
    w_errno w' = ECHILD /\
    w_stdout w' = w_stdout w /\ w_stderr w' = w_stderr w /\ w_cwd w' = w_cwd w /\
    w_child w' = w_child w /\ w_env w' = w_env w /\ w_forks w' = rest.
Proof.
  intros Hf. unfold lsh_launch. unfold bind at 1. unfold fork.
  cbn [w_forks set_calls]. rewrite Hf. cbn [Z.eqb Z.ltb Z.compare].
  unfold bind. unfold pending. cbn [w_children set_children].
  rewrite find_child_not_child. cbn [length wait_loop].
  unfold bind, waitpid. cbn [w_children set_children set_calls].
  rewrite find_child_not_child. cbn [snd]. unfold halt.
  eexists. split; [reflexivity|]. world_simpl.
  rewrite <- app_assoc. repeat split.
Qed.

Lemma lsh_launch_outcome mem args t toks w w' r :
  argv_wf mem args (t :: toks) ->
  lsh_launch mem args w = (w', r) ->
  w_env w' = w_env w /\
  (w_child w' = w_child w /\
     (r = Ret 1 \/ r = Stop Blocked \/ r = Stop OutOfFuel) \/
   w_child w' <> None /\ (r = Stop Replaced \/ r = Stop (Exit EXIT_FAILURE)) \/
   r = Stop Fault /\ exists pid rest, w_forks w = ForkReaped pid :: rest).
Proof.
  intros Hwf Hrun.
  destruct (w_forks w) as [|[e|e|pid evs|pid] rest] eqn:Hf.
  5:{ destruct (lsh_launch_reaped mem args w pid rest Hf)
        as (w1 & H1 & _ & _ & _ & _ & _ & _ & He & _).
      rewrite H1 in Hrun. injection Hrun as <- <-. split; [exact He|].
      right. right. split; [reflexivity|]. eexists _, _. reflexivity. }
  - destruct (lsh_launch_no_fork mem args w EAGAIN) as (w1 & H1 & _ & _ & _ & Hc & He & _);
      [left; split; [exact Hf|reflexivity]|].
    rewrite H1 in Hrun. injection Hrun as <- <-. split; [exact He|]. left. tauto.
  - destruct (lsh_launch_no_fork mem args w e) as (w1 & H1 & _ & _ & _ & Hc & He & _);
      [right; eexists; exact Hf|].
    rewrite H1 in Hrun. injection Hrun as <- <-. split; [exact He|]. left. tauto.
  - destruct (lsh_launch_child mem args t toks w e rest Hwf Hf) as (w1 & H1 & Hc & He & _).
    rewrite H1 in Hrun. injection Hrun as <- <-. split; [exact He|]. right. left.
    split; [rewrite Hc; discriminate|]. destruct e; tauto.
  - unfold lsh_launch in Hrun. unfold bind at 1 in Hrun. unfold fork in Hrun.
    cbn [w_forks set_calls] in Hrun. rewrite Hf in Hrun.
    cbn [Z.eqb Z.ltb Z.compare] in Hrun. unfold bind in Hrun.
    match type of Hrun with
    | context [wait_loop ?f ?p ?st ?w1] =>
        destruct (wait_loop f p st w1) as [w2 r2] eqn:Hw
    end.
    apply wait_loop_outcome in Hw.
    2:{ right. cbn [w_children set_children]. rewrite find_child_front. discriminate. }
    destruct Hw as [[Hc He] Hr]. world_simpl.
    split; [destruct Hr as [-> | [-> | ->] ]; injection Hrun as <- <-; exact He|].
    left. destruct Hr as [-> | [-> | ->] ]; injection Hrun as <- <-; (split; [exact Hc|tauto]).
Qed.

Lemma read_cstr_chars chars tl :
  read_cstr (map Some chars ++ Some NUL :: tl) = Some (c_str chars).
Proof.
  induction chars as [|c chars IH]; [reflexivity|].
  cbn [map app read_cstr c_str]. destruct (Ascii.eqb c NUL); [reflexivity|].
  now rewrite IH.
Qed.

(** The line the reader returns, as a C string. *)
Lemma reader_buffer_cstr (buf : array ascii) line :
  take (S (length line)) buf = map Some line ++ [Some NUL] ->
  cstr_at buf 0 = Some (c_str line).
Proof.
  intros H. unfold cstr_at. cbn [Z.leb Z.compare Z.to_nat drop].
  rewrite <- (take_drop (S (length line)) buf), H, <- app_assoc.
  apply read_cstr_chars.
Qed.

Lemma lsh_help_spec mem args w :
  exists w',
    lsh_help mem args w = (w', Ret 1) /\
    w_stdout w'
      = w_stdout w
          ++ [lit "Omer Hayat's LSH" ++ nl;
              lit "Type program names and arguments, and hit enter." ++ nl;
              lit "The following are built-in:" ++ nl;
              lit " cd" ++ nl; lit " help" ++ nl; lit " exit" ++ nl;
              lit "Use the man command for information on other programs." ++ nl] /\
    w_stderr w' = w_stderr w /\ w_cwd w' = w_cwd w /\
    w_child w' = w_child w /\ w_env w' = w_env w /\ w_calls w' = w_calls w.
Proof.
  eexists. split; [reflexivity|]. world_simpl.
  rewrite <- !app_assoc. repeat split.
Qed.

Lemma lsh_cd_outcome mem args t toks w :
  argv_wf mem args (t :: toks) ->
  exists w',
    lsh_cd mem args w = (w', Ret 1) /\
    w_child w' = w_child w /\ w_env w' = w_env w /\ w_stdout w' = w_stdout w.
Proof.
  intros Hwf. destruct toks as [|path toks].
  - pose proof (argv_wf_sentinel mem args [t] w Hwf) as Hl.
    rewrite (lsh_cd_no_argument _ _ _ Hl). eexists. split; [reflexivity|].
    repeat split.
  - destruct (argv_wf_entry mem args (t :: path :: toks) 1 path w Hwf eq_refl)
      as (p & Hl & Hp).
    destruct (env_chdir (w_env w) (w_cwd w) path) as [dir|e] eqn:He.
    + rewrite (lsh_cd_changes _ _ _ _ _ _ Hl Hp He). eexists.
      split; [reflexivity|]. repeat split.
    + rewrite (lsh_cd_refused _ _ _ _ _ _ Hl Hp He). eexists.
      split; [reflexivity|]. repeat split.
Qed.

Lemma lsh_execute_command mem args t toks w :
  argv_wf mem args (t :: toks) ->
  lsh_execute mem args w
  = if is_name "cd" t then lsh_cd mem args w
    else if is_name "help" t then lsh_help mem args w
    else if is_name "exit" t then lsh_exit mem args w
    else lsh_launch mem args w.
Proof.
  intros Hwf.
  destruct (argv_wf_entry mem args (t :: toks) 0 t w Hwf eq_refl) as (q & Hl & Hq).
  apply (execute_command lsh_cd lsh_help lsh_exit lsh_launch mem args q t w Hl Hq).
Qed.

Lemma lsh_execute_empty mem args w :
  argv_wf mem args [] -> lsh_execute mem args w = (w, Ret 1).
Proof.
  intros Hwf. apply execute_no_command.
  apply (argv_wf_sentinel mem args [] w Hwf).
Qed.

Lemma lsh_execute_outcome mem args toks w w' r :
  argv_wf mem args toks ->
  lsh_execute mem args w = (w', r) ->
  w_env w' = w_env w /\
  (w_child w' = w_child w /\
     (r = Ret 0 \/ r = Ret 1 \/ r = Stop Blocked \/ r = Stop OutOfFuel) \/
   w_child w' <> None /\ (r = Stop Replaced \/ r = Stop (Exit EXIT_FAILURE)) \/
   r = Stop Fault /\ exists pid rest, w_forks w = ForkReaped pid :: rest).
Proof.
  intros Hwf Hrun. destruct toks as [|t toks].
  - rewrite (lsh_execute_empty _ _ _ Hwf) in Hrun. injection Hrun as <- <-.
    split; [reflexivity|]. left. tauto.
  - rewrite (lsh_execute_command _ _ _ _ _ Hwf) in Hrun.
    destruct (is_name "cd" t).
    { destruct (lsh_cd_outcome mem args t toks w Hwf) as (w1 & H1 & Hc & He & _).
      rewrite H1 in Hrun. injection Hrun as <- <-. split; [exact He|]. left. tauto. }
    destruct (is_name "help" t).
    { destruct (lsh_help_spec mem args w) as (w1 & H1 & _ & _ & _ & Hc & He & _).
      rewrite H1 in Hrun. injection Hrun as <- <-. split; [exact He|]. left. tauto. }
    destruct (is_name "exit" t).
    { injection Hrun as <- <-. split; [reflexivity|]. left. tauto. }
    apply (lsh_launch_outcome _ _ _ _ _ _ _ Hwf) in Hrun.
    destruct Hrun as [He [[Hc Hr]|Hr]]; (split; [exact He|]); [left|right; exact Hr].
    split; [exact Hc|tauto].
Qed.

(** The dispatch takes the fates of [fork] from the front of the script. *)
Lemma wait_loop_forks fuel :
  forall pid status w w' r,
    wait_loop fuel pid status w = (w', r) -> w_forks w' = w_forks w.
Proof.
  induction fuel as [|fuel IH]; intros pid status w w' r Hrun.
  { injection Hrun as <- <-. reflexivity. }
  cbn [wait_loop] in Hrun. unfold bind at 1 in Hrun. unfold waitpid at 1 in Hrun.
  cbn [w_children set_calls] in Hrun.
  destruct (find_child pid (w_children w)) as [[evs others]|].
  2:{ cbn [snd] in Hrun. destruct status as [st|].
      - destruct (negb (WIFEXITED st) && negb (WIFSIGNALED st)).
        + apply IH in Hrun. world_simpl. exact Hrun.
        + injection Hrun as <- <-. reflexivity.
      - injection Hrun as <- <-. reflexivity. }
  destruct (if Z.land WUNTRACED WUNTRACED =? 0
            then List.filter (fun ev => negb (is_stop ev)) evs else evs) as [|ev evs'].
  { injection Hrun as <- <-. reflexivity. }
  cbn [snd] in Hrun.
  destruct (negb (WIFEXITED (wstatus ev)) && negb (WIFSIGNALED (wstatus ev))).
  - apply IH in Hrun. world_simpl. exact Hrun.
  - injection Hrun as <- <-. reflexivity.
Qed.

Lemma lsh_launch_forks mem args w w' r :
  lsh_launch mem args w = (w', r) ->
  forall f, In f (w_forks w') -> In f (w_forks w).
Proof.
  unfold lsh_launch. unfold bind at 1. unfold fork. cbn [w_forks set_calls].
  destruct (w_forks w) as [|[e|e|pid evs|pid] rest] eqn:Hfk.
  - cbn [Z.eqb Z.ltb Z.compare]. unfold bind, perror, print_err, ret.
    intros [= <- <-] f Hf. world_simpl. congruence.
  - cbn [Z.eqb Z.ltb Z.compare]. unfold bind, perror, print_err, ret.
    intros [= <- <-] f Hf. right. exact Hf.
  - cbn [Z.eqb]. unfold bind at 1. unfold bind at 1.
    match goal with
    | |- context [load args 0 ?w1] => destruct (load args 0 w1) as [w2 r2] eqn:El
    end.
    assert (Hw2 : w_forks w2 = rest).
    { apply load_inv in El as [-> _]. reflexivity. }
    destruct r2 as [arg0|st]; [|intros [= <- <-] f Hf; right; congruence].
    unfold bind at 1. unfold bind at 1. unfold execvp.
    destruct arg0 as [|p]; [intros [= <- <-] f Hf; right; congruence|].
    destruct (argv_strings mem args); [|intros [= <- <-] f Hf; right; congruence].
    destruct (cstr_at mem p); [|intros [= <- <-] f Hf; right; congruence].
    destruct (w_child (set_calls _ w2)) as [[e'|]|];
      [|intros [= <- <-] f Hf; right; world_simpl; congruence
       |intros [= <- <-] f Hf; right; world_simpl; congruence].
    cbn [Z.eqb]. unfold bind, perror, print_err, exit, halt.
    intros [= <- <-] f Hf. right. world_simpl. congruence.
  - cbn [Z.eqb Z.ltb Z.compare]. unfold bind at 1.
    match goal with
    | |- context [wait_loop ?f ?p ?st ?w1] =>
        destruct (wait_loop f p st w1) as [w2 r2] eqn:Ew
    end.
    apply wait_loop_forks in Ew. world_simpl.
    destruct r2 as [u|st]; unfold ret; intros [= <- <-] f Hf; right; congruence.
  - cbn [Z.eqb Z.ltb Z.compare]. unfold bind at 1.
    match goal with
    | |- context [wait_loop ?f ?p ?st ?w1] =>
        destruct (wait_loop f p st w1) as [w2 r2] eqn:Ew
    end.
    apply wait_loop_forks in Ew. world_simpl.
    destruct r2 as [u|st]; unfold ret; intros [= <- <-] f Hf; right; congruence.
Qed.

Lemma lsh_execute_forks mem args toks w w' r :
  argv_wf mem args toks ->
  lsh_execute mem args w = (w', r) ->
  forall f, In f (w_forks w') -> In f (w_forks w).
Proof.
  intros Hwf Hrun. destruct toks as [|t toks].
  { rewrite (lsh_execute_empty _ _ _ Hwf) in Hrun. injection Hrun as <- <-. tauto. }
  rewrite (lsh_execute_command _ _ _ _ _ Hwf) in Hrun.
  destruct (is_name "cd" t).
  { assert (Hf : w_forks w' = w_forks w); [|rewrite Hf; tauto].
    destruct toks as [|path toks].
    - pose proof (argv_wf_sentinel mem args [t] w Hwf) as Hl.
      rewrite (lsh_cd_no_argument _ _ _ Hl) in Hrun. injection Hrun as <- <-.
      reflexivity.
    - destruct (argv_wf_entry mem args (t :: path :: toks) 1 path w Hwf eq_refl)
        as (p & Hl & Hp).
      destruct (env_chdir (w_env w) (w_cwd w) path) as [dir|e] eqn:He.
      + rewrite (lsh_cd_changes _ _ _ _ _ _ Hl Hp He) in Hrun.
        injection Hrun as <- <-. reflexivity.
      + rewrite (lsh_cd_refused _ _ _ _ _ _ Hl Hp He) in Hrun.
        injection Hrun as <- <-. reflexivity. }
  destruct (is_name "help" t).
  { injection Hrun as <- <-. tauto. }
  destruct (is_name "exit" t).
  { injection Hrun as <- <-. tauto. }
  eapply lsh_launch_forks, Hrun.
Qed.

(** With a kernel that reports only what it can, the dispatch ends as
    [expected_status] tells. *)
Lemma lsh_execute_expected mem args toks w w' r :
  argv_wf mem args toks ->
  kernel_ok w ->
  lsh_execute mem args w = (w', r) ->
  r = expected_status toks (w_forks w).
Proof.
  intros Hwf Hk Hrun. destruct toks as [|t toks].
  - rewrite (lsh_execute_empty _ _ _ Hwf) in Hrun. now injection Hrun as <- <-.
  - rewrite (lsh_execute_command _ _ _ _ _ Hwf) in Hrun.
    assert (Hno : ~ In NUL t).
    { destruct (argv_wf_entry mem args (t :: toks) 0 t w Hwf eq_refl) as (q & _ & Hq).
      eapply cstr_at_no_NUL, Hq. }
    cbn [expected_status].
    destruct (is_name "exit" t) eqn:Hexit.
    { assert (t = lit "exit") as ->.
      { apply strcmp_eq; [exact Hno | |now apply Z.eqb_eq].
        vm_compute. intuition discriminate. }
      vm_compute in Hrun. now injection Hrun as <- <-. }
    destruct (is_name "cd" t) eqn:Hcd.
    { destruct (lsh_cd_outcome mem args t toks w Hwf) as (w1 & H1 & _).
      rewrite H1 in Hrun. now injection Hrun as <- <-. }
    destruct (is_name "help" t) eqn:Hhelp.
    { destruct (lsh_help_spec mem args w) as (w1 & H1 & _).
      rewrite H1 in Hrun. now injection Hrun as <- <-. }
    cbn [orb].
    destruct (w_forks w) as [|[e|e|pid evs|pid] rest] eqn:Hf.
    5:{ destruct (lsh_launch_reaped mem args w pid rest Hf) as (w1 & H1 & _).
        rewrite H1 in Hrun. now injection Hrun as <- <-. }
    + destruct (lsh_launch_no_fork mem args w EAGAIN) as (w1 & H1 & _);
        [left; split; [exact Hf|reflexivity]|].
      rewrite H1 in Hrun. now injection Hrun as <- <-.
    + destruct (lsh_launch_no_fork mem args w e) as (w1 & H1 & _);
        [right; eexists; exact Hf|].
      rewrite H1 in Hrun. now injection Hrun as <- <-.
    + destruct (lsh_launch_child mem args t toks w e rest Hwf Hf) as (w1 & H1 & _).
      rewrite H1 in Hrun. injection Hrun as <- <-. now destruct e.
    + destruct (lsh_launch_parent mem args w pid evs rest Hf) as (w1 & H1 & _).
      { unfold kernel_ok in Hk. rewrite Hf in Hk. now inversion Hk. }
      rewrite H1 in Hrun. now injection Hrun as <- <-.
Qed.

(* ===================================================================== *)
(** * The loop *)
(* ===================================================================== *)

Lemma tokens_of_join wds :
  Forall is_word wds -> tokens_of (join (lit " ") wds) = wds.
Proof.
  change (lit " ") with [" "%char].
  induction 1 as [|wd wds Hwd _ IH]; [reflexivity|].
  destruct wds as [|wd2 wds].
  - cbn [join]. rewrite <- (app_nil_r wd) at 1.
    now rewrite tokens_of_word.
  - change (join [" "%char] (wd :: wd2 :: wds))
      with (wd ++ " "%char :: join [" "%char] (wd2 :: wds)).
    rewrite tokens_of_word; [|exact Hwd|reflexivity].
    rewrite tokens_of_delim by reflexivity. now rewrite IH.
Qed.

Lemma well_spaced_words items : well_spaced items -> Forall is_word (map fst items).
Proof.
  induction items as [|[wd gap] rest IH]; [constructor|].
  intros (Hwd & _ & _ & Hrest). constructor; [exact Hwd | now apply IH].
Qed.

Lemma tokens_are_words s : Forall is_word (tokens_of s).
Proof.
  destruct (layout_exists s) as (lead & items & -> & Hl & Hi).
  rewrite tokens_of_spaced by assumption. now apply well_spaced_words.
Qed.

Lemma is_delim_spec c :
  is_delim c = true <-> In c [" "; "009"; "013"; "010"; "007"]%char.
Proof.
  unfold is_delim, in_set, LSH_TOK_DELIM. rewrite existsb_exists. split.
  - intros (x & Hx & Heq). apply Ascii.eqb_eq in Heq. now subst.
  - intros H. exists c. split; [exact H | apply Ascii.eqb_refl].
Qed.

Lemma gap_no_tokens s : is_gap s -> tokens_of s = [].
Proof.
  intros H. rewrite <- (app_nil_r s). now rewrite tokens_of_gap.
Qed.

Lemma load_lookup {A} (a : array A) (i : nat) v w :
  a !! i = Some (Some v) -> load a (Z.of_nat i) w = (w, Ret v).
Proof.
  intros H. unfold load. destruct (Z.leb_spec 0 (Z.of_nat i)); [|lia].
  now rewrite Nat2Z.id, H.
Qed.

Lemma argv_wf_lookup_sentinel mem (args : array ptr) toks :
  argv_wf mem args toks -> args !! length toks = Some (Some NULL).
Proof.
  intros H. apply argv_wf_cells in H as (ptrs & rest & -> & HF).
  apply list_lookup_middle. rewrite length_map. symmetry. eapply Forall2_length, HF.
Qed.

Lemma fatal_last w w' status :
  fatal w w' status -> last (w_stderr w') = Some allocation_error.
Proof. intros (_ & -> & _). apply last_snoc. Qed.

(** One turn of the loop: it ends on a refused allocation, or the command
    [toks] read from the input is dispatched. *)
Lemma loop_body_inv w w' r :
  loop_body w = (w', r) ->
  let toks := tokens_of (c_str (fst (first_line (w_stdin w)))) in
  (r = Stop (Exit EXIT_FAILURE) /\ w_child w' = w_child w /\ w_env w' = w_env w /\
   last (w_stderr w') = Some allocation_error /\ allocation_refused w) \/
  (exists w2 mem args,
      argv_wf mem args toks /\ w_forks w2 = w_forks w /\
      w_child w2 = w_child w /\ w_env w2 = w_env w /\
      lsh_execute mem args w2 = (w', r)).
Proof.
  intros Hrun toks. unfold loop_body in Hrun.
  unfold bind at 1 in Hrun. unfold print_out at 1 in Hrun.
  set (p := set_stdout _ w) in Hrun.
  assert (Hpe : w_env p = w_env w) by reflexivity.
  assert (Hpc : w_child p = w_child w) by reflexivity.
  assert (Hpf : w_forks p = w_forks w) by reflexivity.
  unfold bind at 1 in Hrun.
  destruct (lsh_read_line p) as [w1 r1] eqn:Hread.
  apply lsh_read_line_spec in Hread as (_ & Hp1 & Hr1).
  destruct r1 as [buf|[status| | | |]]; try contradiction.
  2:{ injection Hrun as <- <-. left. destruct Hp1 as (He & Hc & _).
      pose proof (fatal_last _ _ _ Hr1) as Hlast.
      destruct Hr1 as (-> & _ & w0 & n & Hw0 & Hn).
      repeat split; try congruence.
      exists w0, n. split; [congruence | exact Hn]. }
  destruct Hr1 as (_ & _ & Hbuf & _).
  apply reader_buffer_cstr in Hbuf. change (w_stdin p) with (w_stdin w) in Hbuf.
  unfold bind at 1 in Hrun.
  destruct (lsh_split_line buf w1) as [w2 r2] eqn:Hsplit.
  apply (lsh_split_line_spec _ _ _ _ _ Hbuf) in Hsplit as (_ & Hp2 & Hr2).
  pose proof (same_process_trans _ _ _ Hp1 Hp2) as (He & Hc & Hf & _).
  destruct r2 as [[mem args]|[status| | | |]]; try contradiction.
  2:{ injection Hrun as <- <-. left.
      pose proof (fatal_last _ _ _ Hr2) as Hlast.
      destruct Hr2 as (-> & _ & w0 & n & Hw0 & Hn).
      repeat split; try congruence.
      exists w0, n. split; [|exact Hn]. destruct Hp1 as (He1 & _). congruence. }
  destruct Hr2 as (_ & Hwf & _).
  right. exists w2, mem, args. repeat split; try congruence; try assumption.
  unfold bind, free, ret in Hrun.
  destruct (lsh_execute mem args w2) as [w3 [status|st]]; exact Hrun.
Qed.

Lemma lsh_loop_step fuel w w' status :
  loop_body w = (w', Ret status) ->
  lsh_loop (S fuel) w = if status =? 0 then (w', Ret tt) else lsh_loop fuel w'.
Proof.
  intros H. cbn [lsh_loop]. unfold bind. rewrite H.
  destruct (status =? 0); reflexivity.
Qed.

Lemma lsh_loop_outcome fuel :
  forall w w' r,
    lsh_loop fuel w = (w', r) ->
    w_env w' = w_env w /\
    match r with
    | Ret _ => w_child w' = w_child w
    | Stop (Exit status) =>
        status = EXIT_FAILURE /\
        (w_child w' = w_child w /\
           last (w_stderr w') = Some allocation_error /\ allocation_refused w \/
         w_child w' <> None)
    | Stop Fault => exists pid, In (ForkReaped pid) (w_forks w)
    | Stop _ => True
    end.
Proof.
  induction fuel as [|fuel IH]; intros w w' r Hrun.
  { injection Hrun as <- <-. split; [reflexivity | exact I]. }
  cbn [lsh_loop] in Hrun. unfold bind in Hrun.
  destruct (loop_body w) as [w1 r1] eqn:Hbody.
  apply loop_body_inv in Hbody.
  destruct Hbody as [(-> & Hc & He & Hlast & Href)|
                     (w2 & mem & args & Hwf & Hf2 & Hc2 & He2 & Hexec)].
  { injection Hrun as <- <-. split; [exact He|]. split; [reflexivity|]. left. tauto. }
  pose proof (lsh_execute_forks _ _ _ _ _ _ Hwf Hexec) as Hforks.
  rewrite Hf2 in Hforks.
  apply (lsh_execute_outcome _ _ _ _ _ _ Hwf) in Hexec as (He1 & Hout).
  assert (He : w_env w1 = w_env w) by congruence.
  destruct Hout as [(Hc1 & Hr1)|[(Hc1 & Hr1)|(-> & pid & rest & Hreaped)] ].
  - assert (Hc : w_child w1 = w_child w) by congruence.
    destruct Hr1 as [-> | [-> | [-> | ->] ] ].
    + injection Hrun as <- <-. split; assumption.
    + cbn [Z.eqb negb] in Hrun. apply IH in Hrun as (He3 & Hr3).
      split; [congruence|].
      destruct r as [u|[status| | | |]]; try exact Hr3.
      * congruence.
      * destruct Hr3 as (-> & Hr3). split; [reflexivity|].
        destruct Hr3 as [(Hc3 & Hl3 & w0 & n & Hw0 & Hn)|Hc3]; [left|right; exact Hc3].
        split; [congruence|]. split; [exact Hl3|].
        exists w0, n. split; [congruence | exact Hn].
      * destruct Hr3 as (pid & Hpid). exists pid. apply Hforks, Hpid.
    + injection Hrun as <- <-. split; [exact He | exact I].
    + injection Hrun as <- <-. split; [exact He | exact I].
  - destruct Hr1 as [-> | ->]; injection Hrun as <- <-; (split; [exact He|]).
    + exact I.
    + split; [reflexivity|]. right. exact Hc1.
  - injection Hrun as <- <-. split; [exact He|].
    exists pid. rewrite <- Hf2, Hreaped. now left.
Qed.

Lemma expected_status_exit toks forks :
  Forall (fun t => ~ In NUL t) toks ->
  expected_status toks forks = Ret 0 <-> head toks = Some (lit "exit").
Proof.
  intros Hn. destruct toks as [|t toks]; cbn [expected_status head].
  - split; discriminate.
  - assert (Hexit : is_name "exit" t = true <-> t = lit "exit").
    { unfold is_name. rewrite Z.eqb_eq. apply strcmp_eq.
      - now inversion Hn.
      - vm_compute. intuition discriminate. }
    destruct (is_name "exit" t).
    + split; [intros _; f_equal; now apply Hexit | reflexivity].
    + split.
      * destruct (is_name "cd" t || is_name "help" t); [discriminate|].
        destruct forks as [|[e|[e|]|pid evs|pid] rest]; try discriminate.
        destruct (ends evs); discriminate.
      * intros [= Ht]. apply Hexit in Ht. discriminate.
Qed.

Lemma expected_status_values toks forks status :
  expected_status toks forks = Ret status -> status = 0 \/ status = 1.
Proof.
  destruct toks as [|t toks]; cbn [expected_status].
  - intros [= <-]. now right.
  - destruct (is_name "exit" t); [intros [= <-]; now left|].
    destruct (is_name "cd" t || is_name "help" t); [intros [= <-]; now right|].
    destruct forks as [|[e|[e|]|pid evs|pid] rest]; try discriminate;
      try (intros [= <-]; now right).
    destruct (ends evs); [intros [= <-]; now right | discriminate].
Qed.

Lemma argv_wf_no_NUL mem args toks :
  argv_wf mem args toks -> Forall (fun t => ~ In NUL t) toks.
Proof.
  intros (ptrs & HF & _). induction HF as [|q t ptrs toks Hq _ IH]; constructor.
  - eapply cstr_at_no_NUL, Hq.
  - exact IH.
Qed.

(** One turn of the loop with memory enough: the prompt is printed, one
    line is consumed, and the turn ends as the dispatch of its tokens. *)
Lemma loop_body_turn bound w :
  let line := fst (first_line (w_stdin w)) in
  let toks := tokens_of (c_str line) in
  plenty bound w ->
  1024 * (Z.of_nat (length line) / 1024 + 1) <= bound ->
  512 * (Z.of_nat (length toks) / 64 + 1) <= bound ->
  bound < 2 ^ 31 ->
  exists w2 mem args,
    loop_body w = lsh_execute mem args w2 /\
    argv_wf mem args toks /\
    w_stdin w2 = snd (first_line (w_stdin w)) /\
    w_stdout w2 = w_stdout w ++ [lit "> "] /\
    w_stderr w2 = w_stderr w /\
    w_env w2 = w_env w /\ w_cwd w2 = w_cwd w /\ w_calls w2 = w_calls w /\
    w_forks w2 = w_forks w /\ w_children w2 = w_children w /\
    w_child w2 = w_child w.
Proof.
  intros line toks Hp Hb1 Hb2 Hmax.
  unfold loop_body. unfold bind at 1. unfold print_out at 1.
  set (p := set_stdout _ w).
  assert (Hpp : plenty bound p) by (eapply plenty_env; [|exact Hp]; reflexivity).
  destruct (lsh_read_line_returns bound p Hpp Hb1 Hmax) as (w1 & buf & Hread).
  pose proof (lsh_read_line_spec _ _ _ Hread) as (_ & Hp1 & Hin1 & Herr1 & Hbuf & _).
  apply reader_buffer_cstr in Hbuf. change (w_stdin p) with (w_stdin w) in Hbuf, Hin1.
  fold line in Hbuf.
  assert (Hp1' : plenty bound w1).
  { eapply plenty_env; [|exact Hpp]. destruct Hp1 as (E & _). exact E. }
  destruct (lsh_split_line_returns bound buf (c_str line) w1 Hbuf Hp1' Hb2 Hmax)
    as (w2 & mem & args & Hsplit).
  pose proof (lsh_split_line_spec _ _ _ _ _ Hbuf Hsplit) as (_ & Hp2 & Herr2 & Hwf & _).
  pose proof (lsh_split_line_frame _ _ _ _ Hsplit) as (_ & Hin2 & _).
  exists w2, mem, args.
  split.
  { unfold bind at 1. rewrite Hread. unfold bind at 1. rewrite Hsplit.
    unfold bind, free, ret.
    destruct (lsh_execute mem args w2) as [w3 [status|st]]; reflexivity. }
  split; [exact Hwf|].
  destruct Hp1 as (A1 & A2 & A3 & A4 & A5 & A6 & A7).
  destruct Hp2 as (B1 & B2 & B3 & B4 & B5 & B6 & B7).
  clear Hread Hpp. subst p. world_simpl.
  repeat split; congruence.
Qed.

(** At the end of the input a turn reads the empty command and asks for the
    next one. *)
Lemma loop_body_at_eof w :
  w_stdin w = [] ->
  plenty 1024 w ->
  exists w',
    loop_body w = (w', Ret 1) /\
    w_stdin w' = [] /\
    w_stdout w' = w_stdout w ++ [lit "> "] /\
    w_stderr w' = w_stderr w /\ w_env w' = w_env w /\ w_cwd w' = w_cwd w /\
    w_calls w' = w_calls w.
Proof.
  intros Hin Hp.
  destruct (loop_body_turn 1024 w) as
    (w2 & mem & args & Hrun & Hwf & H1 & H2 & H3 & H4 & H5 & H6 & _).
  { exact Hp. }
  { rewrite Hin. vm_compute. discriminate. }
  { rewrite Hin. vm_compute. discriminate. }
  { reflexivity. }
  rewrite Hin in Hwf, H1. cbn [first_line fst snd c_str tokens_of] in Hwf, H1.
  rewrite (lsh_execute_empty _ _ _ Hwf) in Hrun.
  exists w2. repeat split; assumption.
Qed.

Lemma first_line_newline line rest :
  ~ In "010"%char line -> first_line (line ++ "010"%char :: rest) = (line, rest).
Proof.
  induction line as [|c line IH]; intros Hn; [reflexivity|].
  cbn [app first_line].
  destruct (Ascii.eqb_spec c "010") as [->|_]; [exfalso; apply Hn; now left|].
  rewrite IH; [reflexivity|]. intros H. apply Hn. now right.
Qed.

Lemma first_line_eof line : ~ In "010"%char line -> first_line line = (line, []).
Proof.
  induction line as [|c line IH]; intros Hn; [reflexivity|].
  cbn [first_line].
  destruct (Ascii.eqb_spec c "010") as [->|_]; [exfalso; apply Hn; now left|].
  rewrite IH; [reflexivity|]. intros H. apply Hn. now right.
Qed.

Lemma first_line_of_input input line rest :
  ~ In "010"%char line ->
  input = line ++ "010"%char :: rest \/ input = line /\ rest = [] ->
  first_line input = (line, rest).
Proof.
  intros Hn [->|[-> ->]]; [now apply first_line_newline | now apply first_line_eof].
Qed.

Lemma is_name_eq name t :
  ~ In NUL t -> ~ In NUL (lit name) -> is_name name t = true <-> t = lit name.
Proof.
  intros Ht Hn. unfold is_name. rewrite Z.eqb_eq. now apply strcmp_eq.
Qed.

Lemma builtin_names_no_NUL : Forall (fun name => ~ In NUL name) builtin_str.
Proof. repeat constructor; vm_compute; intuition discriminate. Qed.

Lemma demo_plenty limit input forks : plenty limit (demo_world limit input forks).
Proof. intros k n Hn. apply Z.leb_le. lia. Qed.

(** A string read from a cut line was there before the cut, between the
    same cells, and ended by a terminator or by a delimiter. *)
Lemma cut_string (line mem : array ascii) q t :
  cut_at_delimiters line mem -> cstr_at mem q = Some t ->
  0 <= q /\
  take (length t) (drop (Z.to_nat q) line) = map Some t /\
  exists c, line !! (Z.to_nat q + length t)%nat = Some (Some c) /\
            (c = NUL \/ is_delim c = true).
Proof.
  intros Hcut Hq. apply cstr_at_inv in Hq as (pre & tl & -> & -> & Hn).
  apply Forall2_app_inv_r in Hcut as (l1 & l23 & H1 & H23 & ->).
  apply Forall2_app_inv_r in H23 as (l2 & l3 & H2 & H3 & ->).
  inversion H3 as [|a b l3' tl' Hab H3' E1 E2]; subst.
  assert (Hl1 : length l1 = length pre) by (eapply Forall2_length, H1).
  assert (Hl2 : l2 = map Some t).
  { clear - H2 Hn. revert l2 H2. induction t as [|x t IH]; intros l2 H2;
      inversion H2 as [|a b l2' t' Hab H2' E1 E2]; subst; [reflexivity|].
    cbn [map]. f_equal.
    - destruct Hab as [E|(E & _)]; [now symmetry|].
      injection E as ->. exfalso. apply Hn. now left.
    - apply IH; [|exact H2']. intros H. apply Hn. now right. }
  subst l2. split; [lia|]. rewrite Nat2Z.id, <- Hl1, drop_app_length.
  split.
  - rewrite <- (length_map Some t) at 1. apply take_app_length.
  - assert (Hat : (l1 ++ map Some t ++ a :: l3') !! (length l1 + length t)%nat = Some a).
    { rewrite lookup_app_r by lia.
      replace (length l1 + length t - length l1)%nat with (length (map Some t))
        by (rewrite length_map; lia).
      apply list_lookup_middle. reflexivity. }
    rewrite Hat. destruct Hab as [<-|(_ & c & -> & Hc)].
    + exists NUL. split; [reflexivity | now left].
    + exists c. split; [reflexivity | now right].
Qed.

(* ===================================================================== *)
(** * The properties of the specification *)
(* ===================================================================== *)

(** C2.  In [lsh_read_line] and in [lsh_split_line] every store, the string
    terminator and the null sentinel included, is made at an index strictly
    below the capacity the array has at that moment, for every input: the
    capacity is checked right after each store, so the array is grown before
    the next one.  Nothing is lost on the way: the buffer returned holds the
    whole line and its terminator, the vector every token and the sentinel,
    and their capacities are the first multiples of 1024 and of 64 above the
    number of characters and of tokens, also when that number is itself such
    a multiple.  The only other end is the fatal exit on a refused
    allocation. *)
Theorem stores_below_capacity :
  (forall w w' r,
      lsh_read_line w = (w', r) ->
      stores_in_bounds w w' /\
      match r with
      | Ret buffer =>
          let line := fst (first_line (w_stdin w)) in
          take (S (length line)) buffer = map Some line ++ [Some NUL] /\
          Z.of_nat (length line) < capacity buffer /\
          capacity buffer = 1024 * (Z.of_nat (length line) / 1024 + 1)
      | Stop (Exit status) => fatal w w' status
      | Stop _ => False
      end) /\
  (forall line s w w' r,
      cstr_at line 0 = Some s ->
      lsh_split_line line w = (w', r) ->
      stores_in_bounds w w' /\
      match r with
      | Ret (mem, args) =>
          let toks := tokens_of s in
          argv_wf mem args toks /\
          Z.of_nat (length toks) < capacity args /\
          capacity args = 64 * (Z.of_nat (length toks) / 64 + 1)
      | Stop (Exit status) => fatal w w' status
      | Stop _ => False
      end).
Proof.
  split.
  - intros w w' r Hrun. apply lsh_read_line_spec in Hrun as (Hs & _ & Hr).
    split; [exact Hs|].
    destruct r as [buffer|[status| | | |]]; try exact Hr.
    destruct Hr as (_ & _ & Htake & Hcap). cbv zeta.
    split; [exact Htake|]. split; [|exact Hcap]. rewrite Hcap.
    pose proof (Z.mul_div_le (Z.of_nat (length (first_line (w_stdin w)).1)) 1024 ltac:(lia)).
    pose proof (Z.mod_pos_bound (Z.of_nat (length (first_line (w_stdin w)).1)) 1024 ltac:(lia)).
    pose proof (Z.div_mod (Z.of_nat (length (first_line (w_stdin w)).1)) 1024 ltac:(lia)).
    lia.
  - intros line s w w' r Hline Hrun.
    apply (lsh_split_line_spec _ _ _ _ _ Hline) in Hrun as (Hs & _ & Hr).
    split; [exact Hs|].
    destruct r as [[mem args]|[status| | | |]]; try exact Hr.
    destruct Hr as (_ & Hwf & Hcap & _). cbv zeta.
    split; [exact Hwf|]. split; [|exact Hcap]. rewrite Hcap.
    pose proof (Z.mod_pos_bound (Z.of_nat (length (tokens_of s))) 64 ltac:(lia)).
    pose proof (Z.div_mod (Z.of_nat (length (tokens_of s))) 64 ltac:(lia)).
    lia.
Qed.

(** A line of exactly 1024 characters and a line of exactly 64 tokens, with
    memory to spare. *)
Lemma stores_below_capacity_witness :
  let w := demo_world 65536 (replicate 1024 "a"%char ++ nl) [] in
  let line := line_of (concat (replicate 64 (lit "a "))) in
  (stores_in_bounds w (fst (lsh_read_line w)) /\
   match snd (lsh_read_line w) with
   | Ret buffer => capacity buffer = 2048
   | Stop _ => False
   end) /\
  (stores_in_bounds w (fst (lsh_split_line line w)) /\
   match snd (lsh_split_line line w) with
   | Ret (_, args) => capacity args = 128
   | Stop _ => False
   end).
Proof.
  intros w line. split.
  - destruct (lsh_read_line w) as [w' r] eqn:E.
    destruct (proj1 stores_below_capacity w w' r E) as [Hs Hr].
    split; [exact Hs|]. cbn [snd].
    assert (Hret : exists buffer, r = Ret buffer).
    { change r with (snd (w', r)). rewrite <- E. vm_compute. eexists. reflexivity. }
    destruct Hret as [buffer ->]. destruct Hr as (_ & _ & Hcap). rewrite Hcap.
    vm_compute. reflexivity.
  - destruct (lsh_split_line line w) as [w' r] eqn:E.
    assert (Hline : cstr_at line 0 = Some (concat (replicate 64 (lit "a "))))
      by (vm_compute; reflexivity).
    destruct (proj2 stores_below_capacity line _ w w' r Hline E) as [Hs Hr].
    split; [exact Hs|]. cbn [snd].
    assert (Hret : exists mem args, r = Ret (mem, args)).
    { change r with (snd (w', r)). rewrite <- E. vm_compute. do 2 eexists. reflexivity. }
    destruct Hret as (mem & args & ->). destruct Hr as (_ & _ & Hcap). rewrite Hcap.
    vm_compute. reflexivity.
Defined.

(** C3.  The delimiters of [lsh_split_line] are exactly space, tab, carriage
    return, newline and bell.  For every line [s], every state and every
    allocator the call ends in one of two ways, never in a fault nor out of
    fuel.  Either it returns a vector: then, however [s] is read as a gap
    followed by words apart, the vector points to those words, in order, a
    pointer per word, so that a run of delimiters separates once and the
    gaps at both ends give nothing; such a reading exists; no token is the
    empty string, none holds a delimiter; and the entry right after the last
    token is the null pointer, which is the first entry when there is no
    token.  Or it is the fatal exit after the message of a refused
    allocation; and a vector is returned whenever the allocator serves
    requests up to the size of that vector. *)
Theorem split_line_tokens :
  forall line s w w' r,
    cstr_at line 0 = Some s ->
    lsh_split_line line w = (w', r) ->
    (forall c, is_delim c = true
               <-> In c [" "; "009"; "013"; "010"; "007"]%char) /\
    (exists lead items,
        s = lead ++ words_and_gaps items /\ is_gap lead /\ well_spaced items) /\
    Forall is_word (tokens_of s) /\
    match r with
    | Ret (mem, args) =>
        (forall lead items,
            s = lead ++ words_and_gaps items -> is_gap lead -> well_spaced items ->
            argv_wf mem args (map fst items)) /\
        argv_wf mem args (tokens_of s) /\
        args !! length (tokens_of s) = Some (Some NULL) /\
        (is_gap s -> args !! 0%nat = Some (Some NULL))
    | Stop (Exit status) => fatal w w' status
    | Stop _ => False
    end /\
    (forall bound,
        plenty bound w ->
        512 * (Z.of_nat (length (tokens_of s)) / 64 + 1) <= bound ->
        bound < 2 ^ 31 ->
        exists mem args, r = Ret (mem, args)).
Proof.
  intros line s w w' r Hline Hrun.
  split; [exact is_delim_spec|].
  split; [apply layout_exists|].
  split; [apply tokens_are_words|].
  split.
  - pose proof (lsh_split_line_spec _ _ _ _ _ Hline Hrun) as (_ & _ & Hr).
    destruct r as [[mem args]|[status| | | |]]; try exact Hr.
    destruct Hr as (_ & Hwf & _).
    split.
    { intros lead items -> Hl Hi. now rewrite <- (tokens_of_spaced lead items). }
    split; [exact Hwf|].
    split; [eapply argv_wf_lookup_sentinel, Hwf|].
    intros Hgap. pose proof (argv_wf_lookup_sentinel _ _ _ Hwf) as H.
    now rewrite (gap_no_tokens s Hgap) in H.
  - intros bound Hp Hb Hmax.
    destruct (lsh_split_line_returns bound line s w Hline Hp Hb Hmax)
      as (w1 & mem & args & Hret).
    rewrite Hret in Hrun. injection Hrun as _ <-. eexists _, _. reflexivity.
Qed.

(** A line of 64 words, which fills the first vector: the vector is grown
    before the sentinel is stored. *)
Lemma split_line_tokens_witness :
  let s := lit "  " ++ concat (replicate 64 (lit "ls" ++ ["009"%char] ++ lit " ")) in
  let w := demo_world 1024 [] [] in
  match snd (lsh_split_line (line_of s) w) with
  | Ret (mem, args) =>
      argv_wf mem args (replicate 64 (lit "ls")) /\
      args !! 64%nat = Some (Some NULL)
  | Stop _ => False
  end.
Proof.
  intros s w.
  destruct (lsh_split_line (line_of s) w) as [w' r] eqn:E.
  assert (Hline : cstr_at (line_of s) 0 = Some s) by (vm_compute; reflexivity).
  destruct (split_line_tokens (line_of s) s w w' r Hline E)
    as (_ & _ & _ & Hr & Hret).
  destruct (Hret 1024) as (mem & args & ->).
  - apply demo_plenty.
  - vm_compute. discriminate.
  - reflexivity.
  - destruct Hr as (_ & Hwf & Hnull & _). split; [exact Hwf | exact Hnull].
Defined.

(** The same word and gap over and over are words apart. *)
Lemma well_spaced_replicate n wd gap :
  is_word wd -> is_gap gap -> gap <> [] -> well_spaced (replicate n (wd, gap)).
Proof.
  intros Hw Hg Hne. induction n as [|n IH]; [exact I|].
  cbn [replicate well_spaced].
  split; [exact Hw|]. split; [exact Hg|]. split; [intros _; exact Hne | exact IH].
Qed.

(** C4.  For a line made of N words apart, with any gaps before, between and
    after them, and for every state and allocator, [lsh_split_line] ends in
    one of two ways, never in a fault nor out of fuel: it returns exactly
    the N words, in order, and the null pointer after them, or it is the
    fatal exit after the message of a refused allocation; and it returns
    whenever the allocator serves requests up to the size of the vector of
    N words.  Joined with single spaces the strings returned read the same
    as the words of the line so joined, and tokenizing that line again ends
    in the same two ways, with the same N words when it returns. *)
Theorem split_line_round_trip :
  forall lead items line w w' r,
    is_gap lead -> well_spaced items ->
    cstr_at line 0 = Some (lead ++ words_and_gaps items) ->
    lsh_split_line line w = (w', r) ->
    let wds := map fst items in
    tokens_of (join (lit " ") wds) = wds /\
    match r with
    | Ret (mem, args) =>
        argv_strings mem args = Some wds /\
        (exists ptrs,
            length ptrs = length items /\
            Forall2 (fun q wd => cstr_at mem q = Some wd) ptrs wds /\
            take (S (length items)) args
              = map (fun q => Some (At q)) ptrs ++ [Some NULL]) /\
        (forall strs,
            argv_strings mem args = Some strs ->
            join (lit " ") strs = join (lit " ") wds /\
            tokens_of (join (lit " ") strs) = wds /\
            forall line2 w2 w2' r2,
              cstr_at line2 0 = Some (join (lit " ") strs) ->
              lsh_split_line line2 w2 = (w2', r2) ->
              match r2 with
              | Ret (mem2, args2) => argv_strings mem2 args2 = Some wds
              | Stop (Exit status) => fatal w2 w2' status
              | Stop _ => False
              end /\
              (forall bound,
                  plenty bound w2 ->
                  512 * (Z.of_nat (length items) / 64 + 1) <= bound ->
                  bound < 2 ^ 31 ->
                  exists mem2 args2, r2 = Ret (mem2, args2)))
    | Stop (Exit status) => fatal w w' status
    | Stop _ => False
    end /\
    (forall bound,
        plenty bound w ->
        512 * (Z.of_nat (length items) / 64 + 1) <= bound ->
        bound < 2 ^ 31 ->
        exists mem args, r = Ret (mem, args)).
Proof.
  intros lead items line w w' r Hl Hi Hline Hrun wds.
  assert (Hw : tokens_of (join (lit " ") wds) = wds).
  { apply tokens_of_join. now apply well_spaced_words. }
  assert (Hn : length (tokens_of (lead ++ words_and_gaps items)) = length items).
  { rewrite tokens_of_spaced by assumption. apply length_map. }
  split; [exact Hw|]. split.
  - pose proof (lsh_split_line_spec _ _ _ _ _ Hline Hrun) as (_ & _ & Hr).
    destruct r as [[mem args]|[status| | | |]]; try exact Hr.
    destruct Hr as (_ & Hwf & _).
    rewrite tokens_of_spaced in Hwf by assumption. fold wds in Hwf.
    pose proof (argv_wf_strings _ _ _ Hwf) as Hstrs.
    split; [exact Hstrs|]. split.
    { destruct Hwf as (ptrs & HF & Htake). exists ptrs.
      pose proof (Forall2_length _ _ _ HF) as Hlen.
      unfold wds in Hlen, Htake. rewrite length_map in Hlen, Htake.
      repeat split; assumption. }
    intros strs Hs. rewrite Hstrs in Hs. injection Hs as <-.
    split; [reflexivity|]. split; [exact Hw|].
    intros line2 w2 w2' r2 Hline2 Hrun2. split.
    + pose proof (lsh_split_line_spec _ _ _ _ _ Hline2 Hrun2) as (_ & _ & Hr2).
      destruct r2 as [[mem2 args2]|[status| | | |]]; try exact Hr2.
      destruct Hr2 as (_ & Hwf2 & _).
      rewrite Hw in Hwf2. now apply argv_wf_strings in Hwf2.
    + intros bound Hp Hb Hmax.
      destruct (lsh_split_line_returns bound line2 _ w2 Hline2 Hp) as
        (w3 & mem2 & args2 & Hret); [|exact Hmax|].
      { rewrite Hw. unfold wds. rewrite length_map. exact Hb. }
      rewrite Hret in Hrun2. injection Hrun2 as _ <-. eexists _, _. reflexivity.
  - intros bound Hp Hb Hmax.
    destruct (lsh_split_line_returns bound line _ w Hline Hp) as
      (w1 & mem & args & Hret); [rewrite Hn; exact Hb | exact Hmax |].
    rewrite Hret in Hrun. injection Hrun as _ <-. eexists _, _. reflexivity.
Qed.

(** A line of 64 words, which fills the first vector. *)
Lemma split_line_round_trip_witness :
  let lead := lit "  " in
  let items := replicate 64 (lit "ls", ["009"%char; " "%char]) in
  let line := line_of (lead ++ words_and_gaps items) in
  let w := demo_world 1024 [] [] in
  match snd (lsh_split_line line w) with
  | Ret (mem, args) =>
      argv_strings mem args = Some (replicate 64 (lit "ls"))
  | Stop _ => False
  end.
Proof.
  intros lead items line w.
  destruct (lsh_split_line line w) as [w' r] eqn:E.
  assert (Hline : cstr_at line 0 = Some (lead ++ words_and_gaps items))
    by (vm_compute; reflexivity).
  assert (Hl : is_gap lead) by (repeat constructor).
  assert (Hi : well_spaced items).
  { apply well_spaced_replicate.
    - split; [discriminate | repeat constructor].
    - repeat constructor.
    - discriminate. }
  destruct (split_line_round_trip lead items line w w' r Hl Hi Hline E)
    as (_ & Hr & Hret).
  destruct (Hret 1024) as (mem & args & ->).
  - apply demo_plenty.
  - vm_compute. discriminate.
  - reflexivity.
  - destruct Hr as (Hstrs & _). cbn [snd]. rewrite Hstrs. reflexivity.
Defined.

(** C5.  [lsh_cd] with no second argument writes exactly one message, the
    usage error, to the error stream and changes nothing else, the working
    directory included, nor asks anything of the system.  With a second
    argument that the system refuses to change to, it writes the system's
    error to the error stream and leaves the working directory as it was.
    It returns 1 in these cases, and in every case on a vector of the
    tokenizer. *)
Theorem lsh_cd_errors :
  (forall mem args w,
      args !! 1%nat = Some (Some NULL) ->
      lsh_cd mem args w = (set_stderr (w_stderr w ++ [cd_usage]) w, Ret 1)) /\
  (forall mem args w p path e,
      args !! 1%nat = Some (Some (At p)) ->
      cstr_at mem p = Some path ->
      env_chdir (w_env w) (w_cwd w) path = inr e ->
      exists w',
        lsh_cd mem args w = (w', Ret 1) /\
        w_stderr w' = w_stderr w ++ [perror_line w e] /\
        w_cwd w' = w_cwd w /\ w_stdout w' = w_stdout w /\
        w_calls w' = w_calls w ++ [SysChdir path]) /\
  (forall mem args t toks w,
      argv_wf mem args (t :: toks) ->
      exists w', lsh_cd mem args w = (w', Ret 1)).
Proof.
  split; [|split].
  - intros mem args w H. apply lsh_cd_no_argument.
    apply (load_lookup args 1 NULL w H).
  - intros mem args w p path e H Hp He.
    rewrite (lsh_cd_refused mem args w p path e (load_lookup args 1 _ w H) Hp He).
    eexists. split; [reflexivity|]. repeat split.
  - intros mem args t toks w Hwf.
    destruct (lsh_cd_outcome mem args t toks w Hwf) as (w' & H & _).
    exists w'. exact H.
Qed.

Lemma lsh_cd_errors_witness :
  let w := demo_world 65536 [] [] in
  lsh_cd (line_of (lit "cd")) [Some (At 0); Some NULL] w
    = (set_stderr [cd_usage] w, Ret 1) /\
  (exists w',
      lsh_cd [Some "c"; Some "d"; Some NUL; Some "/"; Some "x"; Some NUL]%char
             [Some (At 0); Some (At 3); Some NULL] w = (w', Ret 1) /\
      w_stderr w' = [lit "lsh: No such file or directory" ++ nl] /\
      w_cwd w' = lit "/home").
Proof.
  intros w. split.
  - exact (proj1 lsh_cd_errors (line_of (lit "cd")) [Some (At 0); Some NULL] w eq_refl).
  - destruct (proj1 (proj2 lsh_cd_errors)
                [Some "c"; Some "d"; Some NUL; Some "/"; Some "x"; Some NUL]%char
                [Some (At 0); Some (At 3); Some NULL] w 3 (lit "/x") ENOENT
                eq_refl eq_refl eq_refl) as (w' & H1 & H2 & H3 & _).
    exists w'. split; [exact H1|]. split; [exact H2 | exact H3].
Defined.

(** C10.  [lsh_cd] with a second argument that the system accepts changes
    the working directory and nothing a user can see besides: standard
    output and standard error are left as they were, and 1 is returned. *)
Theorem lsh_cd_success_is_silent :
  forall mem args w p path dir,
    args !! 1%nat = Some (Some (At p)) ->
    cstr_at mem p = Some path ->
    env_chdir (w_env w) (w_cwd w) path = inl dir ->
    lsh_cd mem args w
      = (set_cwd dir (set_calls (w_calls w ++ [SysChdir path]) w), Ret 1) /\
    let w' := fst (lsh_cd mem args w) in
    w_cwd w' = dir /\ w_stdout w' = w_stdout w /\ w_stderr w' = w_stderr w /\
    w_stdin w' = w_stdin w /\ w_errno w' = w_errno w.
Proof.
  intros mem args w p path dir H Hp He.
  rewrite (lsh_cd_changes mem args w p path dir (load_lookup args 1 _ w H) Hp He).
  split; [reflexivity|]. repeat split.
Qed.

Lemma lsh_cd_success_is_silent_witness :
  let w := demo_world 65536 [] [] in
  let mem := [Some "c"; Some "d"; Some NUL; Some "/"; Some "t"; Some "m"; Some "p";
              Some NUL]%char in
  let w' := fst (lsh_cd mem [Some (At 0); Some (At 3); Some NULL] w) in
  w_cwd w' = lit "/tmp" /\ w_stdout w' = [] /\ w_stderr w' = [].
Proof.
  intros w mem w'.
  destruct (lsh_cd_success_is_silent mem [Some (At 0); Some (At 3); Some NULL] w 3
              (lit "/tmp") (lit "/tmp") eq_refl eq_refl eq_refl)
    as (_ & H1 & H2 & H3 & _).
  exact (conj H1 (conj H2 H3)).
Defined.

(** C6.  When the first entry of the vector is the null pointer, the
    dispatcher returns 1 and leaves the world as it was, whatever the
    handlers and the launcher are: none of them is called, nothing is
    printed, no process is made.  Such is the vector of every line that is
    empty or made of delimiters only. *)
Theorem empty_command_is_skipped :
  (forall count names handlers launch mem args w,
      args !! 0%nat = Some (Some NULL) ->
      execute count names handlers launch mem args w = (w, Ret 1)) /\
  (forall mem args w,
      args !! 0%nat = Some (Some NULL) ->
      lsh_execute mem args w = (w, Ret 1)) /\
  (forall line s w w' mem args,
      cstr_at line 0 = Some s -> is_gap s ->
      lsh_split_line line w = (w', Ret (mem, args)) ->
      args !! 0%nat = Some (Some NULL) /\
      lsh_execute mem args w' = (w', Ret 1)).
Proof.
  assert (H0 : forall count names handlers launch mem (args : array ptr) w,
             args !! 0%nat = Some (Some NULL) ->
             execute count names handlers launch mem args w = (w, Ret 1)).
  { intros count names handlers launch mem args w H.
    apply execute_no_command. apply (load_lookup args 0 NULL w H). }
  split; [exact H0|]. split.
  - intros mem args w H. apply H0, H.
  - intros line s w w' mem args Hline Hgap Hrun.
    apply (lsh_split_line_spec _ _ _ _ _ Hline) in Hrun as (_ & _ & _ & Hwf & _).
    pose proof (argv_wf_lookup_sentinel _ _ _ Hwf) as H.
    rewrite (gap_no_tokens s Hgap) in H. cbn [length] in H.
    split; [exact H | apply H0, H].
Qed.

Lemma empty_command_is_skipped_witness :
  let w := demo_world 65536 [] [ForkChild None] in
  lsh_execute (line_of (lit "   ")) [Some NULL] w = (w, Ret 1) /\
  match lsh_split_line (line_of (lit "   ")) w with
  | (w', Ret (mem, args)) => lsh_execute mem args w' = (w', Ret 1)
  | (_, Stop _) => False
  end.
Proof.
  intros w. split.
  - exact (proj1 (proj2 empty_command_is_skipped) (line_of (lit "   ")) [Some NULL] w
             eq_refl).
  - destruct (lsh_split_line (line_of (lit "   ")) w) as [w' [[mem args]|st]] eqn:E;
      [|exfalso; revert E; vm_compute; discriminate].
    refine (proj2 (proj2 (proj2 empty_command_is_skipped) _ (lit "   ") w w' mem args
                     _ _ E)).
    + vm_compute; reflexivity.
    + repeat constructor.
Defined.

(** C9.  When the first entry of the vector is the string "exit", whatever
    follows it, the dispatcher calls the third handler of the table, which
    is [lsh_exit]; [lsh_exit] returns 0 and leaves the world as it was for
    every vector it is given, so it reads none; the arguments after "exit"
    change nothing. *)
Theorem exit_ignores_arguments :
  forall mem args p w,
    args !! 0%nat = Some (Some (At p)) ->
    cstr_at mem p = Some (lit "exit") ->
    (forall h_cd h_help h_exit launch,
        execute lsh_num_builtins builtin_str [h_cd; h_help; h_exit] launch mem args w
        = h_exit mem args w) /\
    lsh_execute mem args w = lsh_exit mem args w /\
    (forall mem' args' w0, lsh_exit mem' args' w0 = (w0, Ret 0)) /\
    lsh_execute mem args w = (w, Ret 0).
Proof.
  intros mem args p w H Hp.
  assert (Hx : forall h_cd h_help h_exit launch,
             execute lsh_num_builtins builtin_str [h_cd; h_help; h_exit] launch mem args w
             = h_exit mem args w).
  { intros h_cd h_help h_exit launch.
    rewrite (execute_command h_cd h_help h_exit launch mem args p (lit "exit") w
               (load_lookup args 0 _ w H) Hp).
    reflexivity. }
  split; [exact Hx|]. split; [apply Hx|]. split; [reflexivity|].
  unfold lsh_execute, builtin_func. rewrite Hx. reflexivity.
Qed.

Lemma exit_ignores_arguments_witness :
  let w := demo_world 65536 [] [ForkChild None] in
  let mem := [Some "e"; Some "x"; Some "i"; Some "t"; Some NUL; Some "1"; Some NUL]%char in
  lsh_execute mem [Some (At 0); Some (At 5); Some NULL] w = (w, Ret 0).
Proof.
  intros w mem.
  exact (proj2 (proj2 (proj2
    (exit_ignores_arguments mem [Some (At 0); Some (At 5); Some NULL] 0 w
       eq_refl eq_refl)))).
Defined.

Lemma leading_stops_lookup evs ev :
  evs !! leading_stops evs = Some ev -> is_stop ev = false.
Proof.
  induction evs as [|[code|sig core|sig] evs IH]; cbn [leading_stops].
  - discriminate.
  - intros [= <-]. reflexivity.
  - intros [= <-]. reflexivity.
  - exact IH.
Qed.

Lemma only_stops_never_end evs :
  Forall (fun ev => is_stop ev = true) evs -> ends evs = false.
Proof.
  induction 1 as [|ev evs Hev _ IH]; [reflexivity|].
  cbn [ends existsb]. rewrite Hev. exact IH.
Qed.

(** C7.  In the parent, [lsh_launch] waits for the very child it made, with
    [WUNTRACED] at every call, once more than the child stops before it
    ends: the status of a stop, which [WIFSTOPPED] knows, never ends the
    loop; the report that does is that of a normal exit or of a death by
    signal.  So [lsh_launch] returns, with 1, exactly when the child ever
    ends, and is still waiting for a child that only stops. *)
Theorem wait_goes_through_stops :
  forall mem args w pid evs rest,
    w_forks w = ForkParent pid evs :: rest ->
    Forall valid_event evs ->
    exists w',
      lsh_launch mem args w = (w', if ends evs then Ret 1 else Stop Blocked) /\
      w_calls w' = w_calls w
                     ++ SysFork :: replicate (S (leading_stops evs))
                                     (SysWaitpid (Z.pos pid) WUNTRACED) /\
      (forall sig, WIFSTOPPED (wstatus (ChildStopped sig)) = true /\
                   ends_wait (wstatus (ChildStopped sig)) = false) /\
      (forall ev, evs !! leading_stops evs = Some ev ->
                  is_stop ev = false /\ ends_wait (wstatus ev) = true) /\
      (Forall (fun ev => is_stop ev = true) evs ->
       lsh_launch mem args w = (w', Stop Blocked)).
Proof.
  intros mem args w pid evs rest Hf Hvalid.
  destruct (lsh_launch_parent mem args w pid evs rest Hf Hvalid)
    as (w' & Hrun & _ & _ & _ & _ & _ & Hcalls).
  exists w'. split; [exact Hrun|]. split; [exact Hcalls|].
  split; [intros sig; split; [apply stopped_is_stopped | apply stopped_goes_on]|].
  split.
  - intros ev Hev. pose proof (leading_stops_lookup _ _ Hev) as Hstop.
    split; [exact Hstop|].
    rewrite valid_event_ends, Hstop; [reflexivity|].
    rewrite Forall_forall in Hvalid. apply Hvalid.
    eapply list_elem_of_lookup_2, Hev.
  - intros Hstops. rewrite Hrun, (only_stops_never_end _ Hstops). reflexivity.
Qed.

Lemma wait_goes_through_stops_witness :
  let stopped := demo_world 65536 [] [ForkParent 7 [ChildStopped 19; ChildStopped 20]] in
  let killed := demo_world 65536 [] [ForkParent 7 [ChildStopped 19; ChildSignaled 9 false]] in
  let mem := line_of (lit "vi") in
  let args := [Some (At 0); Some NULL] in
  snd (lsh_launch mem args stopped) = Stop Blocked /\
  w_calls (fst (lsh_launch mem args stopped))
    = [SysFork; SysWaitpid 7 2; SysWaitpid 7 2; SysWaitpid 7 2] /\
  snd (lsh_launch mem args killed) = Ret 1 /\
  w_calls (fst (lsh_launch mem args killed)) = [SysFork; SysWaitpid 7 2; SysWaitpid 7 2].
Proof.
  intros stopped killed mem args.
  destruct (wait_goes_through_stops mem args stopped 7
              [ChildStopped 19; ChildStopped 20] [] eq_refl)
    as (w1 & H1 & C1 & _).
  { repeat constructor. }
  destruct (wait_goes_through_stops mem args killed 7
              [ChildStopped 19; ChildSignaled 9 false] [] eq_refl)
    as (w2 & H2 & C2 & _).
  { constructor; [exact I|]. constructor; [simpl; split; discriminate|].
    constructor. }
  rewrite H1, H2. cbn [fst snd]. rewrite C1, C2.
  repeat split.
Defined.

(** C1.  On the vector the tokenizer makes of a line, with a kernel that
    reports only what it can, the dispatcher ends as [expected_status]
    tells: it returns 0 if and only if the first token is "exit"; no token,
    [cd] and [help] give 1; an external command gives 1 as soon as its
    launch returns, which it does unless the child never ends (or the
    process followed is the child).  No other status is ever returned.  So
    a turn of the loop that yields a status ends the loop exactly when that
    status is 0, that is when the command read was "exit". *)
Theorem status_zero_iff_exit :
  (forall line s w w1 mem args w2 r,
      cstr_at line 0 = Some s ->
      kernel_ok w ->
      lsh_split_line line w = (w1, Ret (mem, args)) ->
      lsh_execute mem args w1 = (w2, r) ->
      r = expected_status (tokens_of s) (w_forks w) /\
      (r = Ret 0 <-> head (tokens_of s) = Some (lit "exit")) /\
      (forall status, r = Ret status -> status = 0 \/ status = 1)) /\
  (forall fuel w w' status,
      kernel_ok w ->
      loop_body w = (w', Ret status) ->
      let toks := tokens_of (c_str (fst (first_line (w_stdin w)))) in
      (status = 0 <-> head toks = Some (lit "exit")) /\
      (status = 0 \/ status = 1) /\
      lsh_loop (S fuel) w
        = if status =? 0 then (w', Ret tt) else lsh_loop fuel w').
Proof.
  split.
  - intros line s w w1 mem args w2 r Hline Hk Hsplit Hexec.
    apply (lsh_split_line_spec _ _ _ _ _ Hline) in Hsplit as (_ & Hp & _ & Hwf & _).
    assert (Hk1 : kernel_ok w1).
    { unfold kernel_ok. destruct Hp as (_ & _ & -> & _). exact Hk. }
    pose proof (lsh_execute_expected _ _ _ _ _ _ Hwf Hk1 Hexec) as Hr.
    destruct Hp as (_ & _ & Hf & _). rewrite Hf in Hr.
    split; [exact Hr|]. split.
    + rewrite Hr. apply expected_status_exit. eapply argv_wf_no_NUL, Hwf.
    + intros status Hs. rewrite Hr in Hs. eapply expected_status_values, Hs.
  - intros fuel w w' status Hk Hbody toks.
    pose proof (lsh_loop_step fuel _ _ _ Hbody) as Hstep.
    apply loop_body_inv in Hbody.
    destruct Hbody as [(Hr & _)|(w2 & mem & args & Hwf & Hf & _ & _ & Hexec)];
      [discriminate|].
    assert (Hk2 : kernel_ok w2) by (unfold kernel_ok; rewrite Hf; exact Hk).
    pose proof (lsh_execute_expected _ _ _ _ _ _ Hwf Hk2 Hexec) as Hr.
    fold toks in Hwf, Hr. symmetry in Hr.
    split; [|split; [eapply expected_status_values, Hr | exact Hstep]].
    rewrite <- (expected_status_exit toks (w_forks w2)) by (eapply argv_wf_no_NUL, Hwf).
    rewrite Hr. split; [now intros -> | now intros [= ->]].
Qed.

Lemma status_zero_iff_exit_witness :
  let w := demo_world 65536 (lit "exit now" ++ nl ++ lit "ls" ++ nl) [] in
  snd (loop_body w) = Ret 0 /\ snd (lsh_loop 1 w) = Ret tt.
Proof.
  intros w.
  destruct (loop_body w) as [w' r] eqn:E.
  assert (Hr : r = Ret 0).
  { change r with (snd (w', r)). rewrite <- E. vm_compute. reflexivity. }
  subst r. split; [reflexivity|].
  destruct (proj2 status_zero_iff_exit 0%nat w w' 0) as (_ & _ & Hloop).
  - constructor.
  - exact E.
  - rewrite Hloop. reflexivity.
Defined.




(* ===================================================================== *)
(** * Further properties of the code *)
(* ===================================================================== *)

(** X1.  [lsh_read_line] with memory for the buffer it ends with (the first
    multiple of 1024 above the length of the line) always returns: it takes
    from the input the characters up to the first newline and the newline
    itself, or everything when there is no newline left, and the buffer it
    returns holds them as a C string, which a NUL character among them cuts
    short.  It prints nothing and makes no system call. *)
Theorem read_line_returns_the_line :
  forall bound w line rest,
    ~ In "010"%char line ->
    w_stdin w = line ++ "010"%char :: rest \/ w_stdin w = line /\ rest = [] ->
    plenty bound w ->
    1024 * (Z.of_nat (length line) / 1024 + 1) <= bound ->
    bound < 2 ^ 31 ->
    exists w' buffer,
      lsh_read_line w = (w', Ret buffer) /\
      cstr_at buffer 0 = Some (c_str line) /\
      w_stdin w' = rest /\
      w_stdout w' = w_stdout w /\ w_stderr w' = w_stderr w /\
      w_cwd w' = w_cwd w /\ w_calls w' = w_calls w.
Proof.
  intros bound w line rest Hn Hin Hp Hb Hmax.
  pose proof (first_line_of_input _ _ _ Hn Hin) as Hfl.
  destruct (lsh_read_line_returns bound w Hp) as (w' & buffer & Hrun);
    [rewrite Hfl; exact Hb | exact Hmax |].
  pose proof (lsh_read_line_spec _ _ _ Hrun) as (_ & Hsame & Hin' & Herr & Hbuf & _).
  rewrite Hfl in Hin', Hbuf. cbn [fst snd] in Hin', Hbuf.
  apply reader_buffer_cstr in Hbuf.
  destruct Hsame as (_ & _ & _ & _ & Hcwd & Hout & Hcalls).
  exists w', buffer. repeat split; assumption.
Qed.

Lemma read_line_returns_the_line_witness :
  exists w' buffer,
    lsh_read_line (demo_world 1024 (lit "ls -l" ++ nl ++ lit "exit" ++ nl) [])
      = (w', Ret buffer) /\
    cstr_at buffer 0 = Some (lit "ls -l") /\
    w_stdin w' = lit "exit" ++ nl.
Proof.
  destruct (read_line_returns_the_line 1024
              (demo_world 1024 (lit "ls -l" ++ nl ++ lit "exit" ++ nl) [])
              (lit "ls -l") (lit "exit" ++ nl))
    as (w' & buffer & Hrun & Hstr & Hin & _).
  - vm_compute. intuition discriminate.
  - left. reflexivity.
  - apply demo_plenty.
  - vm_compute. discriminate.
  - reflexivity.
  - exists w', buffer. repeat split; assumption.
Defined.

(** X2.  [lsh_split_line] with memory for the vector it ends with (64
    pointers, and 64 more for every 64 tokens) always returns the vector of
    the line's tokens; it reads no input, prints nothing and makes no
    system call. *)
Theorem split_line_returns_the_tokens :
  forall bound line s w,
    cstr_at line 0 = Some s ->
    plenty bound w ->
    512 * (Z.of_nat (length (tokens_of s)) / 64 + 1) <= bound ->
    bound < 2 ^ 31 ->
    exists w' mem args,
      lsh_split_line line w = (w', Ret (mem, args)) /\
      argv_wf mem args (tokens_of s) /\
      w_stdin w' = w_stdin w /\ w_stdout w' = w_stdout w /\
      w_stderr w' = w_stderr w /\ w_cwd w' = w_cwd w /\ w_calls w' = w_calls w.
Proof.
  intros bound line s w Hline Hp Hb Hmax.
  destruct (lsh_split_line_returns bound line s w Hline Hp Hb Hmax)
    as (w' & mem & args & Hrun).
  pose proof (lsh_split_line_spec _ _ _ _ _ Hline Hrun) as (_ & Hsame & Herr & Hwf & _).
  pose proof (lsh_split_line_frame _ _ _ _ Hrun) as (_ & Hin & _).
  destruct Hsame as (_ & _ & _ & _ & Hcwd & Hout & Hcalls).
  exists w', mem, args. repeat split; assumption.
Qed.

Lemma split_line_returns_the_tokens_witness :
  exists w' mem args,
    lsh_split_line (line_of (lit "cd  /tmp"))
      (demo_world 512 (lit "exit" ++ nl) []) = (w', Ret (mem, args)) /\
    argv_wf mem args [lit "cd"; lit "/tmp"] /\
    w_stdin w' = lit "exit" ++ nl.
Proof.
  destruct (split_line_returns_the_tokens 512 (line_of (lit "cd  /tmp"))
              (lit "cd  /tmp") (demo_world 512 (lit "exit" ++ nl) []))
    as (w' & mem & args & Hrun & Hwf & Hin & _).
  - reflexivity.
  - apply demo_plenty.
  - vm_compute. discriminate.
  - reflexivity.
  - exists w', mem, args. repeat split; assumption.
Defined.

(** X3.  [lsh_split_line] copies nothing: the only cells of the line it
    changes are delimiters, overwritten with terminators, and every pointer
    of the vector points into the line, at a place where the token stood
    before the call, followed there by a delimiter or by the line's
    terminator. *)
Theorem tokens_are_slices_of_the_line :
  forall line s w w' mem args,
    cstr_at line 0 = Some s ->
    lsh_split_line line w = (w', Ret (mem, args)) ->
    cut_at_delimiters line mem /\
    length mem = length line /\
    exists ptrs,
      take (S (length (tokens_of s))) args
        = map (fun q => Some (At q)) ptrs ++ [Some NULL] /\
      Forall2 (fun q t =>
                 0 <= q /\
                 take (length t) (drop (Z.to_nat q) line) = map Some t /\
                 exists c, line !! (Z.to_nat q + length t)%nat = Some (Some c) /\
                           (c = NUL \/ is_delim c = true))
              ptrs (tokens_of s).
Proof.
  intros line s w w' mem args Hline Hrun.
  pose proof (lsh_split_line_spec _ _ _ _ _ Hline Hrun) as (_ & _ & _ & Hwf & _).
  pose proof (lsh_split_line_frame _ _ _ _ Hrun) as (_ & _ & Hcut).
  specialize (Hcut mem args eq_refl).
  split; [exact Hcut|]. split; [symmetry; eapply Forall2_length, Hcut|].
  destruct Hwf as (ptrs & HF & Htake). exists ptrs. split; [exact Htake|].
  eapply Forall2_impl; [exact HF|].
  intros q t Hq. eapply cut_string; eassumption.
Qed.

Lemma tokens_are_slices_of_the_line_witness :
  let line := line_of (lit "cd  /tmp") in
  match snd (lsh_split_line line (demo_world 512 [] [])) with
  | Ret (mem, args) => cut_at_delimiters line mem /\ length mem = length line
  | Stop _ => False
  end.
Proof.
  intros line.
  destruct (lsh_split_line line (demo_world 512 [] [])) as [w' [[mem args]|st]] eqn:E;
    [|exfalso; revert E; vm_compute; discriminate].
  assert (Hline : cstr_at line 0 = Some (lit "cd  /tmp")) by (vm_compute; reflexivity).
  destruct (tokens_are_slices_of_the_line line _ _ w' mem args Hline E)
    as (Hcut & Hlen & _).
  exact (conj Hcut Hlen).
Defined.

(** X4.  A turn of [lsh_loop] with memory for the line and for its tokens:
    the prompt is printed, exactly one line of input is consumed, and the
    turn ends as [lsh_execute] does on the vector of the tokens of that
    line, cut at its first NUL character if it has one; up to the dispatch
    nothing else is printed and no system call is made. *)
Theorem turn_dispatches_the_line :
  forall bound w,
    let line := fst (first_line (w_stdin w)) in
    let toks := tokens_of (c_str line) in
    plenty bound w ->
    1024 * (Z.of_nat (length line) / 1024 + 1) <= bound ->
    512 * (Z.of_nat (length toks) / 64 + 1) <= bound ->
    bound < 2 ^ 31 ->
    exists w2 mem args,
      loop_body w = lsh_execute mem args w2 /\
      argv_wf mem args toks /\
      w_stdin w2 = snd (first_line (w_stdin w)) /\
      w_stdout w2 = w_stdout w ++ [lit "> "] /\
      w_stderr w2 = w_stderr w /\
      w_cwd w2 = w_cwd w /\ w_calls w2 = w_calls w /\ w_forks w2 = w_forks w.
Proof.
  intros bound w line toks Hp Hb1 Hb2 Hmax.
  destruct (loop_body_turn bound w Hp Hb1 Hb2 Hmax) as
    (w2 & mem & args & Hrun & Hwf & H1 & H2 & H3 & _ & H5 & H6 & H7 & _).
  exists w2, mem, args. repeat split; assumption.
Qed.

Lemma turn_dispatches_the_line_witness :
  let w := demo_world 1024 (lit "cd /tmp" ++ nl ++ lit "exit" ++ nl) [] in
  exists w2 mem args,
    loop_body w = lsh_execute mem args w2 /\
    argv_wf mem args [lit "cd"; lit "/tmp"] /\
    w_stdin w2 = lit "exit" ++ nl.
Proof.
  intros w.
  destruct (turn_dispatches_the_line 1024 w) as
    (w2 & mem & args & Hrun & Hwf & Hin & _).
  - apply demo_plenty.
  - vm_compute. discriminate.
  - vm_compute. discriminate.
  - reflexivity.
  - exists w2, mem, args. repeat split; assumption.
Defined.

(** A turn at the end of the input: the empty command, or the fatal exit. *)
Lemma loop_body_eof w w' r :
  w_stdin w = [] ->
  loop_body w = (w', r) ->
  w_stdout w' = w_stdout w ++ [lit "> "] /\ w_calls w' = w_calls w /\
  w_env w' = w_env w /\
  (r = Ret 1 /\ w_stdin w' = [] /\ w_stderr w' = w_stderr w \/
   r = Stop (Exit EXIT_FAILURE) /\ w_stderr w' = w_stderr w ++ [allocation_error]).
Proof.
  intros Hin Hrun. unfold loop_body in Hrun.
  unfold bind at 1 in Hrun. unfold print_out at 1 in Hrun.
  set (p := set_stdout _ w) in Hrun.
  assert (Hpo : w_stdout p = w_stdout w ++ [lit "> "]) by reflexivity.
  assert (Hpc : w_calls p = w_calls w) by reflexivity.
  assert (Hpe : w_env p = w_env w) by reflexivity.
  assert (Hpr : w_stderr p = w_stderr w) by reflexivity.
  assert (Hpi : w_stdin p = []) by exact Hin.
  unfold bind at 1 in Hrun.
  destruct (lsh_read_line p) as [w1 r1] eqn:Hread.
  apply lsh_read_line_spec in Hread as (_ & Hp1 & Hr1).
  destruct Hp1 as (He1 & _ & _ & _ & _ & Ho1 & Hc1).
  destruct r1 as [buf|[status| | | |]]; try contradiction.
  2:{ injection Hrun as <- <-. destruct Hr1 as (-> & Herr & _).
      repeat split; try congruence. right. split; [reflexivity|congruence]. }
  destruct Hr1 as (Hin1 & Herr1 & Hbuf & _).
  rewrite Hpi in Hin1, Hbuf. cbn [first_line fst snd] in Hin1, Hbuf.
  apply reader_buffer_cstr in Hbuf. cbn [c_str] in Hbuf.
  unfold bind at 1 in Hrun.
  destruct (lsh_split_line buf w1) as [w2 r2] eqn:Hsplit.
  pose proof (lsh_split_line_frame _ _ _ _ Hsplit) as (_ & Hin2 & _).
  apply (lsh_split_line_spec _ _ _ _ _ Hbuf) in Hsplit as (_ & Hp2 & Hr2).
  destruct Hp2 as (He2 & _ & _ & _ & _ & Ho2 & Hc2).
  destruct r2 as [[mem args]|[status| | | |]]; try contradiction.
  2:{ injection Hrun as <- <-. destruct Hr2 as (-> & Herr & _).
      repeat split; try congruence. right. split; [reflexivity|congruence]. }
  destruct Hr2 as (Herr2 & Hwf & _). cbn [tokens_of] in Hwf.
  unfold bind at 1 in Hrun. rewrite (lsh_execute_empty _ _ _ Hwf) in Hrun.
  unfold bind, free, ret in Hrun. injection Hrun as <- <-.
  repeat split; try congruence. left. repeat split; congruence.
Qed.

(** At the end of the input the loop goes on until an allocation fails. *)
Lemma lsh_loop_eof fuel :
  forall w w' r,
    w_stdin w = [] ->
    lsh_loop fuel w = (w', r) ->
    w_calls w' = w_calls w /\
    exists turns,
      (turns <= fuel)%nat /\
      w_stdout w' = w_stdout w ++ replicate turns (lit "> ") /\
      (r = Stop OutOfFuel /\ turns = fuel /\ w_stderr w' = w_stderr w \/
       r = Stop (Exit EXIT_FAILURE) /\
       w_stderr w' = w_stderr w ++ [allocation_error]).
Proof.
  induction fuel as [|fuel IH]; intros w w' r Hin Hrun.
  { injection Hrun as <- <-. split; [reflexivity|]. exists 0%nat.
    cbn [replicate]. rewrite app_nil_r. split; [lia|]. split; [reflexivity|].
    left. repeat split. }
  cbn [lsh_loop] in Hrun. unfold bind in Hrun.
  destruct (loop_body w) as [w1 r1] eqn:Hbody.
  apply (loop_body_eof _ _ _ Hin) in Hbody as (Hout & Hcalls & _ & Hr1).
  destruct Hr1 as [(-> & Hin1 & Herr1)|(-> & Herr1)].
  - cbn [Z.eqb negb] in Hrun.
    apply (IH _ _ _ Hin1) in Hrun as (Hcalls' & turns & Hle & Hout' & Hr).
    split; [congruence|]. exists (S turns). split; [lia|].
    split; [rewrite Hout', Hout, <- app_assoc; reflexivity|].
    destruct Hr as [(-> & -> & Herr')|(-> & Herr')]; [left|right].
    + repeat split. congruence.
    + split; [reflexivity|]. congruence.
  - injection Hrun as <- <-. split; [exact Hcalls|]. exists 1%nat.
    split; [lia|]. split; [exact Hout|]. right. split; [reflexivity | exact Herr1].
Qed.

(** With memory for the empty line, no turn at the end of the input is the
    last. *)
Lemma lsh_loop_at_eof fuel :
  forall w,
    w_stdin w = [] -> plenty 1024 w ->
    exists w',
      lsh_loop fuel w = (w', Stop OutOfFuel) /\
      w_stdin w' = [] /\
      w_stdout w' = w_stdout w ++ replicate fuel (lit "> ") /\
      w_stderr w' = w_stderr w /\ w_cwd w' = w_cwd w /\ w_calls w' = w_calls w.
Proof.
  induction fuel as [|fuel IH]; intros w Hin Hp.
  { exists w. cbn [replicate]. rewrite app_nil_r. repeat split; assumption. }
  destruct (loop_body_at_eof w Hin Hp) as (w1 & Hbody & Hin1 & Hout1 & Herr1 & He1 & Hc1 & Hs1).
  destruct (IH w1 Hin1) as (w' & Hloop & Hin' & Hout' & Herr' & Hc' & Hs').
  { eapply plenty_env; eassumption. }
  exists w'. rewrite (lsh_loop_step fuel _ _ _ Hbody). cbn [Z.eqb].
  split; [exact Hloop|]. split; [exact Hin'|].
  split; [rewrite Hout', Hout1, <- app_assoc; reflexivity|].
  repeat split; congruence.
Qed.

(** X5.  At the end of the input [main] never returns: [getchar] keeps
    returning [EOF], which the reader takes for the end of an empty line, so
    every turn prints the prompt, reads the empty command and goes on, and
    no system call is made.  For every allocator, after the turns allowed
    either [main] is still running, having printed one prompt for each of
    them and nothing on the error stream, or it has ended by
    [exit(EXIT_FAILURE)] with the message of a refused allocation; and with
    an allocator that serves every request of up to 1024 bytes, all that
    these turns ask for, it is still running, however many turns are
    allowed. *)
Theorem prompts_forever_at_end_of_input :
  (forall fuel w w' r,
      w_stdin w = [] ->
      main fuel w = (w', r) ->
      w_calls w' = w_calls w /\
      exists turns,
        (turns <= fuel)%nat /\
        w_stdout w' = w_stdout w ++ replicate turns (lit "> ") /\
        (r = Stop OutOfFuel /\ turns = fuel /\ w_stderr w' = w_stderr w \/
         r = Stop (Exit EXIT_FAILURE) /\
         w_stderr w' = w_stderr w ++ [allocation_error])) /\
  (forall fuel w,
      w_stdin w = [] ->
      plenty 1024 w ->
      exists w',
        main fuel w = (w', Stop OutOfFuel) /\
        w_stdout w' = w_stdout w ++ replicate fuel (lit "> ") /\
        w_stderr w' = w_stderr w /\ w_calls w' = w_calls w).
Proof.
  split.
  - intros fuel w w' r Hin Hrun. unfold main, bind in Hrun.
    destruct (lsh_loop fuel w) as [w1 r1] eqn:Hloop.
    apply (lsh_loop_eof _ _ _ _ Hin) in Hloop as (Hcalls & turns & Hle & Hout & Hr).
    destruct Hr as [(-> & Ht & Herr)|(-> & Herr)]; injection Hrun as <- <-;
      (split; [exact Hcalls|]); exists turns;
      (split; [exact Hle|]); (split; [exact Hout|]); [left|right]; tauto.
  - intros fuel w Hin Hp.
    destruct (lsh_loop_at_eof fuel w Hin Hp)
      as (w' & Hloop & _ & Hout & Herr & _ & Hcalls).
    exists w'. unfold main, bind. rewrite Hloop. repeat split; assumption.
Qed.

Lemma prompts_forever_at_end_of_input_witness :
  (exists w',
      main 5 (demo_world 1024 [] []) = (w', Stop OutOfFuel) /\
      w_stdout w' = replicate 5 (lit "> ")) /\
  (exists turns,
      (turns <= 3)%nat /\
      w_stdout (fst (main 3 (demo_world (-1) [] []))) = replicate turns (lit "> ")).
Proof.
  split.
  - destruct (proj2 prompts_forever_at_end_of_input 5%nat (demo_world 1024 [] []))
      as (w' & Hrun & Hout & _).
    + reflexivity.
    + apply demo_plenty.
    + exists w'. split; [exact Hrun | exact Hout].
  - destruct (main 3 (demo_world (-1) [] [])) as [w' r] eqn:E.
    destruct (proj1 prompts_forever_at_end_of_input 3%nat (demo_world (-1) [] [])
                w' r eq_refl E) as (_ & turns & Hle & Hout & _).
    exists turns. split; [exact Hle | exact Hout].
Defined.

(** X6.  When the first token of the next line is [exit], whatever follows
    it on the line, [main] returns [EXIT_SUCCESS] after that one turn: one
    prompt is printed, the rest of the input is left unread, nothing goes
    to the error stream and no system call is made. *)
Theorem exit_ends_the_session :
  forall bound fuel w,
    let line := fst (first_line (w_stdin w)) in
    let toks := tokens_of (c_str line) in
    head toks = Some (lit "exit") ->
    plenty bound w ->
    1024 * (Z.of_nat (length line) / 1024 + 1) <= bound ->
    512 * (Z.of_nat (length toks) / 64 + 1) <= bound ->
    bound < 2 ^ 31 ->
    exists w',
      main (S fuel) w = (w', Ret EXIT_SUCCESS) /\
      w_stdin w' = snd (first_line (w_stdin w)) /\
      w_stdout w' = w_stdout w ++ [lit "> "] /\
      w_stderr w' = w_stderr w /\ w_cwd w' = w_cwd w /\ w_calls w' = w_calls w.
Proof.
  intros bound fuel w line toks Hhead Hp Hb1 Hb2 Hmax.
  destruct (loop_body_turn bound w Hp Hb1 Hb2 Hmax) as
    (w2 & mem & args & Hrun & Hwf & H1 & H2 & H3 & _ & H5 & H6 & _).
  fold line in Hwf. fold toks in Hwf.
  destruct toks as [|t rest]; [discriminate|]. injection Hhead as ->.
  rewrite (lsh_execute_command _ _ _ _ _ Hwf) in Hrun.
  change (is_name "cd" (lit "exit")) with false in Hrun.
  change (is_name "help" (lit "exit")) with false in Hrun.
  change (is_name "exit" (lit "exit")) with true in Hrun.
  cbn iota in Hrun. unfold lsh_exit, ret in Hrun.
  exists w2. split; [|repeat split; assumption].
  unfold main. unfold bind at 1.
  rewrite (lsh_loop_step fuel _ _ _ Hrun). reflexivity.
Qed.

Lemma exit_ends_the_session_witness :
  exists w',
    main 1 (demo_world 1024 (lit "  exit now" ++ nl ++ lit "ls" ++ nl) [])
      = (w', Ret EXIT_SUCCESS) /\
    w_stdin w' = lit "ls" ++ nl /\
    w_stdout w' = [lit "> "].
Proof.
  destruct (exit_ends_the_session 1024 0
              (demo_world 1024 (lit "  exit now" ++ nl ++ lit "ls" ++ nl) []))
    as (w' & Hrun & Hin & Hout & _).
  - reflexivity.
  - apply demo_plenty.
  - vm_compute. discriminate.
  - vm_compute. discriminate.
  - reflexivity.
  - exists w'. repeat split; assumption.
Defined.

(** The lines [lsh_help] prints. *)
Lemma help_text_lines :
  [lit "Omer Hayat's LSH" ++ nl;
   lit "Type program names and arguments, and hit enter." ++ nl;
   lit "The following are built-in:" ++ nl;
   lit " cd" ++ nl; lit " help" ++ nl; lit " exit" ++ nl;
   lit "Use the man command for information on other programs." ++ nl]
  = [lit "Omer Hayat's LSH" ++ nl;
     lit "Type program names and arguments, and hit enter." ++ nl;
     lit "The following are built-in:" ++ nl]
      ++ map (fun name => lit " " ++ name ++ nl) builtin_str
      ++ [lit "Use the man command for information on other programs." ++ nl].
Proof. reflexivity. Qed.

(** X7.  When the first token of the next line is [help], whatever follows
    it, the turn prints after the prompt the three lines of the banner, one
    line for each name of [builtin_str] in the order of the table, and the
    closing line; it returns 1, so the loop goes on, and writes nothing to
    the error stream, makes no system call and starts no process. *)
Theorem help_lists_the_builtins :
  forall bound w,
    let line := fst (first_line (w_stdin w)) in
    let toks := tokens_of (c_str line) in
    head toks = Some (lit "help") ->
    plenty bound w ->
    1024 * (Z.of_nat (length line) / 1024 + 1) <= bound ->
    512 * (Z.of_nat (length toks) / 64 + 1) <= bound ->
    bound < 2 ^ 31 ->
    exists w',
      loop_body w = (w', Ret 1) /\
      w_stdout w'
        = w_stdout w
            ++ [lit "> ";
                lit "Omer Hayat's LSH" ++ nl;
                lit "Type program names and arguments, and hit enter." ++ nl;
                lit "The following are built-in:" ++ nl]
            ++ map (fun name => lit " " ++ name ++ nl) builtin_str
            ++ [lit "Use the man command for information on other programs." ++ nl] /\
      w_stdin w' = snd (first_line (w_stdin w)) /\
      w_stderr w' = w_stderr w /\ w_cwd w' = w_cwd w /\ w_calls w' = w_calls w /\
      w_forks w' = w_forks w.
Proof.
  intros bound w line toks Hhead Hp Hb1 Hb2 Hmax.
  destruct (loop_body_turn bound w Hp Hb1 Hb2 Hmax) as
    (w2 & mem & args & Hrun & Hwf & H1 & H2 & H3 & _ & H5 & H6 & H7 & _).
  fold line in Hwf. fold toks in Hwf.
  destruct toks as [|t rest]; [discriminate|]. injection Hhead as ->.
  rewrite (lsh_execute_command _ _ _ _ _ Hwf) in Hrun.
  change (is_name "cd" (lit "help")) with false in Hrun.
  change (is_name "help" (lit "help")) with true in Hrun.
  cbn iota in Hrun.
  destruct (lsh_help_spec mem args w2) as (w' & Hhelp & Hout & Herr & Hcwd & _ & _ & Hcalls).
  rewrite Hhelp in Hrun.
  assert (Hforks : w_forks w' = w_forks w2).
  { change w' with (fst (w', @Ret Z 1)). rewrite <- Hhelp. reflexivity. }
  assert (Hin : w_stdin w' = w_stdin w2).
  { change w' with (fst (w', @Ret Z 1)). rewrite <- Hhelp. reflexivity. }
  exists w'. split; [exact Hrun|].
  split.
  { rewrite Hout, H2, help_text_lines, <- !app_assoc. reflexivity. }
  repeat split; congruence.
Qed.

Lemma help_lists_the_builtins_witness :
  exists w',
    loop_body (demo_world 1024 (lit "help me" ++ nl) []) = (w', Ret 1) /\
    length (w_stdout w') = 8%nat /\
    w_stdin w' = [].
Proof.
  destruct (help_lists_the_builtins 1024 (demo_world 1024 (lit "help me" ++ nl) []))
    as (w' & Hrun & Hout & Hin & _).
  - reflexivity.
  - apply demo_plenty.
  - vm_compute. discriminate.
  - vm_compute. discriminate.
  - reflexivity.
  - exists w'. split; [exact Hrun|]. split; [rewrite Hout; reflexivity | exact Hin].
Defined.

(** X8.  [lsh_execute] chooses by the whole first token, compared exactly:
    [cd], [help] and [exit] go to [lsh_cd], [lsh_help] and [lsh_exit], and
    every other token, a builtin's name in capitals or with a character
    more included, goes to [lsh_launch]. *)
Theorem dispatch_by_exact_name :
  forall mem args t toks w,
    argv_wf mem args (t :: toks) ->
    (t = lit "cd" -> lsh_execute mem args w = lsh_cd mem args w) /\
    (t = lit "help" -> lsh_execute mem args w = lsh_help mem args w) /\
    (t = lit "exit" -> lsh_execute mem args w = lsh_exit mem args w) /\
    (~ In t builtin_str -> lsh_execute mem args w = lsh_launch mem args w).
Proof.
  intros mem args t toks w Hwf.
  rewrite (lsh_execute_command _ _ _ _ _ Hwf).
  repeat split.
  - intros ->. reflexivity.
  - intros ->. reflexivity.
  - intros ->. reflexivity.
  - intros Hnot.
    assert (Hno : ~ In NUL t).
    { pose proof (argv_wf_no_NUL _ _ _ Hwf) as H.
      apply Forall_cons_1 in H as [H _]. exact H. }
    pose proof builtin_names_no_NUL as Hb.
    apply Forall_cons_1 in Hb as (Hcd & Hb).
    apply Forall_cons_1 in Hb as (Hhelp & Hb).
    apply Forall_cons_1 in Hb as (Hexit & _).
    destruct (is_name "cd" t) eqn:E1.
    { exfalso. apply Hnot. apply (is_name_eq "cd" t Hno Hcd) in E1. subst.
      left. reflexivity. }
    destruct (is_name "help" t) eqn:E2.
    { exfalso. apply Hnot. apply (is_name_eq "help" t Hno Hhelp) in E2. subst.
      right. left. reflexivity. }
    destruct (is_name "exit" t) eqn:E3.
    { exfalso. apply Hnot. apply (is_name_eq "exit" t Hno Hexit) in E3. subst.
      right. right. left. reflexivity. }
    reflexivity.
Qed.

Lemma dispatch_by_exact_name_witness :
  let w := demo_world 1024 [] [] in
  let args := [Some (At 0); Some NULL] in
  lsh_execute (line_of (lit "CD")) args w = lsh_launch (line_of (lit "CD")) args w /\
  lsh_execute (line_of (lit "cd")) args w = lsh_cd (line_of (lit "cd")) args w.
Proof.
  intros w args. split.
  - apply (dispatch_by_exact_name (line_of (lit "CD")) args (lit "CD") [] w).
    + exists [0]. split; [repeat constructor | reflexivity].
    + vm_compute. intuition discriminate.
  - apply (dispatch_by_exact_name (line_of (lit "cd")) args (lit "cd") [] w).
    + exists [0]. split; [repeat constructor | reflexivity].
    + reflexivity.
Defined.

(** X9.  [lsh_cd] looks at its second argument only: with the same path
    there, two calls in the same state end in the same state whatever the
    first argument and the arguments after the second are, and [chdir] is
    called exactly once, with that path. *)
Theorem cd_uses_only_its_first_argument :
  forall mem args mem' args' t t' path toks toks' w,
    argv_wf mem args (t :: path :: toks) ->
    argv_wf mem' args' (t' :: path :: toks') ->
    lsh_cd mem args w = lsh_cd mem' args' w /\
    exists w',
      lsh_cd mem args w = (w', Ret 1) /\
      w_calls w' = w_calls w ++ [SysChdir path].
Proof.
  intros mem args mem' args' t t' path toks toks' w Hwf Hwf'.
  destruct (argv_wf_entry mem args (t :: path :: toks) 1 path w Hwf eq_refl)
    as (p & Hl & Hp).
  destruct (argv_wf_entry mem' args' (t' :: path :: toks') 1 path w Hwf' eq_refl)
    as (p' & Hl' & Hp').
  destruct (env_chdir (w_env w) (w_cwd w) path) as [dir|e] eqn:He.
  - rewrite (lsh_cd_changes _ _ _ _ _ _ Hl Hp He),
            (lsh_cd_changes _ _ _ _ _ _ Hl' Hp' He).
    split; [reflexivity|]. eexists. split; reflexivity.
  - rewrite (lsh_cd_refused _ _ _ _ _ _ Hl Hp He),
            (lsh_cd_refused _ _ _ _ _ _ Hl' Hp' He).
    split; [reflexivity|]. eexists. split; reflexivity.
Qed.

Lemma cd_uses_only_its_first_argument_witness :
  let w := demo_world 1024 [] [] in
  lsh_cd [Some "c"; Some "d"; Some NUL; Some "/"; Some "x"; Some NUL; Some "y"; Some NUL]%char
         [Some (At 0); Some (At 3); Some (At 6); Some NULL] w
  = lsh_cd [Some "/"; Some "x"; Some NUL]%char [Some (At 0); Some (At 0); Some NULL] w.
Proof.
  intros w.
  apply (cd_uses_only_its_first_argument _ _ _ _
           (lit "cd") (lit "/x") (lit "/x") [lit "y"] [] w).
  - exists [0; 3; 6]. split; [repeat constructor | reflexivity].
  - exists [0; 0]. split; [repeat constructor | reflexivity].
Defined.

(** X10.  The two ways [lsh_launch] fails.  When [fork] fails, the shell
    reports it with [perror] and returns 1, having called neither [execvp]
    nor [waitpid]: the loop goes on.  In the child, [execvp] is given the
    first argument as the program and the whole vector as its arguments;
    when it fails the child reports it with [perror] and exits with
    [EXIT_FAILURE], so it never comes back to the loop as a second shell;
    when it succeeds nothing of [lsh_launch] runs after it. *)
Theorem launch_reports_failures :
  (forall mem args w e rest,
      w_forks w = ForkFails e :: rest ->
      exists w',
        lsh_launch mem args w = (w', Ret 1) /\
        w_stderr w' = w_stderr w ++ [lit "lsh: " ++ env_strerror (w_env w) e ++ nl] /\
        w_stdout w' = w_stdout w /\ w_cwd w' = w_cwd w /\
        w_calls w' = w_calls w ++ [SysFork]) /\
  (forall mem args t toks w e rest,
      argv_wf mem args (t :: toks) ->
      w_forks w = ForkChild e :: rest ->
      exists w',
        lsh_launch mem args w
          = (w', Stop (match e with
                       | None => Replaced
                       | Some _ => Exit EXIT_FAILURE
                       end)) /\
        w_calls w' = w_calls w ++ [SysFork; SysExecvp t (t :: toks)] /\
        w_stderr w'
          = w_stderr w
              ++ match e with
                 | None => []
                 | Some e => [lit "lsh: " ++ env_strerror (w_env w) e ++ nl]
                 end).
Proof.
  split.
  - intros mem args w e rest Hf.
    destruct (lsh_launch_no_fork mem args w e) as (w' & Hrun & Herr & Hout & Hcwd & _ & _ & Hcalls).
    { right. exists rest. exact Hf. }
    exists w'. repeat split; assumption.
  - intros mem args t toks w e rest Hwf Hf.
    destruct (lsh_launch_child mem args t toks w e rest Hwf Hf)
      as (w' & Hrun & _ & _ & Hcalls & Herr).
    exists w'. repeat split; assumption.
Qed.

Lemma launch_reports_failures_witness :
  let mem := line_of (lit "nosuch") in
  let args := [Some (At 0); Some NULL] in
  (exists w',
      lsh_launch mem args (demo_world 1024 [] [ForkFails EAGAIN]) = (w', Ret 1) /\
      w_calls w' = [SysFork]) /\
  (exists w',
      lsh_launch mem args (demo_world 1024 [] [ForkChild (Some ENOENT)])
        = (w', Stop (Exit EXIT_FAILURE)) /\
      w_stderr w' = [lit "lsh: No such file or directory" ++ nl]).
Proof.
  intros mem args. split.
  - destruct (proj1 launch_reports_failures mem args
                (demo_world 1024 [] [ForkFails EAGAIN]) EAGAIN [] eq_refl)
      as (w' & Hrun & _ & _ & _ & Hcalls).
    exists w'. split; [exact Hrun | exact Hcalls].
  - destruct (proj2 launch_reports_failures mem args (lit "nosuch") []
                (demo_world 1024 [] [ForkChild (Some ENOENT)]) (Some ENOENT) [])
      as (w' & Hrun & _ & Herr).
    + exists [0]. split; [repeat constructor | reflexivity].
    + reflexivity.
    + exists w'. split; [exact Hrun | exact Herr].
Defined.

(** X11.  The one fault of the program.  In [lsh_launch] nothing writes
    [status] before the loop: when the first [waitpid] on the new child
    fails, as it does with [ECHILD] for a child the kernel reaps itself, the
    condition of the loop reads [status] indeterminate, which the model
    rates a fault.  There is no other: a run of [main] that faults, by a
    load or a store outside an array, the read of a cell never written or
    of a null pointer, has such a child in its script, whatever the input
    and the allocator are. *)
Theorem main_faults_only_on_a_failed_wait :
  (forall fuel w,
      snd (main fuel w) = Stop Fault ->
      exists pid, In (ForkReaped pid) (w_forks w)) /\
  (forall mem args w pid rest,
      w_forks w = ForkReaped pid :: rest ->
      exists w',
        lsh_launch mem args w = (w', Stop Fault) /\
        w_calls w' = w_calls w ++ [SysFork; SysWaitpid (Z.pos pid) WUNTRACED] /\
        w_errno w' = ECHILD).
Proof.
  split.
  - intros fuel w. unfold main, bind.
    destruct (lsh_loop fuel w) as [w1 r1] eqn:Hloop.
    apply lsh_loop_outcome in Hloop as (_ & Hr1).
    destruct r1 as [u|[status| | | |]]; cbn [snd]; try discriminate.
    intros _. exact Hr1.
  - intros mem args w pid rest Hf.
    destruct (lsh_launch_reaped mem args w pid rest Hf) as (w' & Hrun & Hcalls & He & _).
    exists w'. repeat split; assumption.
Qed.

Lemma main_faults_only_on_a_failed_wait_witness :
  let w := demo_world 1024 (lit "ls" ++ nl) [ForkReaped 7] in
  snd (main 1 w) = Stop Fault /\
  (exists pid, In (ForkReaped pid) (w_forks w)) /\
  (exists w',
      lsh_launch (line_of (lit "ls")) [Some (At 0); Some NULL] w = (w', Stop Fault) /\
      w_calls w' = [SysFork; SysWaitpid 7 WUNTRACED]).
Proof.
  intros w.
  assert (Hrun : snd (main 1 w) = Stop Fault) by (vm_compute; reflexivity).
  split; [exact Hrun|]. split.
  - exact (proj1 main_faults_only_on_a_failed_wait 1%nat w Hrun).
  - destruct (proj2 main_faults_only_on_a_failed_wait (line_of (lit "ls"))
                [Some (At 0); Some NULL] w 7%positive [] eq_refl)
      as (w' & H1 & H2 & _).
    exists w'. split; [exact H1 | exact H2].
Defined.

(** The [for] loop of the dispatcher from index [i] on: the first name
    equal to the command chooses the handler. *)
Lemma execute_from_first_match names handlers launch mem args p t w :
  load args 0 w = (w, Ret (At p)) ->
  cstr_at mem p = Some t ->
  Forall (fun name => ~ In NUL name) names ->
  length handlers = length names ->
  forall n i,
    (i + n = length names)%nat ->
    (forall j (h : array ascii -> array ptr -> M Z),
        (i <= j)%nat ->
        names !! j = Some t ->
        (forall k, (i <= k < j)%nat -> names !! k <> Some t) ->
        handlers !! j = Some h ->
        execute_from names handlers launch n i mem args w = h mem args w) /\
    ((forall k, (i <= k)%nat -> names !! k <> Some t) ->
     execute_from names handlers launch n i mem args w = launch mem args w).
Proof.
  intros Hload Hstr Hnames Hlen.
  assert (Ht : ~ In NUL t) by (eapply cstr_at_no_NUL, Hstr).
  induction n as [|n IH]; intros i Hi.
  { split; [|reflexivity].
    intros j h Hij Hj. apply lookup_lt_Some in Hj. lia. }
  destruct (lookup_lt_is_Some_2 names i ltac:(lia)) as [name Hname].
  destruct (lookup_lt_is_Some_2 handlers i ltac:(lia)) as [handler Hhandler].
  assert (Hn : ~ In NUL name).
  { rewrite Forall_forall in Hnames. apply Hnames.
    eapply list_elem_of_lookup_2, Hname. }
  assert (Hstep : execute_from names handlers launch (S n) i mem args w
                  = if strcmp t name =? 0 then handler mem args w
                    else execute_from names handlers launch n (S i) mem args w).
  { cbn [execute_from]. unfold bind at 1. rewrite Hload, Hname, Hhandler.
    unfold bind at 1. unfold string_at. rewrite Hstr.
    destruct (strcmp t name =? 0); reflexivity. }
  rewrite Hstep.
  destruct (IH (S i) ltac:(lia)) as (IHfound & IHnone).
  destruct (Z.eqb_spec (strcmp t name) 0) as [Heq|Hne].
  - apply (strcmp_eq t name Ht Hn) in Heq. subst name. split.
    + intros j h Hij Hj Hfirst Hh.
      destruct (decide (j = i)) as [->|Hji]; [congruence|].
      exfalso. apply (Hfirst i); [lia | exact Hname].
    + intros Hnone. exfalso. apply (Hnone i); [lia | exact Hname].
  - assert (Hname' : name <> t).
    { intros ->. apply Hne. now apply strcmp_eq. }
    split.
    + intros j h Hij Hj Hfirst Hh.
      destruct (decide (j = i)) as [->|Hji]; [congruence|].
      apply (IHfound j h); [lia | exact Hj | | exact Hh].
      intros k Hk. apply Hfirst. lia.
    + intros Hnone. apply IHnone. intros k Hk. apply Hnone. lia.
Qed.

(** X12.  The dispatcher's loop is right for every table, not only the
    shell's three builtins: with as many handlers as names, the command is
    given to the handler at the index of the first name equal to it, and to
    the launcher when no name is. *)
Theorem dispatcher_first_match_wins :
  forall names handlers launch mem args t toks w,
    argv_wf mem args (t :: toks) ->
    Forall (fun name => ~ In NUL name) names ->
    length handlers = length names ->
    (forall j (h : array ascii -> array ptr -> M Z),
        names !! j = Some t ->
        (forall k, (k < j)%nat -> names !! k <> Some t) ->
        handlers !! j = Some h ->
        execute (Z.of_nat (length names)) names handlers launch mem args w
          = h mem args w) /\
    ((forall k, names !! k <> Some t) ->
     execute (Z.of_nat (length names)) names handlers launch mem args w
       = launch mem args w).
Proof.
  intros names handlers launch mem args t toks w Hwf Hnames Hlen.
  destruct (argv_wf_entry mem args (t :: toks) 0 t w Hwf eq_refl) as (p & Hload & Hstr).
  change (Z.of_nat 0) with 0 in Hload.
  destruct (execute_from_first_match names handlers launch mem args p t w
              Hload Hstr Hnames Hlen (length names) 0%nat eq_refl)
    as (Hfound & Hnone).
  assert (Hexec : execute (Z.of_nat (length names)) names handlers launch mem args w
                  = execute_from names handlers launch (length names) 0 mem args w).
  { unfold execute. unfold bind at 1. rewrite Hload, Nat2Z.id. reflexivity. }
  rewrite Hexec. split.
  - intros j h Hj Hfirst Hh. apply (Hfound j h); [lia | exact Hj | | exact Hh].
    intros k Hk. apply Hfirst. lia.
  - intros Hno. apply Hnone. intros k _. apply Hno.
Qed.

Lemma dispatcher_first_match_wins_witness :
  let w := demo_world 1024 [] [] in
  let args := [Some (At 0); Some NULL] in
  execute 2 [lit "help"; lit "help"] [lsh_help; lsh_exit] lsh_launch
    (line_of (lit "help")) args w
  = lsh_help (line_of (lit "help")) args w.
Proof.
  intros w args.
  apply (proj1 (dispatcher_first_match_wins [lit "help"; lit "help"]
                  [lsh_help; lsh_exit] lsh_launch (line_of (lit "help")) args
                  (lit "help") [] w
                  ltac:(exists [0]; split; [repeat constructor | reflexivity])
                  ltac:(repeat constructor; vm_compute; intuition discriminate)
                  eq_refl) 0%nat lsh_help).
  - reflexivity.
  - intros k Hk. lia.
  - reflexivity.
Defined.

(** [waitpid] touches neither the working directory nor the streams. *)
Lemma wait_loop_frame fuel :
  forall pid status w w' r,
    wait_loop fuel pid status w = (w', r) ->
    w_cwd w' = w_cwd w /\ w_stdout w' = w_stdout w /\ w_stderr w' = w_stderr w.
Proof.
  induction fuel as [|fuel IH]; intros pid status w w' r Hrun.
  { injection Hrun as <- <-. repeat split. }
  cbn [wait_loop] in Hrun. unfold bind at 1 in Hrun. unfold waitpid at 1 in Hrun.
  cbn [w_children set_calls] in Hrun.
  destruct (find_child pid (w_children w)) as [[evs others]|].
  2:{ cbn [snd] in Hrun. destruct status as [st|].
      - destruct (negb (WIFEXITED st) && negb (WIFSIGNALED st)).
        + apply IH in Hrun as (H1 & H2 & H3). world_simpl. repeat split; assumption.
        + injection Hrun as <- <-. repeat split.
      - injection Hrun as <- <-. repeat split. }
  destruct (if Z.land WUNTRACED WUNTRACED =? 0
            then List.filter (fun ev => negb (is_stop ev)) evs else evs) as [|ev evs'].
  { injection Hrun as <- <-. repeat split. }
  cbn [snd] in Hrun.
  destruct (negb (WIFEXITED (wstatus ev)) && negb (WIFSIGNALED (wstatus ev))).
  - apply IH in Hrun as (H1 & H2 & H3). world_simpl. repeat split; assumption.
  - injection Hrun as <- <-. repeat split.
Qed.

(** [lsh_launch] prints nothing on the standard output and stays in the
    directory it is in. *)
Lemma lsh_launch_frame mem args w w' r :
  lsh_launch mem args w = (w', r) ->
  w_cwd w' = w_cwd w /\ w_stdout w' = w_stdout w.
Proof.
  unfold lsh_launch. unfold bind at 1. unfold fork. cbn [w_forks set_calls].
  destruct (w_forks w) as [|[e|e|pid evs|pid] rest].
  - cbn [Z.eqb Z.ltb Z.compare]. unfold bind, perror, print_err, ret.
    intros [= <- <-]. repeat split.
  - cbn [Z.eqb Z.ltb Z.compare]. unfold bind, perror, print_err, ret.
    intros [= <- <-]. repeat split.
  - cbn [Z.eqb]. unfold bind at 1. unfold bind at 1.
    match goal with
    | |- context [load args 0 ?w1] => destruct (load args 0 w1) as [w2 r2] eqn:El
    end.
    apply load_inv in El as [-> [->|(arg0 & ->)]].
    { intros [= <- <-]. repeat split. }
    unfold bind at 1. unfold bind at 1. unfold execvp.
    destruct arg0 as [|p]; [intros [= <- <-]; repeat split|].
    destruct (argv_strings mem args); [|intros [= <- <-]; repeat split].
    destruct (cstr_at mem p); [|intros [= <- <-]; repeat split].
    cbn [w_child set_child set_calls].
    destruct e as [e|]; [|intros [= <- <-]; repeat split].
    cbn [Z.eqb]. unfold bind, perror, print_err, exit, halt.
    intros [= <- <-]. repeat split.
  - cbn [Z.eqb Z.ltb Z.compare]. unfold bind at 1.
    match goal with
    | |- context [wait_loop ?f ?p ?st ?w1] =>
        destruct (wait_loop f p st w1) as [w2 r2] eqn:Ew
    end.
    apply wait_loop_frame in Ew as (H1 & H2 & _).
    destruct r2 as [u|st]; unfold ret; intros [= <- <-];
      world_simpl; split; assumption.
  - cbn [Z.eqb Z.ltb Z.compare]. unfold bind at 1.
    match goal with
    | |- context [wait_loop ?f ?p ?st ?w1] =>
        destruct (wait_loop f p st w1) as [w2 r2] eqn:Ew
    end.
    apply wait_loop_frame in Ew as (H1 & H2 & _).
    destruct r2 as [u|st]; unfold ret; intros [= <- <-];
      world_simpl; split; assumption.
Qed.

(** What a turn leaves alone: only [cd] moves the shell, only [help] prints
    more than the prompt. *)
Lemma lsh_execute_frame mem args toks w w' r :
  argv_wf mem args toks ->
  lsh_execute mem args w = (w', r) ->
  (head toks <> Some (lit "cd") -> w_cwd w' = w_cwd w) /\
  (head toks <> Some (lit "help") -> w_stdout w' = w_stdout w).
Proof.
  intros Hwf Hrun. destruct toks as [|t toks].
  { rewrite (lsh_execute_empty _ _ _ Hwf) in Hrun. injection Hrun as <- <-.
    split; reflexivity. }
  assert (Hno : ~ In NUL t).
  { pose proof (argv_wf_no_NUL _ _ _ Hwf) as H.
    apply Forall_cons_1 in H as [H _]. exact H. }
  pose proof builtin_names_no_NUL as Hb.
  apply Forall_cons_1 in Hb as (Hcd & Hb).
  apply Forall_cons_1 in Hb as (Hhelp & _).
  rewrite (lsh_execute_command _ _ _ _ _ Hwf) in Hrun. cbn [head].
  destruct (is_name "cd" t) eqn:E1.
  { apply (is_name_eq "cd" t Hno Hcd) in E1. subst t.
    destruct (lsh_cd_outcome mem args _ toks w Hwf) as (w1 & H1 & _ & _ & Hout).
    rewrite H1 in Hrun. injection Hrun as <- <-.
    split; [intros H; now contradiction H | intros _; exact Hout]. }
  destruct (is_name "help" t) eqn:E2.
  { apply (is_name_eq "help" t Hno Hhelp) in E2. subst t.
    destruct (lsh_help_spec mem args w) as (w1 & H1 & _ & _ & Hcwd & _).
    rewrite H1 in Hrun. injection Hrun as <- <-.
    split; [intros _; exact Hcwd | intros H; now contradiction H]. }
  destruct (is_name "exit" t).
  { injection Hrun as <- <-. split; reflexivity. }
  apply lsh_launch_frame in Hrun as (H1 & H2). split; intros _; assumption.
Qed.

(** X13.  What a turn of the loop never does, for every input, allocator
    and kernel, and however the turn ends: unless the first token of the
    line is [cd] the shell stays in its working directory, and unless it is
    [help] the shell prints the prompt on its standard output and nothing
    else. *)
Theorem only_cd_moves_and_only_help_prints :
  forall w w' r,
    loop_body w = (w', r) ->
    let toks := tokens_of (c_str (fst (first_line (w_stdin w)))) in
    (head toks <> Some (lit "cd") -> w_cwd w' = w_cwd w) /\
    (head toks <> Some (lit "help") -> w_stdout w' = w_stdout w ++ [lit "> "]).
Proof.
  intros w w' r Hrun toks. unfold loop_body in Hrun.
  unfold bind at 1 in Hrun. unfold print_out at 1 in Hrun.
  set (p := set_stdout _ w) in Hrun.
  assert (Hpc : w_cwd p = w_cwd w) by reflexivity.
  assert (Hpo : w_stdout p = w_stdout w ++ [lit "> "]) by reflexivity.
  unfold bind at 1 in Hrun.
  destruct (lsh_read_line p) as [w1 r1] eqn:Hread.
  apply lsh_read_line_spec in Hread as (_ & Hp1 & Hr1).
  destruct Hp1 as (_ & _ & _ & _ & Hc1 & Ho1 & _).
  destruct r1 as [buf|[status| | | |]]; try contradiction.
  2:{ injection Hrun as <- <-. split; intros _; congruence. }
  destruct Hr1 as (_ & _ & Hbuf & _).
  apply reader_buffer_cstr in Hbuf. change (w_stdin p) with (w_stdin w) in Hbuf.
  unfold bind at 1 in Hrun.
  destruct (lsh_split_line buf w1) as [w2 r2] eqn:Hsplit.
  apply (lsh_split_line_spec _ _ _ _ _ Hbuf) in Hsplit as (_ & Hp2 & Hr2).
  destruct Hp2 as (_ & _ & _ & _ & Hc2 & Ho2 & _).
  destruct r2 as [[mem args]|[status| | | |]]; try contradiction.
  2:{ injection Hrun as <- <-. split; intros _; congruence. }
  destruct Hr2 as (_ & Hwf & _).
  assert (Hexec : lsh_execute mem args w2 = (w', r)).
  { unfold bind, free, ret in Hrun.
    destruct (lsh_execute mem args w2) as [w3 [status|st]]; exact Hrun. }
  destruct (lsh_execute_frame _ _ _ _ _ _ Hwf Hexec) as (Hcwd & Hout).
  split; intros H.
  - rewrite (Hcwd H). congruence.
  - rewrite (Hout H). congruence.
Qed.

Lemma only_cd_moves_and_only_help_prints_witness :
  let w := demo_world 1024 (lit "ls /tmp" ++ nl) [ForkParent 7 [ChildExited 2]] in
  w_cwd (fst (loop_body w)) = lit "/home" /\
  w_stdout (fst (loop_body w)) = [lit "> "].
Proof.
  intros w.
  destruct (loop_body w) as [w' r] eqn:E.
  destruct (only_cd_moves_and_only_help_prints w w' r E) as (Hcwd & Hout).
  split.
  - apply Hcwd. vm_compute. discriminate.
  - apply Hout. vm_compute. discriminate.
Defined.
